(** * Repository migration scripts: a shallow embedding

    The repository holds three versions of the class [RepositoryMigrator]:

    - [Part000]      the script with JSON import and full console output
                     (src/unnamed/part_000);
    - [MigrateRepos] the reduced script with stop-on-failure
                     (src/migrate-repos.js);
    - [ExportUsers]  the script with stop-on-failure, validation and a report
                     (second document of src/export-users.js).

    The first document of src/export-users.js, the export of organization
    members, is a script of its own: [UserExport].

    Each version is embedded method by method in a module of its own.  The
    methods are [async] functions that mutate [this.results], call the GitHub
    API, read the clock, write to the console and to disk, throw and catch
    [Error]s and terminate the process; they are embedded in one monad [Js]
    that reads a [World] (everything outside the program), threads a [State]
    (everything the program changes) and completes normally, by a thrown
    error, or by [process.exit].

    What the embedding leaves out:
    - lines written with [console.log] (standard output); [console.warn] and
      [console.error] are kept, with their text.  [console.error] with two
      arguments prints them with a blank between them; format specifiers
      in the first argument, which an organization or repository name could
      carry as [%s], are not interpreted;
    - the text of the persisted JSON: a call of [writeFileSync] is recorded
      with the report object it serializes, whether the file system accepts
      it or throws;
    - values of the wrong type: the remote answers each route with data of
      the shape the scripts read, and [test-repos.json], when it parses, is
      an array of records whose [url] and [sshUrl] are strings or absent. *)

From Stdlib Require Import String Ascii List ZArith Floats Uint63 Lia Bool.
From Stdlib Require Import Permutation RelationClasses.
Import ListNotations.
Open Scope string_scope.
Open Scope list_scope.

Set Implicit Arguments.

(** ** JavaScript values used by the scripts *)

(** An [Error] object: [error.message] and, on errors raised by the HTTP
    client, [error.status]. *)
Record JsError := mkError { message : string; status : option Z }.

(** [new Error(msg)] *)
Definition Error (msg : string) : JsError := mkError msg None.

(** A repository record, as returned by the listing endpoint or read from the
    JSON file written by [gh repo list --json name,sshUrl,url].  [url] and
    [sshUrl] are [None] when the field is absent, that is [undefined], so
    that calling [.match] on it raises a [TypeError]. *)
Record Repo := mkRepo { name : string; url : option string; sshUrl : option string }.

(** An element of one of the arrays of [this.results]. The three shapes are
    the three object literals pushed by [transferRepository]. *)
Inductive Entry :=
| Simulated (repo target timestamp : string)
    (* {repo, target, dryRun: true, timestamp} *)
| Transferred (repo target timestamp : string) (response : Z)
    (* {repo, target, timestamp, response: response.status} *)
| Rejected (repo error : string) (status : option Z) (timestamp : string).
    (* {repo, error: error.message, status: error.status, timestamp} *)

Definition entry_repo (e : Entry) : string :=
  match e with
  | Simulated r _ _ | Transferred r _ _ _ | Rejected r _ _ _ => r
  end.

(** The [dryRun] field of an entry; [None] when the object has no such field. *)
Definition entry_dryRun (e : Entry) : option bool :=
  match e with
  | Simulated _ _ _ => Some true
  | _ => None
  end.

(** The [target] field of an entry. *)
Definition entry_target (e : Entry) : option string :=
  match e with
  | Simulated _ t _ | Transferred _ t _ _ => Some t
  | Rejected _ _ _ _ => None
  end.

(** An entry that reports a transfer as done or as simulated. *)
Definition is_success (e : Entry) : bool :=
  match e with
  | Rejected _ _ _ _ => false
  | _ => true
  end.

Module Summary.
(** [this.results.summary] once [generateReport] has assigned it. The counts
    are array lengths; [successRate] is a double. *)
Record t := mk {
  total : nat;
  successful : nat;
  failed : nat;
  skipped : nat;
  successRate : float;
  timestamp : string;
  dryRun : bool
}.
End Summary.

(** [this.results]; [summary] is [None] while it is still the empty object. *)
Record Results := mkResults {
  successful : list Entry;
  failed : list Entry;
  skipped : list Entry;
  summary : option Summary.t
}.

(** The value returned by [transferRepository]. *)
Inductive TransferResult :=
| DryRunResult                     (* {success: true, dryRun: true} *)
| SuccessResult (response : Z)     (* {success: true, response} *)
| FailureResult (error : JsError). (* {success: false, error} *)

Definition success (r : TransferResult) : bool :=
  match r with
  | FailureResult _ => false
  | _ => true
  end.

(** ** The outside world *)

(** The five routes the scripts request through [octokit.request]. *)
Inductive Request :=
| GET_user
| GET_orgs (org : string)
| GET_orgs_memberships (org username : string)
| GET_orgs_repos (org : string)
| POST_repos_transfer (owner repo new_owner : string).

(** What the scripts read from a successful response of each route:
    [data.login], nothing, [data.role], [data], [status]. *)
Definition Response (r : Request) : Type :=
  match r with
  | GET_user => string
  | GET_orgs _ => unit
  | GET_orgs_memberships _ _ => string
  | GET_orgs_repos _ => list Repo
  | POST_repos_transfer _ _ _ => Z
  end.

(** [readFileSync(path, 'utf8')] followed by [JSON.parse]. *)
Inductive FileContent :=
| Unreadable (message : string)   (* readFileSync throws *)
| Unparsable (message : string)   (* JSON.parse throws *)
| RepoArray (repos : list Repo).

(** Everything the process reads and does not control.  The remote answers a
    request knowing all requests made before it, so a repository may be
    listed, transferred, and then refuse a second transfer.  The clock is
    indexed by the number of earlier readings.  The file system answers a
    call of [writeFileSync] knowing the calls made before it: [Some e] when
    the call throws [e].  [import_meta_url] is [import.meta.url], the URL of
    the module. *)
Record World := mkWorld {
  github : list Request -> forall r : Request, JsError + Response r;
  now : nat -> string;
  disk : string -> FileContent;
  TARGET_ORG : option string;
  SOURCE_ORGS : option string;
  argv : list string;
  import_meta_url : string;
  write_error : list (string * Results) -> string -> option JsError
}.

(** The two console methods that write to standard error. *)
Inductive Level := level_warn | level_error.

(** Everything the process changes. *)
Record State := mkState {
  results : Results;                 (* this.results *)
  requests : list Request;           (* requests issued, oldest first *)
  stderr : list (Level * string);    (* console.warn / console.error *)
  files : list (string * Results);   (* writeFileSync calls, oldest first *)
  clock_reads : nat;                 (* evaluations of new Date() *)
  slept : nat                        (* milliseconds spent in setTimeout *)
}.

Definition empty_results : Results := mkResults [] [] [] None.

(** The state of a process that has just started. *)
Definition boot : State := mkState empty_results [] [] [] 0 0.

Definition with_results (f : Results -> Results) (st : State) : State :=
  mkState (f (results st)) (requests st) (stderr st) (files st)
          (clock_reads st) (slept st).

(** ** The monad of the scripts *)

Inductive Completion (A : Type) :=
| Normal (a : A)
| Throw (e : JsError)
| Exit (code : Z).
Arguments Normal {A} a.
Arguments Throw {A} e.
Arguments Exit {A} code.

Definition Js (A : Type) : Type := World -> State -> Completion A * State.

Definition ret {A} (a : A) : Js A := fun _ st => (Normal a, st).

Definition bind {A B} (m : Js A) (k : A -> Js B) : Js B :=
  fun w st =>
    match m w st with
    | (Normal a, st') => k a w st'
    | (Throw e, st') => (Throw e, st')
    | (Exit c, st') => (Exit c, st')
    end.

Notation "x <- m ;; k" := (bind m (fun x => k))
  (at level 61, m at next level, right associativity).
Notation "m ;; k" := (bind m (fun _ => k))
  (at level 61, right associativity).

(** [throw e] *)
Definition throw {A} (e : JsError) : Js A := fun _ st => (Throw e, st).

(** [try { body } catch (error) { handler }]; [process.exit] is not caught. *)
Definition try_catch {A} (body : Js A) (handler : JsError -> Js A) : Js A :=
  fun w st =>
    match body w st with
    | (Throw e, st') => handler e w st'
    | r => r
    end.

(** [for (const x of xs) { body }] *)
Fixpoint for_of {A} (xs : list A) (body : A -> Js unit) : Js unit :=
  match xs with
  | [] => ret tt
  | x :: rest => body x ;; for_of rest body
  end.

(** [await this.octokit.request(route, parameters)] *)
Definition octokit_request (r : Request) : Js (Response r) :=
  fun w st =>
    let st' := mkState (results st) (requests st ++ [r]) (stderr st)
                       (files st) (clock_reads st) (slept st) in
    match github w (requests st) r with
    | inl e => (Throw e, st')
    | inr d => (Normal d, st')
    end.

(** [new Date().toISOString()] *)
Definition Date_toISOString : Js string :=
  fun w st =>
    (Normal (now w (clock_reads st)),
     mkState (results st) (requests st) (stderr st) (files st)
             (S (clock_reads st)) (slept st)).

Definition console (l : Level) (line : string) : Js unit :=
  fun _ st =>
    (Normal tt,
     mkState (results st) (requests st) (stderr st ++ [(l, line)]) (files st)
             (clock_reads st) (slept st)).

Definition console_warn := console level_warn.
Definition console_error := console level_error.

(** How a call of [writeFileSync] for [path] completes after the calls
    [earlier]. *)
Definition write_completion (w : World) (earlier : list (string * Results))
  (path : string) : Completion unit :=
  match write_error w earlier path with
  | Some e => Throw e
  | None => Normal tt
  end.

(** [writeFileSync(path, JSON.stringify(this.results, null, 2))]: the call
    is recorded, and it throws when the file system refuses it. *)
Definition writeFileSync_results (path : string) : Js unit :=
  fun w st =>
    (write_completion w (files st) path,
     mkState (results st) (requests st) (stderr st)
             (files st ++ [(path, results st)]) (clock_reads st) (slept st)).

(** [await new Promise(resolve => setTimeout(resolve, ms))] *)
Definition setTimeout (ms : nat) : Js unit :=
  fun _ st =>
    (Normal tt,
     mkState (results st) (requests st) (stderr st) (files st)
             (clock_reads st) (slept st + ms)).

(** [process.exit(code)] *)
Definition process_exit {A} (code : Z) : Js A := fun _ st => (Exit code, st).

(** [this.results.successful.push(e)] and [this.results.failed.push(e)] *)
Definition push_successful (e : Entry) : Js unit :=
  fun _ st =>
    (Normal tt,
     with_results (fun r => mkResults (successful r ++ [e]) (failed r)
                                      (skipped r) (summary r)) st).

Definition push_failed (e : Entry) : Js unit :=
  fun _ st =>
    (Normal tt,
     with_results (fun r => mkResults (successful r) (failed r ++ [e])
                                      (skipped r) (summary r)) st).

(** Reading the world; assigning [this.results]. *)
Definition world : Js World := fun w st => (Normal w, st).
Definition set_results (r : Results) : Js unit :=
  fun _ st => (Normal tt, with_results (fun _ => r) st).

(** ** Strings and arrays *)

(** [s.split(sep)] for a one-character separator. *)
Fixpoint split (sep : ascii) (s : string) : list string :=
  match s with
  | EmptyString => [EmptyString]
  | String c rest =>
      if Ascii.eqb c sep then EmptyString :: split sep rest
      else match split sep rest with
           | [] => [String c EmptyString]
           | piece :: pieces => String c piece :: pieces
           end
  end.

(** [xs.includes(x)] on an array of strings. *)
Definition includes (xs : list string) (x : string) : bool :=
  existsb (String.eqb x) xs.

(** [s] without its prefix [p], when it has it. *)
Fixpoint drop_prefix (p s : string) : option string :=
  match p, s with
  | EmptyString, _ => Some s
  | String a p', String b s' =>
      if Ascii.eqb a b then drop_prefix p' s' else None
  | String _ _, EmptyString => None
  end.

(** The longest prefix of [s] without a slash, and what follows it. *)
Fixpoint segment (s : string) : string * string :=
  match s with
  | EmptyString => (EmptyString, EmptyString)
  | String c rest =>
      if Ascii.eqb c "/" then (EmptyString, s)
      else let (seg, tail) := segment rest in (String c seg, tail)
  end.

(** A match of [literal([^\/]+)\/] that starts at the first character of [s]:
    the captured group. The group is greedy and the slash after it cannot be
    part of it, so there is one way to match. *)
Definition owner_at (literal s : string) : option string :=
  match drop_prefix literal s with
  | Some rest =>
      match segment rest with
      | (String c seg, String "/" _) => Some (String c seg)
      | _ => None
      end
  | None => None
  end.

(** [s.match(/literal([^\/]+)\//)]: the group captured by the leftmost match,
    [None] for [null]. *)
Fixpoint owner_match (literal s : string) : option string :=
  match owner_at literal s with
  | Some owner => Some owner
  | None =>
      match s with
      | EmptyString => None
      | String _ rest => owner_match literal rest
      end
  end.

(** [subject.match(re)] where [subject] may be missing: a [TypeError]. *)
Definition String_match (subject : option string) (literal : string)
  : Js (option string) :=
  match subject with
  | Some s => ret (owner_match literal s)
  | None =>
      throw (Error "Cannot read properties of undefined (reading 'match')")
  end.

(** The number of elements of an array as a double. Lengths are below 2^32,
    where the conversion is exact. *)
Definition Number_of_length (n : nat) : float :=
  PrimFloat.of_uint63 (Uint63.of_Z (Z.of_nat n)).

(** [successful.length / (successful.length + failed.length) * 100], every
    operation on doubles. *)
Definition success_rate (s f : nat) : float :=
  (Number_of_length s / (Number_of_length s + Number_of_length f) * 100)%float.

(** The object assigned to [this.results.summary] by [generateReport]. *)
Definition summarize (r : Results) (timestamp : string) (dryRun : bool)
  : Summary.t :=
  Summary.mk
    (length (successful r) + length (failed r) + length (skipped r))
    (length (successful r))
    (length (failed r))
    (length (skipped r))
    (success_rate (length (successful r)) (length (failed r)))
    timestamp
    dryRun.

(** [this.results.summary = { total: ..., successRate: ..., timestamp, dryRun }] *)
Definition assign_summary (timestamp : string) (dryRun : bool) : Js unit :=
  fun _ st =>
    (Normal tt,
     with_results (fun r => mkResults (successful r) (failed r) (skipped r)
                              (Some (summarize r timestamp dryRun))) st).

(** Exit status of the process for a completion of the top-level code: an
    uncaught error ends the process with status 1. *)
Definition exit_status {A} (c : Completion A) : Z :=
  match c with
  | Normal _ => 0
  | Throw _ => 1
  | Exit code => code
  end.

(** [import.meta.url === `file://${process.argv[1]}`], the test under which
    each file runs its program; a missing [process.argv[1]] is printed as
    [undefined]. *)
Definition is_entry_point (w : World) : bool :=
  String.eqb (import_meta_url w)
             ("file://" ++ nth 1 (argv w) "undefined")%string.

(** Options passed to the constructor; [None] for [undefined]. *)
Record Options := mkOptions { options_dryRun : option bool }.

(** [process.env.SOURCE_ORGS?.split(',') || []] *)
Definition parse_source_orgs (v : option string) : list string :=
  match v with
  | Some s => split "," s
  | None => []
  end.

(** [`migration-log-${new Date().toISOString().split('T')[0]}.json`] *)
Definition log_file_name (iso : string) : string :=
  ("migration-log-" ++ hd EmptyString (split "T" iso) ++ ".json")%string.

(** The message of the error thrown by every constructor when
    [process.env.TARGET_ORG] is unset or empty. *)
Definition TARGET_ORG_required : string :=
  "TARGET_ORG environment variable is required. Please set it in your .env file.".

(** * src/unnamed/part_000 *)

Module Part000.

Record RepositoryMigrator := mk {
  targetOrg : string;
  sourceOrgs : list string;
  dryRun : bool;
  logFile : string
}.

Definition constructor (options : Options) : Js RepositoryMigrator :=
  w <- world ;;
  match TARGET_ORG w with
  | None | Some EmptyString =>
      throw (Error TARGET_ORG_required)
  | Some target =>
      iso <- Date_toISOString ;;
      set_results empty_results ;;
      ret (mk target
              (parse_source_orgs (SOURCE_ORGS w))
              (match options_dryRun options with Some b => b | None => true end)
              (log_file_name iso))
  end.

Definition listRepositories (this : RepositoryMigrator) (org : string)
  : Js (list Repo) :=
  try_catch
    (data <- octokit_request (GET_orgs_repos org) ;;
     ret data)
    (fun error =>
       console_error ("❌ Error listing repositories for " ++ org ++ ": "
                      ++ message error)%string ;;
       ret []).

Definition transferRepository (this : RepositoryMigrator) (repo : Repo)
  (sourceOrg : string) : Js TransferResult :=
  let repoName := name repo in
  let repoFullName := (sourceOrg ++ "/" ++ repoName)%string in
  if dryRun this then
    timestamp <- Date_toISOString ;;
    push_successful
      (Simulated repoFullName (targetOrg this ++ "/" ++ repoName)%string timestamp) ;;
    ret DryRunResult
  else
    try_catch
      (response <- octokit_request
                     (POST_repos_transfer sourceOrg repoName (targetOrg this)) ;;
       timestamp <- Date_toISOString ;;
       push_successful
         (Transferred repoFullName (targetOrg this ++ "/" ++ repoName)%string
                      timestamp response) ;;
       ret (SuccessResult response))
      (fun error =>
         console_error ("❌ Failed to transfer " ++ repoFullName ++ ": "
                        ++ message error)%string ;;
         timestamp <- Date_toISOString ;;
         push_failed
           (Rejected repoFullName (message error) (status error) timestamp) ;;
         ret (FailureResult error)).

Definition validateSetup (this : RepositoryMigrator) : Js unit :=
  try_catch
    (_ <- octokit_request GET_user ;; ret tt)
    (fun error => throw (Error ("Authentication failed: " ++ message error)%string)) ;;
  try_catch
    (_ <- octokit_request (GET_orgs (targetOrg this)) ;; ret tt)
    (fun error =>
       throw (Error ("Target organization '" ++ targetOrg this
                     ++ "' not found or no access")%string)) ;;
  try_catch
    (login <- octokit_request GET_user ;;
     role <- octokit_request (GET_orgs_memberships (targetOrg this) login) ;;
     if negb (includes ["admin"; "owner"] role) then
       throw (Error ("Insufficient permissions for target org. Need admin/owner, have: "
                     ++ role)%string)
     else ret tt)
    (fun error =>
       console_warn ("⚠️  Could not verify permissions for target org: "
                     ++ message error)%string).

(** [JSON.parse(readFileSync(filePath, 'utf8'))] *)
Definition read_repos (filePath : string) : Js (list Repo) :=
  w <- world ;;
  match disk w filePath with
  | Unreadable msg => throw (Error msg)
  | Unparsable msg => throw (Error msg)
  | RepoArray repos => ret repos
  end.

(** [repo.url.match(/github\.com\/([^\/]+)\//) ||
     repo.sshUrl.match(/github\.com:([^\/]+)\//)] *)
Definition orgMatch (repo : Repo) : Js (option string) :=
  m <- String_match (url repo) "github.com/" ;;
  match m with
  | Some owner => ret (Some owner)
  | None => String_match (sshUrl repo) "github.com:"
  end.

Definition migrateFromFile (this : RepositoryMigrator) (filePath : string)
  : Js unit :=
  try_catch
    (repos <- read_repos filePath ;;
     for_of repos (fun repo =>
       m <- orgMatch repo ;;
       match m with
       | None =>
           console_warn ("⚠️  Could not determine organization for "
                         ++ name repo)%string
       | Some sourceOrg =>
           _ <- transferRepository this repo sourceOrg ;;
           setTimeout 1000
       end))
    (fun error =>
       console_error ("❌ Error reading file " ++ filePath ++ ": "
                      ++ message error)%string).

Definition migrateFromOrganizations (this : RepositoryMigrator)
  (sourceOrgs : list string) : Js unit :=
  for_of sourceOrgs (fun sourceOrg =>
    repos <- listRepositories this sourceOrg ;;
    for_of repos (fun repo =>
      _ <- transferRepository this repo sourceOrg ;;
      setTimeout 1000)).

Definition generateReport (this : RepositoryMigrator) : Js unit :=
  timestamp <- Date_toISOString ;;
  assign_summary timestamp (dryRun this) ;;
  writeFileSync_results (logFile this).

(** [existsSync(path)], the function defined at the end of the file. *)
Definition existsSync (path : string) : Js bool :=
  w <- world ;;
  match disk w path with
  | Unreadable _ => ret false
  | _ => ret true
  end.

Definition run (this : RepositoryMigrator) : Js unit :=
  try_catch
    (validateSetup this ;;
     found <- existsSync "test-repos.json" ;;
     (if found then migrateFromFile this "test-repos.json"
      else if (0 <? length (sourceOrgs this))%nat then
        migrateFromOrganizations this (sourceOrgs this)
      else
        throw (Error "No source organizations specified and no repos file found")) ;;
     generateReport this)
    (fun error =>
       console_error ("💥 Migration failed: " ++ message error)%string ;;
       process_exit 1).

(** The code at the end of the file, which runs the program when the file
    is the entry point of the process. *)
Definition main : Js unit :=
  w <- world ;;
  if is_entry_point w then
    migrator <- constructor (mkOptions (Some (negb (includes (argv w) "--execute")))) ;;
    run migrator
  else ret tt.

End Part000.

(** * src/migrate-repos.js *)

Module MigrateRepos.

Record RepositoryMigrator := mk {
  targetOrg : string;
  sourceOrgs : list string;
  dryRun : bool;
  stopOnFailure : bool
}.

Definition constructor (options : Options) : Js RepositoryMigrator :=
  w <- world ;;
  match TARGET_ORG w with
  | None | Some EmptyString =>
      throw (Error TARGET_ORG_required)
  | Some target =>
      set_results empty_results ;;
      ret (mk target
              (parse_source_orgs (SOURCE_ORGS w))
              (match options_dryRun options with Some b => b | None => true end)
              true)
  end.

Definition listRepositories (this : RepositoryMigrator) (org : string)
  : Js (list Repo) :=
  try_catch
    (data <- octokit_request (GET_orgs_repos org) ;;
     ret data)
    (fun error =>
       console_error ("❌ Error listing repositories for " ++ org ++ ": "
                      ++ message error)%string ;;
       ret []).

Definition transferRepository (this : RepositoryMigrator) (repo : Repo)
  (sourceOrg : string) : Js TransferResult :=
  let repoName := name repo in
  let repoFullName := (sourceOrg ++ "/" ++ repoName)%string in
  if dryRun this then
    timestamp <- Date_toISOString ;;
    push_successful
      (Simulated repoFullName (targetOrg this ++ "/" ++ repoName)%string timestamp) ;;
    ret DryRunResult
  else
    try_catch
      (response <- octokit_request
                     (POST_repos_transfer sourceOrg repoName (targetOrg this)) ;;
       timestamp <- Date_toISOString ;;
       push_successful
         (Transferred repoFullName (targetOrg this ++ "/" ++ repoName)%string
                      timestamp response) ;;
       ret (SuccessResult response))
      (fun error =>
         console_error ("❌ " ++ repoFullName ++ ": " ++ message error)%string ;;
         timestamp <- Date_toISOString ;;
         push_failed
           (Rejected repoFullName (message error) (status error) timestamp) ;;
         if negb (dryRun this) && stopOnFailure this then
           throw (Error ("Migration failed for " ++ repoFullName ++ ": "
                         ++ message error)%string)
         else ret (FailureResult error)).

Definition migrateFromOrganizations (this : RepositoryMigrator)
  (sourceOrgs : list string) : Js unit :=
  for_of sourceOrgs (fun sourceOrg =>
    repos <- listRepositories this sourceOrg ;;
    for_of repos (fun repo =>
      result <- transferRepository this repo sourceOrg ;;
      if negb (success result) && negb (dryRun this) then
        throw (Error "Migration stopped due to failure")
      else
        setTimeout 1000)).

Definition run (this : RepositoryMigrator) : Js unit :=
  try_catch
    (if (0 <? length (sourceOrgs this))%nat then
       migrateFromOrganizations this (sourceOrgs this)
     else
       throw (Error "No source organizations specified"))
    (fun error =>
       console_error ("❌ Migration failed: " ++ message error)%string ;;
       process_exit 1).

Definition main : Js unit :=
  w <- world ;;
  if is_entry_point w then
    migrator <- constructor (mkOptions (Some (negb (includes (argv w) "--execute")))) ;;
    run migrator
  else ret tt.

End MigrateRepos.

(** * src/export-users.js, the [RepositoryMigrator] class *)

Module ExportUsers.

Record RepositoryMigrator := mk {
  targetOrg : string;
  sourceOrgs : list string;
  dryRun : bool;
  logFile : string;
  stopOnFailure : bool
}.

Definition constructor (options : Options) : Js RepositoryMigrator :=
  w <- world ;;
  match TARGET_ORG w with
  | None | Some EmptyString =>
      throw (Error TARGET_ORG_required)
  | Some target =>
      iso <- Date_toISOString ;;
      set_results empty_results ;;
      ret (mk target
              (parse_source_orgs (SOURCE_ORGS w))
              (match options_dryRun options with Some b => b | None => true end)
              (log_file_name iso)
              true)
  end.

Definition listRepositories (this : RepositoryMigrator) (org : string)
  : Js (list Repo) :=
  try_catch
    (data <- octokit_request (GET_orgs_repos org) ;;
     ret data)
    (fun error =>
       console_error ("❌ Error listing repositories for " ++ org ++ ": "
                      ++ message error)%string ;;
       ret []).

Definition transferRepository (this : RepositoryMigrator) (repo : Repo)
  (sourceOrg : string) : Js TransferResult :=
  let repoName := name repo in
  let repoFullName := (sourceOrg ++ "/" ++ repoName)%string in
  if dryRun this then
    timestamp <- Date_toISOString ;;
    push_successful
      (Simulated repoFullName (targetOrg this ++ "/" ++ repoName)%string timestamp) ;;
    ret DryRunResult
  else
    try_catch
      (response <- octokit_request
                     (POST_repos_transfer sourceOrg repoName (targetOrg this)) ;;
       timestamp <- Date_toISOString ;;
       push_successful
         (Transferred repoFullName (targetOrg this ++ "/" ++ repoName)%string
                      timestamp response) ;;
       ret (SuccessResult response))
      (fun error =>
         console_error ("❌ " ++ repoFullName ++ ": " ++ message error)%string ;;
         timestamp <- Date_toISOString ;;
         push_failed
           (Rejected repoFullName (message error) (status error) timestamp) ;;
         if negb (dryRun this) && stopOnFailure this then
           throw (Error ("Migration failed for " ++ repoFullName ++ ": "
                         ++ message error)%string)
         else ret (FailureResult error)).

Definition validateSetup (this : RepositoryMigrator) : Js unit :=
  try_catch
    (_ <- octokit_request GET_user ;; ret tt)
    (fun error => throw (Error ("Authentication failed: " ++ message error)%string)) ;;
  try_catch
    (_ <- octokit_request (GET_orgs (targetOrg this)) ;; ret tt)
    (fun error =>
       throw (Error ("Target organization '" ++ targetOrg this
                     ++ "' not found or no access")%string)) ;;
  try_catch
    (login <- octokit_request GET_user ;;
     role <- octokit_request (GET_orgs_memberships (targetOrg this) login) ;;
     if negb (includes ["admin"; "owner"] role) then
       throw (Error ("Insufficient permissions for target org. Need admin/owner, have: "
                     ++ role)%string)
     else ret tt)
    (fun _ => ret tt).

Definition migrateFromOrganizations (this : RepositoryMigrator)
  (sourceOrgs : list string) : Js unit :=
  for_of sourceOrgs (fun sourceOrg =>
    repos <- listRepositories this sourceOrg ;;
    for_of repos (fun repo =>
      result <- transferRepository this repo sourceOrg ;;
      if negb (success result) && negb (dryRun this) then
        throw (Error "Migration stopped due to failure")
      else
        setTimeout 1000)).

Definition generateReport (this : RepositoryMigrator) : Js unit :=
  timestamp <- Date_toISOString ;;
  assign_summary timestamp (dryRun this) ;;
  writeFileSync_results (logFile this).

Definition run (this : RepositoryMigrator) : Js unit :=
  try_catch
    (validateSetup this ;;
     (if (0 <? length (sourceOrgs this))%nat then
        migrateFromOrganizations this (sourceOrgs this)
      else
        throw (Error "No source organizations specified")) ;;
     generateReport this)
    (fun error =>
       console_error ("❌ Migration failed: " ++ message error)%string ;;
       generateReport this ;;
       process_exit 1).

Definition main : Js unit :=
  w <- world ;;
  if is_entry_point w then
    migrator <- constructor (mkOptions (Some (negb (includes (argv w) "--execute")))) ;;
    run migrator
  else ret tt.

End ExportUsers.

(** * Vocabulary of the properties *)

(** ["sourceOrg/name"], the identity under which a repository is recorded. *)
Definition full_name (sourceOrg : string) (repo : Repo) : string :=
  (sourceOrg ++ "/" ++ name repo)%string.

Definition is_transfer (r : Request) : bool :=
  match r with
  | POST_repos_transfer _ _ _ => true
  | _ => false
  end.

(** The transfer requests among the requests issued. *)
Definition transfer_requests (rs : list Request) : list Request :=
  filter is_transfer rs.

(** All entries recorded, bucket after bucket. *)
Definition outcomes (r : Results) : list Entry :=
  successful r ++ failed r ++ skipped r.

(** [st'] differs from [st] by one entry [e] pushed on one bucket. *)
Definition appended_one (e : Entry) (r r' : Results) : Prop :=
  (successful r' = successful r ++ [e] /\ failed r' = failed r
   /\ skipped r' = skipped r)
  \/ (successful r' = successful r /\ failed r' = failed r ++ [e]
      /\ skipped r' = skipped r)
  \/ (successful r' = successful r /\ failed r' = failed r
      /\ skipped r' = skipped r ++ [e]).

(** No repository identity occurs in two buckets. *)
Definition disjoint_names (xs ys : list Entry) : Prop :=
  forall e1 e2, In e1 xs -> In e2 ys -> entry_repo e1 <> entry_repo e2.

Definition buckets_disjoint (r : Results) : Prop :=
  disjoint_names (successful r) (failed r)
  /\ disjoint_names (successful r) (skipped r)
  /\ disjoint_names (failed r) (skipped r).

(** The summary agrees with the buckets it was computed from. *)
Definition summary_counts (r : Results) : Prop :=
  forall s, summary r = Some s ->
    Summary.total s = length (successful r) + length (failed r)
                      + length (skipped r)
    /\ Summary.successful s = length (successful r)
    /\ Summary.failed s = length (failed r)
    /\ Summary.skipped s = length (skipped r).

(** ** Discovery order

    Section 4.4 of the specification has the scheduler visit repositories "in
    discovery order (source organizations in configured order; repositories
    within an organization in API-returned order)".  [discovery] is that
    sequence, written from these words and not from the loops of the scripts:
    the repositories a run visits when no transfer stops it, each with the
    requests that precede its transfer.  An organization whose listing fails
    contributes nothing.  [live] is [!dryRun]: only a live run issues transfer
    requests. *)

Record Attempt := mkAttempt {
  attempt_org : string;
  attempt_repo : Repo;
  attempt_history : list Request
}.

Definition attempt_name (a : Attempt) : string :=
  full_name (attempt_org a) (attempt_repo a).

Definition transfer_request (target sourceOrg : string) (repo : Repo)
  : Request :=
  POST_repos_transfer sourceOrg (name repo) target.

(** The answer of the remote to the transfer of attempt [a]. *)
Definition attempt_response (w : World) (target : string) (a : Attempt)
  : JsError + Z :=
  github w (attempt_history a)
         (POST_repos_transfer (attempt_org a) (name (attempt_repo a)) target).

(** A dry run simulates every attempt; a live one succeeds when the remote
    accepts the transfer. *)
Definition attempt_succeeds (w : World) (live : bool) (target : string)
  (a : Attempt) : bool :=
  if live then
    match attempt_response w target a with
    | inr _ => true
    | inl _ => false
    end
  else true.

(** The requests issued by visiting [repos] of [sourceOrg]. *)
Definition visit_requests (live : bool) (target sourceOrg : string)
  (repos : list Repo) : list Request :=
  if live then map (transfer_request target sourceOrg) repos else [].

Fixpoint visits (live : bool) (target sourceOrg : string)
  (h : list Request) (repos : list Repo) : list Attempt :=
  match repos with
  | [] => []
  | repo :: rest =>
      mkAttempt sourceOrg repo h
      :: visits live target sourceOrg
           (h ++ visit_requests live target sourceOrg [repo]) rest
  end.

(** The repositories listed for [org] after the requests [h]; none when the
    listing fails. *)
Definition listed (w : World) (h : list Request) (org : string) : list Repo :=
  match github w h (GET_orgs_repos org) with
  | inr data => data
  | inl _ => []
  end.

(** The requests issued by walking through [orgs]. *)
Fixpoint discovery_requests (w : World) (live : bool) (target : string)
  (h : list Request) (orgs : list string) : list Request :=
  match orgs with
  | [] => []
  | org :: rest =>
      let rs := GET_orgs_repos org
                :: visit_requests live target org (listed w h org) in
      rs ++ discovery_requests w live target (h ++ rs) rest
  end.

Fixpoint discovery (w : World) (live : bool) (target : string)
  (h : list Request) (orgs : list string) : list Attempt :=
  match orgs with
  | [] => []
  | org :: rest =>
      let repos := listed w h org in
      visits live target org (h ++ [GET_orgs_repos org]) repos
      ++ discovery w live target
           (h ++ GET_orgs_repos org :: visit_requests live target org repos)
           rest
  end.

(** ** Relations between the state before and the state after *)

(** [m] takes every state to one related to it by [R], however it completes. *)
Definition steps (R : State -> State -> Prop) {A} (m : Js A) : Prop :=
  forall w st, R st (snd (m w st)).

(** The requests [rs] were issued and the entries [ok] and [bad] pushed on
    [successful] and [failed]; [skipped] is as it was. *)
Definition extends (st st' : State) (rs : list Request) (ok bad : list Entry)
  : Prop :=
  requests st' = requests st ++ rs
  /\ successful (results st') = successful (results st) ++ ok
  /\ failed (results st') = failed (results st) ++ bad
  /\ skipped (results st') = skipped (results st).

(** Nothing but simulated transfers: no transfer request, no failure, and
    every new entry has [dryRun: true]. *)
Definition dry_step (st st' : State) : Prop :=
  transfer_requests (requests st') = transfer_requests (requests st)
  /\ failed (results st') = failed (results st)
  /\ skipped (results st') = skipped (results st)
  /\ exists new,
       successful (results st') = successful (results st) ++ new
       /\ Forall (fun e => exists repo target timestamp,
                    e = Simulated repo target timestamp) new.

(** A report with nothing skipped. *)
Definition nothing_skipped (r : Results) : Prop :=
  skipped r = []
  /\ forall s, summary r = Some s -> Summary.skipped s = 0.

(** Nothing skipped in [this.results] nor in any persisted report. *)
Definition skip_free (st : State) : Prop :=
  nothing_skipped (results st)
  /\ Forall (fun f => nothing_skipped (snd f)) (files st).

Definition skip_step (st st' : State) : Prop := skip_free st -> skip_free st'.

(** Each bucket holds entries of its kind only. *)
Definition sorted_by_kind (r : Results) : Prop :=
  Forall (fun e => is_success e = true) (successful r)
  /\ Forall (fun e => is_success e = false) (failed r)
  /\ skipped r = [].

Definition kind_step (st st' : State) : Prop :=
  sorted_by_kind (results st) -> sorted_by_kind (results st').

(** One entry for [sourceOrg/repo] was pushed on one bucket, and nothing else
    happened to the buckets. *)
Definition records_one_outcome (sourceOrg : string) (repo : Repo)
  (st st' : State) : Prop :=
  exists e,
    entry_repo e = full_name sourceOrg repo
    /\ appended_one e (results st) (results st')
    /\ length (outcomes (results st')) = S (length (outcomes (results st))).

(** The state in which [run] starts: the constructor has assigned
    [this.results] and read the clock [reads] times. *)
Definition constructed (reads : nat) : State :=
  mkState empty_results [] [] [] reads 0.

(** The effect of one simulated transfer: a [Simulated] entry pushed on
    [successful], the clock read once, and nothing else; in particular no
    request. *)
Definition simulated_transfer (w : World) (target sourceOrg : string)
  (repo : Repo) (st : State) : State :=
  mkState
    (mkResults
       (successful (results st)
        ++ [Simulated (full_name sourceOrg repo)
                      (target ++ "/" ++ name repo)%string
                      (now w (clock_reads st))])
       (failed (results st)) (skipped (results st)) (summary (results st)))
    (requests st) (stderr st) (files st) (S (clock_reads st)) (slept st).

(** ** Validation

    The answers of the remote to the four requests of [validateSetup], which
    starts in state [st]. *)

Definition auth_response (w : World) (st : State) : JsError + string :=
  github w (requests st) GET_user.

Definition org_response (w : World) (st : State) (target : string)
  : JsError + unit :=
  github w (requests st ++ [GET_user]) (GET_orgs target).

Definition login_response (w : World) (st : State) (target : string)
  : JsError + string :=
  github w ((requests st ++ [GET_user]) ++ [GET_orgs target]) GET_user.

Definition membership_response (w : World) (st : State)
  (target login : string) : JsError + string :=
  github w (((requests st ++ [GET_user]) ++ [GET_orgs target]) ++ [GET_user])
         (GET_orgs_memberships target login).

(** [st] after the requests [rs] and the lines [lines] on standard error. *)
Definition after_validation (st : State) (rs : list Request)
  (lines : list (Level * string)) : State :=
  mkState (results st) (requests st ++ rs) (stderr st ++ lines) (files st)
          (clock_reads st) (slept st).

(** The warning of src/unnamed/part_000 about the permission check. *)
Definition permission_warning (msg : string) : Level * string :=
  (level_warn,
   ("⚠️  Could not verify permissions for target org: " ++ msg)%string).

(** The message of the error raised on a role that is neither [admin] nor
    [owner]. *)
Definition insufficient_permissions (role : string) : string :=
  ("Insufficient permissions for target org. Need admin/owner, have: "
   ++ role)%string.

(** The membership step could not confirm an administrative role: the second
    [GET /user] failed, or the membership query failed, each with error [e]. *)
Definition membership_unverified (w : World) (st : State) (target : string)
  (e : JsError) (rs : list Request) : Prop :=
  (login_response w st target = inl e
   /\ rs = [GET_user; GET_orgs target; GET_user])
  \/ (exists login,
        login_response w st target = inr login
        /\ membership_response w st target login = inl e
        /\ rs = [GET_user; GET_orgs target; GET_user;
                 GET_orgs_memberships target login]).

(** ** Worlds used in the examples *)

Definition repo_named (n : string) : Repo := mkRepo n None None.

(** A remote that accepts everything: the credential is an administrator,
    organization ["A"] lists [r1] and [r2] and every other one is empty. *)
Definition friendly_github (h : list Request) (r : Request)
  : JsError + Response r :=
  match r with
  | GET_user => inr "octocat"
  | GET_orgs _ => inr tt
  | GET_orgs_memberships _ _ => inr "admin"
  | GET_orgs_repos org =>
      inr (if String.eqb org "A" then [repo_named "r1"; repo_named "r2"]
           else [])
  | POST_repos_transfer _ _ _ => inr 202%Z
  end.

(** A file system that accepts every write. *)
Definition always_writable (earlier : list (string * Results))
  (path : string) : option JsError := None.

Definition no_file (path : string) : FileContent :=
  Unreadable "ENOENT: no such file or directory".

Definition fixed_clock (n : nat) : string := "2025-01-24T10:30:00.000Z".

(** The end-to-end scenario of the specification: target ["T"], source
    ["A"], which lists [r1] and [r2]; no command-line switch, so a dry run. *)
Definition scenario_dry : World :=
  mkWorld friendly_github fixed_clock no_file (Some "T") (Some "A")
          ["node"; "migrate-repos.js"]
          "file://migrate-repos.js" always_writable.

(** The membership step of [validateSetup] when authentication and the
    lookup of the target organization succeeded, as a decision table:
    [warnings] gives the lines printed for an error message. *)
Definition membership_step (warnings : string -> list (Level * string))
  (w : World) (st : State) (target : string) : Completion unit * State :=
  match login_response w st target with
  | inl e =>
      (Normal tt,
       after_validation st [GET_user; GET_orgs target; GET_user]
                        (warnings (message e)))
  | inr login =>
      let rs := [GET_user; GET_orgs target; GET_user;
                 GET_orgs_memberships target login] in
      match membership_response w st target login with
      | inl e => (Normal tt, after_validation st rs (warnings (message e)))
      | inr role =>
          if includes ["admin"; "owner"] role then
            (Normal tt, after_validation st rs [])
          else
            (Normal tt,
             after_validation st rs (warnings (insufficient_permissions role)))
      end
  end.

(** [validateSetup] as a decision table over the four answers. *)
Definition validation_table (warnings : string -> list (Level * string))
  (w : World) (st : State) (target : string) : Completion unit * State :=
  match auth_response w st with
  | inl e =>
      (Throw (Error ("Authentication failed: " ++ message e)%string),
       after_validation st [GET_user] [])
  | inr _ =>
      match org_response w st target with
      | inl _ =>
          (Throw (Error ("Target organization '" ++ target
                         ++ "' not found or no access")%string),
           after_validation st [GET_user; GET_orgs target] [])
      | inr _ => membership_step warnings w st target
      end
  end.

(** The friendly remote, except that the membership query answers [m]. *)
Definition github_with_membership (m : JsError + string)
  (h : list Request) (r : Request) : JsError + Response r :=
  match r as r' return JsError + Response r' with
  | GET_orgs_memberships _ _ => m
  | GET_user => friendly_github h GET_user
  | GET_orgs org => friendly_github h (GET_orgs org)
  | GET_orgs_repos org => friendly_github h (GET_orgs_repos org)
  | POST_repos_transfer owner repo new_owner =>
      friendly_github h (POST_repos_transfer owner repo new_owner)
  end.

Definition world_with_membership (m : JsError + string) : World :=
  mkWorld (github_with_membership m) fixed_clock no_file (Some "T") (Some "A")
          ["node"; "migrate-repos.js"]
          "file://migrate-repos.js" always_writable.

(** The token may not read memberships. *)
Definition forbidden : JsError :=
  mkError "Resource not accessible by personal access token" (Some 403%Z).

Definition part000_migrator : Part000.RepositoryMigrator :=
  Part000.mk "T" ["A"] true "migration-log-2025-01-24.json".

Definition export_users_migrator : ExportUsers.RepositoryMigrator :=
  ExportUsers.mk "T" ["A"] true "migration-log-2025-01-24.json" true.

(** [m] never terminates the process. *)
Definition never_exits {A} (m : Js A) : Prop :=
  forall w st code, fst (m w st) <> Exit code.

(** [skipped] is as it was. *)
Definition keeps_skipped (st st' : State) : Prop :=
  skipped (results st') = skipped (results st).

(** The last call of [writeFileSync] was for [path], with the report [r]. *)
Definition persisted_last (path : string) (r : Results) (st : State) : Prop :=
  exists earlier, files st = earlier ++ [(path, r)].

(** A run that ended with [c] in state [st'] called [writeFileSync] last for
    [path], with its final [this.results]; when the file system refused that
    call the run ended with the error it threw, and otherwise normally or
    with [process.exit(1)]. *)
Definition ends_with_report (w : World) (path : string)
  (c : Completion unit) (st' : State) : Prop :=
  exists earlier,
    files st' = earlier ++ [(path, results st')]
    /\ match write_error w earlier path with
       | Some e => c = Throw e
       | None => c = Normal tt \/ c = Exit 1
       end.

(** A remote that rejects the credential. *)
Definition bad_credentials : JsError := mkError "Bad credentials" (Some 401%Z).

Definition github_unauthenticated (h : list Request) (r : Request)
  : JsError + Response r :=
  inl bad_credentials.

Definition world_unauthenticated : World :=
  mkWorld github_unauthenticated fixed_clock no_file (Some "T") (Some "A")
          ["node"; "migrate-repos.js"; "--execute"]
          "file://migrate-repos.js" always_writable.

(** Every pair of counts below [bound], as a list. *)
Definition count_pairs (bound : nat) : list (nat * nat) :=
  list_prod (seq 0 bound) (seq 0 bound).

(** [0 <= x <= 100] on doubles; false on NaN. *)
Definition is_percentage (x : float) : bool :=
  (PrimFloat.leb 0 x && PrimFloat.leb x 100)%bool.

(** Both [url] and [sshUrl] of a file entry are strings and neither regular
    expression matches: no owner can be extracted. *)
Definition no_owner (repo : Repo) : Prop :=
  exists u s,
    url repo = Some u /\ sshUrl repo = Some s
    /\ owner_match "github.com/" u = None
    /\ owner_match "github.com:" s = None.

(** The warning printed for a file entry without owner. *)
Definition could_not_determine (repo : Repo) : Level * string :=
  (level_warn,
   ("⚠️  Could not determine organization for " ++ name repo)%string).

(** [st] with more lines on standard error and nothing else changed. *)
Definition with_lines (st : State) (lines : list (Level * string)) : State :=
  mkState (results st) (requests st) (stderr st ++ lines) (files st)
          (clock_reads st) (slept st).

(** A repository hosted elsewhere, as an entry of [test-repos.json]. *)
Definition foreign_repo : Repo :=
  mkRepo "tool" (Some "https://gitlab.com/acme/tool")
         (Some "git@gitlab.com:acme/tool.git").

Definition world_with_file (repos : list Repo) : World :=
  mkWorld friendly_github fixed_clock (fun _ => RepoArray repos) (Some "T")
          (Some "A") ["node"; "migrate-repos.js"]
          "file://migrate-repos.js" always_writable.

(** ** Visits recorded in the state *)

(** Between [st] and [st'] the attempts [ds] were made, in this order: the
    requests [rs] were issued, the attempts that succeed were recorded on
    [successful] and the others on [failed], each under its name. *)
Definition visited (w : World) (live : bool) (target : string)
  (st st' : State) (rs : list Request) (ds : list Attempt) : Prop :=
  exists ok bad,
    extends st st' rs ok bad
    /\ map entry_repo ok
       = map attempt_name (filter (attempt_succeeds w live target) ds)
    /\ map entry_repo bad
       = map attempt_name
           (filter (fun a => negb (attempt_succeeds w live target a)) ds)
    /\ Forall (fun e => is_success e = true) ok
    /\ Forall (fun e => is_success e = false) bad.

(** Between [st] and [st'] the attempts [pre] were recorded on [successful],
    then attempt [a] on [failed], and its transfer was the last request. *)
Definition stopped_at (target : string) (st st' : State)
  (pre : list Attempt) (a : Attempt) : Prop :=
  exists ok bad,
    successful (results st') = successful (results st) ++ ok
    /\ failed (results st') = failed (results st) ++ [bad]
    /\ skipped (results st') = skipped (results st)
    /\ map entry_repo ok = map attempt_name pre
    /\ entry_repo bad = attempt_name a
    /\ Forall (fun e => is_success e = true) ok
    /\ is_success bad = false
    /\ requests st'
       = attempt_history a
         ++ [transfer_request target (attempt_org a) (attempt_repo a)].

(** The bodies of the inner loops of [migrateFromOrganizations]. *)
Definition Part000_visit (this : Part000.RepositoryMigrator)
  (sourceOrg : string) (repo : Repo) : Js unit :=
  _ <- Part000.transferRepository this repo sourceOrg ;;
  setTimeout 1000.

Definition MigrateRepos_visit (this : MigrateRepos.RepositoryMigrator)
  (sourceOrg : string) (repo : Repo) : Js unit :=
  result <- MigrateRepos.transferRepository this repo sourceOrg ;;
  if negb (success result) && negb (MigrateRepos.dryRun this) then
    throw (Error "Migration stopped due to failure")
  else
    setTimeout 1000.

(** The line printed by [listRepositories] when the listing fails. *)
Definition listing_error (org : string) (e : JsError) : Level * string :=
  (level_error,
   ("❌ Error listing repositories for " ++ org ++ ": " ++ message e)%string).

(** Entry [e] was pushed on [successful] or on [failed] between [st] and
    [st']. *)
Definition recorded_between (st st' : State) (e : Entry) : Prop :=
  exists ok bad,
    successful (results st') = successful (results st) ++ ok
    /\ failed (results st') = failed (results st) ++ bad
    /\ In e (ok ++ bad).

Definition server_error : JsError := mkError "Server Error" (Some 500%Z).

(** The listing of ["A"] fails; ["B"] lists three repositories. *)
Definition github_listing_degraded (h : list Request) (r : Request)
  : JsError + Response r :=
  match r as r' return JsError + Response r' with
  | GET_orgs_repos org =>
      if String.eqb org "A" then inl server_error
      else inr [repo_named "r1"; repo_named "r2"; repo_named "r3"]
  | GET_user => friendly_github h GET_user
  | GET_orgs org => friendly_github h (GET_orgs org)
  | GET_orgs_memberships org username =>
      friendly_github h (GET_orgs_memberships org username)
  | POST_repos_transfer owner repo new_owner =>
      friendly_github h (POST_repos_transfer owner repo new_owner)
  end.

Definition world_listing_degraded : World :=
  mkWorld github_listing_degraded fixed_clock no_file (Some "T") (Some "A,B")
          ["node"; "migrate-repos.js"; "--execute"]
          "file://migrate-repos.js" always_writable.

Definition validation_failed : JsError :=
  mkError "Validation Failed" (Some 422%Z).

(** The friendly remote, except that the transfer of [r2] is refused. *)
Definition github_r2_refused (h : list Request) (r : Request)
  : JsError + Response r :=
  match r as r' return JsError + Response r' with
  | POST_repos_transfer owner repo new_owner =>
      if String.eqb repo "r2" then inl validation_failed else inr 202%Z
  | GET_user => friendly_github h GET_user
  | GET_orgs org => friendly_github h (GET_orgs org)
  | GET_orgs_memberships org username =>
      friendly_github h (GET_orgs_memberships org username)
  | GET_orgs_repos org => friendly_github h (GET_orgs_repos org)
  end.

(** The live end-to-end scenario of the specification: ["A"] lists [r1] and
    [r2], and the transfer of [r2] is refused.  A second organization ["B"]
    follows, to be left unvisited. *)
Definition scenario_live : World :=
  mkWorld github_r2_refused fixed_clock no_file (Some "T") (Some "A,B")
          ["node"; "migrate-repos.js"; "--execute"]
          "file://migrate-repos.js" always_writable.

Definition migrate_repos_migrator : MigrateRepos.RepositoryMigrator :=
  MigrateRepos.mk "T" ["A"; "B"] false true.

(** No summary has been computed, and the reports written so far have
    summaries that agree with their buckets. *)
Definition unsummarized (st : State) : Prop :=
  summary (results st) = None
  /\ Forall (fun f => summary_counts (snd f)) (files st).

Definition unsummarized_step (st st' : State) : Prop :=
  unsummarized st -> unsummarized st'.

(** A remote that accepts the first transfer it is asked for and refuses
    every later one; organization ["A"] lists [r1] each time. *)
Definition github_accepts_once (h : list Request) (r : Request)
  : JsError + Response r :=
  match r as r' return JsError + Response r' with
  | POST_repos_transfer owner repo new_owner =>
      if existsb is_transfer h then inl validation_failed else inr 202%Z
  | GET_orgs_repos org =>
      inr (if String.eqb org "A" then [repo_named "r1"] else [])
  | GET_user => friendly_github h GET_user
  | GET_orgs org => friendly_github h (GET_orgs org)
  | GET_orgs_memberships org username =>
      friendly_github h (GET_orgs_memberships org username)
  end.

(** Organization ["A"] is named twice in [SOURCE_ORGS]. *)
Definition world_org_twice : World :=
  mkWorld github_accepts_once fixed_clock no_file (Some "T") (Some "A,A")
          ["node"; "migrate-repos.js"; "--execute"]
          "file://migrate-repos.js" always_writable.

(** [test-repos.json] has the same repository twice. *)
Definition listed_twice : list Repo :=
  let r1 := mkRepo "r1" (Some "https://github.com/A/r1")
                   (Some "git@github.com:A/r1.git") in
  [r1; r1].

Definition world_file_twice : World :=
  mkWorld github_accepts_once fixed_clock (fun _ => RepoArray listed_twice)
          (Some "T") None ["node"; "migrate-repos.js"; "--execute"]
          "file://migrate-repos.js" always_writable.

(** What [run] of src/unnamed/part_000 does inside [try] before it calls
    [generateReport]. *)
Definition Part000_migration (this : Part000.RepositoryMigrator) : Js unit :=
  Part000.validateSetup this ;;
  found <- Part000.existsSync "test-repos.json" ;;
  if found then Part000.migrateFromFile this "test-repos.json"
  else if (0 <? length (Part000.sourceOrgs this))%nat then
    Part000.migrateFromOrganizations this (Part000.sourceOrgs this)
  else
    throw (Error "No source organizations specified and no repos file found").

(** ** The attempts of a run of src/unnamed/part_000 *)

(** What [orgMatch] finds for an entry of [test-repos.json]. *)
Inductive Owner :=
| Owned (owner : string)   (* one of the two expressions matches *)
| Unowned                  (* both fields are strings and neither matches *)
| Broken.                  (* [.match] is called on a missing field *)

Definition file_owner (repo : Repo) : Owner :=
  match url repo with
  | None => Broken
  | Some u =>
      match owner_match "github.com/" u with
      | Some owner => Owned owner
      | None =>
          match sshUrl repo with
          | None => Broken
          | Some s =>
              match owner_match "github.com:" s with
              | Some owner => Owned owner
              | None => Unowned
              end
          end
      end
  end.

(** The attempts made on the entries [repos] of the file, asked after [h]:
    an entry with an owner is attempted under that owner, one without is
    passed over, and an entry with a missing field ends the import. *)
Fixpoint file_attempts (live : bool) (target : string) (h : list Request)
  (repos : list Repo) : list Attempt :=
  match repos with
  | [] => []
  | repo :: rest =>
      match file_owner repo with
      | Owned owner =>
          mkAttempt owner repo h
          :: file_attempts live target
               (h ++ visit_requests live target owner [repo]) rest
      | Unowned => file_attempts live target h rest
      | Broken => []
      end
  end.

(** The requests issued on the way. *)
Fixpoint file_requests (live : bool) (target : string) (repos : list Repo)
  : list Request :=
  match repos with
  | [] => []
  | repo :: rest =>
      match file_owner repo with
      | Owned owner =>
          visit_requests live target owner [repo]
          ++ file_requests live target rest
      | Unowned => file_requests live target rest
      | Broken => []
      end
  end.

(** The attempts of [run] started in [st]: none when [validateSetup] fails;
    those of [test-repos.json] when the file can be read, none if it does
    not parse; otherwise those of the source organizations, in discovery
    order. *)
Definition Part000_attempts (this : Part000.RepositoryMigrator) (w : World)
  (st : State) : list Attempt :=
  let live := negb (Part000.dryRun this) in
  let target := Part000.targetOrg this in
  match Part000.validateSetup this w st with
  | (Normal _, st1) =>
      match disk w "test-repos.json" with
      | RepoArray repos => file_attempts live target (requests st1) repos
      | Unparsable _ => []
      | Unreadable _ =>
          discovery w live target (requests st1) (Part000.sourceOrgs this)
      end
  | _ => []
  end.

(** The object that the program of src/unnamed/part_000 constructs for the
    target [target]. *)
Definition Part000_constructed (w : World) (target : string)
  : Part000.RepositoryMigrator :=
  Part000.mk target (parse_source_orgs (SOURCE_ORGS w))
             (negb (includes (argv w) "--execute"))
             (log_file_name (now w 0)).

(** The attempts of the program. *)
Definition Part000_main_attempts (w : World) : list Attempt :=
  if is_entry_point w then
    match TARGET_ORG w with
    | None | Some EmptyString => []
    | Some target =>
        Part000_attempts (Part000_constructed w target) w (constructed 1)
    end
  else [].

(** The live scenario, as an object of src/unnamed/part_000. *)
Definition part000_live_migrator : Part000.RepositoryMigrator :=
  Part000.mk "T" ["A"; "B"] false "migration-log-2025-01-24.json".

(** * Further vocabulary *)

(** [s.includes(c)] for a character. *)
Fixpoint contains (c : ascii) (s : string) : bool :=
  match s with
  | EmptyString => false
  | String x rest => Ascii.eqb x c || contains c rest
  end.

(** The number of occurrences of [c] in [s]. *)
Fixpoint occurrences (c : ascii) (s : string) : nat :=
  match s with
  | EmptyString => 0
  | String x rest =>
      (if Ascii.eqb x c then 1 else 0) + occurrences c rest
  end.

(** [pieces.join(sep)] for a one-character separator. *)
Definition join (sep : ascii) (pieces : list string) : string :=
  String.concat (String sep EmptyString) pieces.

(** [s] has [literal], then the non-empty slash-free [owner], then a slash:
    a match of [literal([^\/]+)\/] with [owner] as its group. *)
Definition frames_owner (literal owner s : string) : Prop :=
  owner <> EmptyString
  /\ contains "/" owner = false
  /\ exists before after,
       s = (before ++ literal ++ owner ++ "/" ++ after)%string.

(** The two URL fields that [gh repo list --json url,sshUrl] writes for
    repository [repo] of [org]. *)
Definition https_url (org repo : string) : string :=
  ("https://github.com/" ++ org ++ "/" ++ repo)%string.

Definition ssh_url (org repo : string) : string :=
  ("git@github.com:" ++ org ++ "/" ++ repo ++ ".git")%string.

(** The body of the inner loop of [migrateFromOrganizations] in
    src/export-users.js. *)
Definition ExportUsers_visit (this : ExportUsers.RepositoryMigrator)
  (sourceOrg : string) (repo : Repo) : Js unit :=
  result <- ExportUsers.transferRepository this repo sourceOrg ;;
  if negb (success result) && negb (ExportUsers.dryRun this) then
    throw (Error "Migration stopped due to failure")
  else
    setTimeout 1000.

(** What a listing method does: one request, one line when it fails. *)
Definition listing_outcome (w : World) (st : State) (org : string)
  : Completion (list Repo) * State :=
  match github w (requests st) (GET_orgs_repos org) with
  | inr data => (Normal data, after_validation st [GET_orgs_repos org] [])
  | inl e =>
      (Normal [],
       after_validation st [GET_orgs_repos org] [listing_error org e])
  end.

(** A run that ended with [c] in state [st'] went through the handler of
    [run] in src/export-users.js: it called [writeFileSync] last for [path],
    with its final [this.results], and ended with [process.exit(1)], or,
    when the file system refused that call, with the error it threw. *)
Definition exits_with_report (w : World) (path : string)
  (c : Completion unit) (st' : State) : Prop :=
  exists earlier,
    files st' = earlier ++ [(path, results st')]
    /\ c = match write_error w earlier path with
           | Some e => Throw e
           | None => Exit 1
           end.

(** One visit of the scheduler, as the scripts with stop-on-failure make it:
    an attempt that succeeds is recorded and the loop goes on; one that fails
    is recorded and an error is thrown. *)
Definition visit_outcome (w : World) (live : bool) (target : string)
  (visit : Js unit) (sourceOrg : string) (repo : Repo) (st : State) : Prop :=
  let a := mkAttempt sourceOrg repo (requests st) in
  if attempt_succeeds w live target a then
    exists st',
      visit w st = (Normal tt, st')
      /\ visited w live target st st'
           (visit_requests live target sourceOrg [repo]) [a]
  else
    exists err st',
      visit w st = (Throw err, st') /\ stopped_at target st st' [] a.

Definition migrate_repos_dry : MigrateRepos.RepositoryMigrator :=
  MigrateRepos.mk "T" ["A"] true true.

(** A live object of src/export-users.js for the sources ["A"] and ["B"]. *)
Definition export_users_live : ExportUsers.RepositoryMigrator :=
  ExportUsers.mk "T" ["A"; "B"] false "migration-log-2025-01-24.json" true.

(** The state [validateSetup] leaves when all four of its requests succeed
    for the credential ["octocat"] and the target ["T"]. *)
Definition validated : State :=
  after_validation (constructed 1)
    [GET_user; GET_orgs "T"; GET_user; GET_orgs_memberships "T" "octocat"] [].

(** A request that, if it is a transfer, names [target] as the new owner. *)
Definition aimed (target : string) (r : Request) : Prop :=
  match r with
  | POST_repos_transfer _ _ new_owner => new_owner = target
  | _ => True
  end.

(** An entry whose [target], if it has one, is a repository of [target]. *)
Definition destined (target : string) (e : Entry) : Prop :=
  forall t, entry_target e = Some t ->
            exists repo, t = (target ++ "/" ++ repo)%string.

(** Every transfer requested and every target recorded is in [target]. *)
Definition targets_only (target : string) (st : State) : Prop :=
  Forall (aimed target) (requests st)
  /\ Forall (destined target) (outcomes (results st)).

Definition aim_step (target : string) (st st' : State) : Prop :=
  targets_only target st -> targets_only target st'.

(** The time slept grew by one second for each entry that [count] counts. *)
Definition pause_step (count : Results -> nat) (st st' : State) : Prop :=
  slept st' + 1000 * count (results st)
  = slept st + 1000 * count (results st').


(** ** Importing from a file *)

(** The body of the loop of [migrateFromFile]. *)
Definition Part000_import (this : Part000.RepositoryMigrator) (repo : Repo)
  : Js unit :=
  m <- Part000.orgMatch repo ;;
  match m with
  | None =>
      console_warn ("⚠️  Could not determine organization for "
                    ++ name repo)%string
  | Some sourceOrg =>
      _ <- Part000.transferRepository this repo sourceOrg ;;
      setTimeout 1000
  end.

(** An entry on which the loop body can decide: [url] is a string, and
    [sshUrl] is one too when [url] does not match. *)
Definition decidable_entry (repo : Repo) : Prop :=
  exists u,
    url repo = Some u
    /\ (owner_match "github.com/" u <> None \/ sshUrl repo <> None).

(** An entry on which [.match] is called on a missing field. *)
Definition broken_entry (repo : Repo) : Prop :=
  url repo = None
  \/ exists u,
       url repo = Some u /\ owner_match "github.com/" u = None
       /\ sshUrl repo = None.

(** The line printed by [migrateFromFile] for an entry with a missing
    field. *)
Definition import_aborted (path : string) : Level * string :=
  (level_error,
   ("❌ Error reading file " ++ path
    ++ ": Cannot read properties of undefined (reading 'match')")%string).

(** A file with a good entry, an entry without [url], and a good entry. *)
Definition file_with_gap : list Repo :=
  [mkRepo "r1" (Some (https_url "A" "r1")) (Some (ssh_url "A" "r1"));
   mkRepo "r2" None (Some (ssh_url "A" "r2"));
   mkRepo "r3" (Some (https_url "A" "r3")) (Some (ssh_url "A" "r3"))].

Definition part000_live : Part000.RepositoryMigrator :=
  Part000.mk "T" [] false "migration-log-2025-01-24.json".

Definition is_listing (r : Request) : bool :=
  match r with
  | GET_orgs_repos _ => true
  | _ => false
  end.

(** No organization was listed between [st] and [st']. *)
Definition keeps_listings (st st' : State) : Prop :=
  filter is_listing (requests st') = filter is_listing (requests st).

(** [readFileSync('test-repos.json')] does not throw. *)
Definition file_found (w : World) : Prop :=
  forall msg, disk w "test-repos.json" <> Unreadable msg.

(** A migrator of src/unnamed/part_000 that has source organizations. *)
Definition part000_with_sources : Part000.RepositoryMigrator :=
  Part000.mk "T" ["A"] true "migration-log-2025-01-24.json".

(** How a program starts.  When the file is not the entry point of the
    process nothing is done.  When it is and [TARGET_ORG] is missing or
    empty, the constructor throws before anything is done and the error is
    not caught.  Otherwise the program ends as [ends] says. *)
Definition starts_as_configured (main : Js unit) (w : World)
  (ends : Completion unit -> State -> Prop) : Prop :=
  if is_entry_point w then
    match TARGET_ORG w with
    | None | Some EmptyString =>
        main w boot = (Throw (Error TARGET_ORG_required), boot)
    | Some _ => ends (fst (main w boot)) (snd (main w boot))
    end
  else main w boot = (Normal tt, boot).

(** Ending normally or with [process.exit(1)]: no error escapes. *)
Definition ends_cleanly (c : Completion unit) (st' : State) : Prop :=
  c = Normal tt \/ c = Exit 1.

(** One of the two fatal checks of [validateSetup] fails. *)
Definition validation_fails (w : World) (st : State) (target : string)
  : Prop :=
  (exists e, auth_response w st = inl e)
  \/ (exists e, org_response w st target = inl e).

(** Between [st] and [st'] the run was stopped by [validateSetup]: the only
    requests are those of the checks, and the buckets are as they were. *)
Definition stopped_by_validation (target : string) (st st' : State) : Prop :=
  (requests st' = requests st ++ [GET_user]
   \/ requests st' = requests st ++ [GET_user; GET_orgs target])
  /\ successful (results st') = successful (results st)
  /\ failed (results st') = failed (results st)
  /\ skipped (results st') = skipped (results st)
  /\ slept st' = slept st.

(** Between [st] and [st'] nothing was written to disk and no summary was
    assigned. *)
Definition unreported (st st' : State) : Prop :=
  files st' = files st
  /\ summary (results st') = summary (results st).

(** * src/export-users.js, the export of organization members

    The first document of the file is a script without functions: it asks the
    remote for the members of every source organization and writes them to
    [users.json]. *)

(** ** [String.prototype.trim]

    A string stands for its UTF-8 encoding.  [trim] removes from both ends
    the code points that ECMAScript calls WhiteSpace or LineTerminator; they
    are listed here by their encodings. *)

Definition utf8 (bytes : list nat) : string :=
  string_of_list_ascii (map ascii_of_nat bytes).

Definition white_space : list string :=
  map utf8
      [[9]; [10]; [11]; [12]; [13]; [32];  (* TAB LF VT FF CR SP *)
       [194; 160];                         (* U+00A0 *)
       [225; 154; 128];                    (* U+1680 *)
       [226; 128; 128]; [226; 128; 129]; [226; 128; 130]; [226; 128; 131];
       [226; 128; 132]; [226; 128; 133]; [226; 128; 134]; [226; 128; 135];
       [226; 128; 136]; [226; 128; 137]; [226; 128; 138];
                                           (* U+2000 .. U+200A *)
       [226; 128; 168]; [226; 128; 169];   (* U+2028 U+2029 *)
       [226; 128; 175];                    (* U+202F *)
       [226; 129; 159];                    (* U+205F *)
       [227; 128; 128];                    (* U+3000 *)
       [239; 187; 191]].                   (* U+FEFF *)

Definition reverse (s : string) : string :=
  string_of_list_ascii (rev (list_ascii_of_string s)).

(** [s] without the first of [marks] that is a prefix of it. *)
Fixpoint drop_any (marks : list string) (s : string) : option string :=
  match marks with
  | [] => None
  | mark :: rest =>
      match drop_prefix mark s with
      | Some t => Some t
      | None => drop_any rest s
      end
  end.

(** [s] without its leading [marks], at most [fuel] of them. *)
Fixpoint drop_while (marks : list string) (fuel : nat) (s : string)
  : string :=
  match fuel with
  | 0 => s
  | S n =>
      match drop_any marks s with
      | Some t => drop_while marks n t
      | None => s
      end
  end.

(** [s.trimStart()]: a string holds no more marks than bytes. *)
Definition trimStart (s : string) : string :=
  drop_while white_space (String.length s) s.

(** [s.trimEnd()] *)
Definition trimEnd (s : string) : string :=
  reverse (drop_while (map reverse white_space) (String.length s)
                      (reverse s)).

(** [s.trim()] *)
Definition trim (s : string) : string := trimEnd (trimStart s).

(** [s] neither starts nor ends with white space. *)
Definition trimmed (s : string) : Prop :=
  drop_any white_space s = None
  /\ drop_any (map reverse white_space) (reverse s) = None.

(** ** The script *)

Module UserExport.

(** An element of [response.data]; [email] and [name] are [None] when the
    remote does not send them. *)
Module Member.
Record t := mk {
  email : option string;
  name : option string;
  login : string;
  id : Z
}.
End Member.

(** An element of [allUsers]. *)
Record User := mkUser {
  email : option string;
  name : option string;
  login : string;
  id : Z;
  organization : string
}.

(** The answer to ['GET /orgs/{org}/members'], which the remote gives
    knowing the organizations asked before. *)
Definition Remote := list string -> string -> JsError + list Member.t.

Record Script := mkScript {
  allUsers : list User;
  asked : list string;                  (* organizations asked, oldest first *)
  files : list (string * list User)     (* writeFileSync calls, oldest first *)
}.

(** [user => ({email: user.email, ..., organization: org.trim()})] *)
Definition export_member (org : string) (user : Member.t) : User :=
  mkUser (Member.email user) (Member.name user) (Member.login user)
         (Member.id user) (trim org).

(** The body of the loop. *)
Definition visit (remote : Remote) (st : Script) (org : string) : Script :=
  match remote (asked st) (trim org) with
  | inr data =>
      mkScript (allUsers st ++ map (export_member org) data)
               (asked st ++ [trim org]) (files st)
  | inl _ =>
      (* Silent continue on error *)
      mkScript (allUsers st) (asked st ++ [trim org]) (files st)
  end.

Definition main (w : World) (remote : Remote) : Script :=
  let sourceOrgs := parse_source_orgs (SOURCE_ORGS w) in
  let st := fold_left (visit remote) sourceOrgs (mkScript [] [] []) in
  mkScript (allUsers st) (asked st)
           (files st ++ [("users.json", allUsers st)]).

(** The users that [orgs] contribute when they are asked after [h]: the
    members of each organization whose query succeeds, in order. *)
Fixpoint members_of (remote : Remote) (h : list string) (orgs : list string)
  : list User :=
  match orgs with
  | [] => []
  | org :: rest =>
      match remote h (trim org) with
      | inr data => map (export_member org) data
      | inl _ => []
      end ++ members_of remote (h ++ [trim org]) rest
  end.

(** [u] is member [m] of the answer to the query for [org], which was made
    after those for [before]. *)
Definition exported_from (remote : Remote) (orgs : list string) (u : User)
  : Prop :=
  exists before org after data m,
    orgs = before ++ org :: after
    /\ remote (map trim before) (trim org) = inr data
    /\ In m data
    /\ u = export_member org m.

(** A remote with one member in organization ["A"] and two in ["B"], which
    does not know any other organization. *)
Definition two_organizations : Remote :=
  fun _ org =>
    if String.eqb org "A" then
      inr [Member.mk None None "ada" 1]
    else if String.eqb org "B" then
      inr [Member.mk None None "bob" 2; Member.mk None None "bea" 3]
    else inl (mkError "Not Found" (Some 404%Z)).

End UserExport.

(** [SOURCE_ORGS="A, X ,B"], written with blanks after the commas. *)
Definition world_with_blanks : World :=
  mkWorld friendly_github fixed_clock no_file (Some "T") (Some "A, X ,B")
          ["node"; "export-users.js"] "file://export-users.js"
          always_writable.

Definition export_users_dry : ExportUsers.RepositoryMigrator :=
  ExportUsers.mk "T" ["A"; " X "; "B"] true "migration-log-2025-01-24.json"
                 true.

(** ** Worlds in which the report cannot be written, or nothing is run *)

(** The error of [writeFileSync] on a path that is a directory. *)
Definition EISDIR : JsError :=
  mkError "EISDIR: illegal operation on a directory, open 'migration-log-2025-01-24.json'"
          None.

Definition refuses_writes (earlier : list (string * Results))
  (path : string) : option JsError := Some EISDIR.

(** The dry scenario on a file system that refuses the report. *)
Definition world_unwritable : World :=
  mkWorld friendly_github fixed_clock no_file (Some "T") (Some "A")
          ["node"; "migrate-repos.js"]
          "file://migrate-repos.js" refuses_writes.

(** The dry scenario when the file is imported by another module: it is not
    the entry point of the process. *)
Definition world_imported : World :=
  mkWorld friendly_github fixed_clock no_file (Some "T") (Some "A")
          ["node"; "tool.js"]
          "file://migrate-repos.js" always_writable.

(** * The string functions on examples *)

Example split_SOURCE_ORGS :
  parse_source_orgs (Some "senacor,org2,org3") = ["senacor"; "org2"; "org3"]
  /\ parse_source_orgs (Some "") = [""]
  /\ parse_source_orgs None = [].
Proof. repeat split. Qed.

Example owner_of_urls :
  owner_match "github.com/" "https://github.com/senacor/elasticsearch-evolution"
  = Some "senacor"
  /\ owner_match "github.com:" "git@github.com:senacor/elasticsearch-evolution.git"
     = Some "senacor"
  /\ owner_match "github.com/" "https://github.com//elasticsearch-evolution/"
     = None
  /\ owner_match "github.com/" "https://github.com/senacor" = None.
Proof. repeat split. Qed.

Example log_file_of_today :
  log_file_name "2025-01-24T10:30:00.000Z" = "migration-log-2025-01-24.json".
Proof. reflexivity. Qed.

(** * Reasoning about the monad *)

Section StepsOfCombinators.

Variable R : State -> State -> Prop.
Context {R_preorder : PreOrder R}.

Lemma steps_ret A (a : A) : steps R (ret a).
Proof. intros w st. simpl. reflexivity. Qed.

Lemma steps_throw A (e : JsError) : steps R (@throw A e).
Proof. intros w st. simpl. reflexivity. Qed.

Lemma steps_process_exit A (code : Z) : steps R (@process_exit A code).
Proof. intros w st. simpl. reflexivity. Qed.

Lemma steps_world : steps R world.
Proof. intros w st. simpl. reflexivity. Qed.

Lemma steps_bind A B (m : Js A) (k : A -> Js B) :
  steps R m -> (forall a, steps R (k a)) -> steps R (bind m k).
Proof.
  intros Hm Hk w st. unfold bind.
  specialize (Hm w st).
  destruct (m w st) as [[a | e | c] st1]; simpl in *; auto.
  etransitivity; [exact Hm | apply Hk].
Qed.

Lemma steps_try_catch A (body : Js A) (handler : JsError -> Js A) :
  steps R body -> (forall e, steps R (handler e)) ->
  steps R (try_catch body handler).
Proof.
  intros Hb Hh w st. unfold try_catch.
  specialize (Hb w st).
  destruct (body w st) as [[a | e | c] st1]; simpl in *; auto.
  etransitivity; [exact Hb | apply Hh].
Qed.

Lemma steps_for_of A (xs : list A) (body : A -> Js unit) :
  (forall x, steps R (body x)) -> steps R (for_of xs body).
Proof.
  intros Hb. induction xs as [| x xs IH]; simpl.
  - apply steps_ret.
  - apply steps_bind; auto.
Qed.

Lemma steps_String_match subject literal :
  steps R (String_match subject literal).
Proof.
  destruct subject; simpl; [apply steps_ret | apply steps_throw].
Qed.

End StepsOfCombinators.

(** Breaks a goal [steps R m] down to the primitive operations of [m]. *)
Ltac steps_structure :=
  repeat first
    [ apply steps_ret | apply steps_throw | apply steps_process_exit
    | apply steps_world | apply steps_String_match
    | apply steps_bind | apply steps_try_catch | apply steps_for_of
    | match goal with |- forall _, _ => intro end
    | match goal with
      | |- steps _ (if ?b then _ else _) => destruct b
      | |- steps _ (match ?x with _ => _ end) => destruct x
      end ].

(** ** The relations are preorders *)

#[local] Instance dry_step_preorder : PreOrder dry_step.
Proof.
  split.
  - intros st. unfold dry_step. repeat split; auto.
    exists []. rewrite app_nil_r. auto.
  - intros a b c (T1 & F1 & K1 & n1 & S1 & A1) (T2 & F2 & K2 & n2 & S2 & A2).
    unfold dry_step. repeat split; try congruence.
    exists (n1 ++ n2). split.
    + rewrite S2, S1, app_assoc. reflexivity.
    + apply Forall_app. auto.
Qed.

#[local] Instance skip_step_preorder : PreOrder skip_step.
Proof. split; unfold skip_step; [intros st | intros a b c]; auto. Qed.

#[local] Instance kind_step_preorder : PreOrder kind_step.
Proof. split; unfold kind_step; [intros st | intros a b c]; auto. Qed.

(** ** Primitive operations *)

Lemma dry_step_same_results st st' :
  results st' = results st ->
  transfer_requests (requests st') = transfer_requests (requests st) ->
  dry_step st st'.
Proof.
  intros Hr Ht. unfold dry_step. rewrite Hr. repeat split; auto.
  exists []. rewrite app_nil_r. auto.
Qed.

Lemma dry_octokit_request r :
  is_transfer r = false -> steps dry_step (octokit_request r).
Proof.
  intros Hr w st. unfold octokit_request.
  assert (H : transfer_requests (requests st ++ [r])
              = transfer_requests (requests st)).
  { unfold transfer_requests. rewrite filter_app. simpl. rewrite Hr.
    apply app_nil_r. }
  destruct (github w (requests st) r); apply dry_step_same_results; auto.
Qed.

Lemma dry_Date_toISOString : steps dry_step Date_toISOString.
Proof. intros w st. apply dry_step_same_results; auto. Qed.

Lemma dry_console l line : steps dry_step (console l line).
Proof. intros w st. apply dry_step_same_results; auto. Qed.

Lemma dry_writeFileSync path : steps dry_step (writeFileSync_results path).
Proof. intros w st. apply dry_step_same_results; auto. Qed.

Lemma dry_setTimeout ms : steps dry_step (setTimeout ms).
Proof. intros w st. apply dry_step_same_results; auto. Qed.

Lemma dry_push_simulated repo target timestamp :
  steps dry_step (push_successful (Simulated repo target timestamp)).
Proof.
  intros w st. unfold dry_step. simpl. repeat split; auto.
  eexists. split; [reflexivity |]. constructor; eauto.
Qed.

Lemma dry_assign_summary timestamp dryRun :
  steps dry_step (assign_summary timestamp dryRun).
Proof.
  intros w st. unfold dry_step. simpl. repeat split; auto.
  exists []. rewrite app_nil_r. auto.
Qed.

Lemma skip_same st st' :
  results st' = results st -> files st' = files st -> skip_step st st'.
Proof. intros Hr Hf [H1 H2]. split; [rewrite Hr | rewrite Hf]; auto. Qed.

Lemma skip_octokit_request r : steps skip_step (octokit_request r).
Proof.
  intros w st. unfold octokit_request.
  destruct (github w (requests st) r); apply skip_same; auto.
Qed.

Lemma skip_Date_toISOString : steps skip_step Date_toISOString.
Proof. intros w st. apply skip_same; auto. Qed.

Lemma skip_console l line : steps skip_step (console l line).
Proof. intros w st. apply skip_same; auto. Qed.

Lemma skip_setTimeout ms : steps skip_step (setTimeout ms).
Proof. intros w st. apply skip_same; auto. Qed.

Lemma skip_writeFileSync path : steps skip_step (writeFileSync_results path).
Proof.
  intros w st [H1 H2]. split; simpl; auto.
  apply Forall_app. split; auto.
Qed.

Lemma skip_push_successful e : steps skip_step (push_successful e).
Proof. intros w st [[H1 H2] H3]. repeat split; simpl; auto. Qed.

Lemma skip_push_failed e : steps skip_step (push_failed e).
Proof. intros w st [[H1 H2] H3]. repeat split; simpl; auto. Qed.

Lemma skip_set_empty : steps skip_step (set_results empty_results).
Proof.
  intros w st [_ H3]. repeat split; simpl; auto. discriminate.
Qed.

Lemma skip_assign_summary timestamp dryRun :
  steps skip_step (assign_summary timestamp dryRun).
Proof.
  intros w st [[H1 H2] H3]. repeat split; simpl; auto.
  intros s [= <-]. simpl. rewrite H1. reflexivity.
Qed.

Lemma kind_same st st' : results st' = results st -> kind_step st st'.
Proof. intros Hr H. rewrite Hr. exact H. Qed.

Lemma kind_octokit_request r : steps kind_step (octokit_request r).
Proof.
  intros w st. unfold octokit_request.
  destruct (github w (requests st) r); apply kind_same; auto.
Qed.

Lemma kind_Date_toISOString : steps kind_step Date_toISOString.
Proof. intros w st. apply kind_same; auto. Qed.

Lemma kind_console l line : steps kind_step (console l line).
Proof. intros w st. apply kind_same; auto. Qed.

Lemma kind_setTimeout ms : steps kind_step (setTimeout ms).
Proof. intros w st. apply kind_same; auto. Qed.

Lemma kind_writeFileSync path : steps kind_step (writeFileSync_results path).
Proof. intros w st. apply kind_same; auto. Qed.

Lemma kind_push_successful e :
  is_success e = true -> steps kind_step (push_successful e).
Proof.
  intros He w st (H1 & H2 & H3). repeat split; simpl; auto.
  apply Forall_app. auto.
Qed.

Lemma kind_push_failed e :
  is_success e = false -> steps kind_step (push_failed e).
Proof.
  intros He w st (H1 & H2 & H3). repeat split; simpl; auto.
  apply Forall_app. auto.
Qed.

Lemma kind_set_empty : steps kind_step (set_results empty_results).
Proof. intros w st _. repeat split; simpl; auto. Qed.

Lemma kind_assign_summary timestamp dryRun :
  steps kind_step (assign_summary timestamp dryRun).
Proof. intros w st H. exact H. Qed.

Create HintDb js_steps.
#[local] Hint Resolve
  dry_octokit_request dry_Date_toISOString dry_console dry_writeFileSync
  dry_setTimeout dry_push_simulated dry_assign_summary
  skip_octokit_request skip_Date_toISOString skip_console skip_setTimeout
  skip_writeFileSync skip_push_successful skip_push_failed skip_set_empty
  skip_assign_summary kind_assign_summary
  kind_octokit_request kind_Date_toISOString kind_console kind_setTimeout
  kind_writeFileSync kind_push_successful kind_push_failed kind_set_empty
  : js_steps.

(** * Transfers *)

(** Runs a method on a symbolic state, splitting on the remote's answers. *)
Ltac run_js :=
  repeat (cbv beta iota delta
            [bind try_catch ret throw octokit_request Date_toISOString
             console console_warn console_error push_successful push_failed
             setTimeout process_exit with_results]; simpl;
          try match goal with
            | |- context [github ?w ?h ?r] =>
                let E := fresh "E" in
                let e := fresh "e" in
                let d := fresh "d" in
                destruct (github w h r) as [e | d] eqn:E
            end).

Lemma outcomes_length r :
  length (outcomes r)
  = length (successful r) + length (failed r) + length (skipped r).
Proof. unfold outcomes. rewrite !length_app. lia. Qed.

Lemma appended_one_length e r r' :
  appended_one e r r' -> length (outcomes r') = S (length (outcomes r)).
Proof.
  rewrite !outcomes_length.
  intros [(-> & -> & ->) | [(-> & -> & ->) | (-> & -> & ->)]];
    rewrite length_app; simpl; lia.
Qed.

Lemma records_one_intro sourceOrg repo st st' e :
  entry_repo e = full_name sourceOrg repo ->
  appended_one e (results st) (results st') ->
  records_one_outcome sourceOrg repo st st'.
Proof.
  intros Hn Ha. exists e. repeat split; auto.
  eapply appended_one_length; eauto.
Qed.

(** C7: every call of [transferRepository] pushes exactly one entry, named
    after the repository, on exactly one bucket: a dry run, an accepted
    transfer and a refused transfer alike (src/migrate-repos.js and
    src/unnamed/part_000). *)
Theorem transferRepository_records_exactly_one :
  forall (w : World) (st : State) (repo : Repo) (sourceOrg : string),
    (forall this,
        records_one_outcome sourceOrg repo st
          (snd (MigrateRepos.transferRepository this repo sourceOrg w st)))
    /\ (forall this,
        records_one_outcome sourceOrg repo st
          (snd (Part000.transferRepository this repo sourceOrg w st))).
Proof.
  intros w st repo sourceOrg. split; intros this.
  - unfold MigrateRepos.transferRepository.
    destruct (MigrateRepos.dryRun this); run_js.
    + eapply records_one_intro; [| left; simpl; eauto]. reflexivity.
    + destruct (MigrateRepos.stopOnFailure this); simpl;
        (eapply records_one_intro; [| right; left; simpl; eauto]);
        reflexivity.
    + eapply records_one_intro; [| left; simpl; eauto]. reflexivity.
  - unfold Part000.transferRepository.
    destruct (Part000.dryRun this); run_js.
    + eapply records_one_intro; [| left; simpl; eauto]. reflexivity.
    + eapply records_one_intro; [| right; left; simpl; eauto]. reflexivity.
    + eapply records_one_intro; [| left; simpl; eauto]. reflexivity.
Qed.

(** ** Dry runs *)

Ltac steps_auto := steps_structure; try exact _; auto with js_steps.

Lemma MigrateRepos_transferRepository_dry this repo sourceOrg w st :
  MigrateRepos.dryRun this = true ->
  MigrateRepos.transferRepository this repo sourceOrg w st
  = (Normal DryRunResult,
     simulated_transfer w (MigrateRepos.targetOrg this) sourceOrg repo st).
Proof.
  intros H. unfold MigrateRepos.transferRepository. rewrite H. reflexivity.
Qed.

Lemma Part000_transferRepository_dry this repo sourceOrg w st :
  Part000.dryRun this = true ->
  Part000.transferRepository this repo sourceOrg w st
  = (Normal DryRunResult,
     simulated_transfer w (Part000.targetOrg this) sourceOrg repo st).
Proof.
  intros H. unfold Part000.transferRepository. rewrite H. reflexivity.
Qed.

Lemma MigrateRepos_dry_transfer this repo sourceOrg :
  MigrateRepos.dryRun this = true ->
  steps dry_step (MigrateRepos.transferRepository this repo sourceOrg).
Proof.
  intros H. unfold MigrateRepos.transferRepository. rewrite H. steps_auto.
Qed.

Lemma Part000_dry_transfer this repo sourceOrg :
  Part000.dryRun this = true ->
  steps dry_step (Part000.transferRepository this repo sourceOrg).
Proof.
  intros H. unfold Part000.transferRepository. rewrite H. steps_auto.
Qed.

Lemma MigrateRepos_dry_run this :
  MigrateRepos.dryRun this = true -> steps dry_step (MigrateRepos.run this).
Proof.
  intros H. pose proof (MigrateRepos_dry_transfer this) as T.
  unfold MigrateRepos.run, MigrateRepos.migrateFromOrganizations,
    MigrateRepos.listRepositories.
  steps_auto.
Qed.

Lemma Part000_dry_run this :
  Part000.dryRun this = true -> steps dry_step (Part000.run this).
Proof.
  intros H. pose proof (Part000_dry_transfer this) as T.
  unfold Part000.run, Part000.validateSetup, Part000.existsSync,
    Part000.migrateFromFile, Part000.migrateFromOrganizations,
    Part000.listRepositories, Part000.generateReport, Part000.read_repos,
    Part000.orgMatch.
  steps_auto.
Qed.

Lemma MigrateRepos_main_eq w :
  MigrateRepos.main w boot
  = if is_entry_point w then
      match TARGET_ORG w with
      | None | Some EmptyString => (Throw (Error TARGET_ORG_required), boot)
      | Some target =>
          MigrateRepos.run
            (MigrateRepos.mk target (parse_source_orgs (SOURCE_ORGS w))
                             (negb (includes (argv w) "--execute")) true)
            w (constructed 0)
      end
    else (Normal tt, boot).
Proof.
  unfold MigrateRepos.main, MigrateRepos.constructor, bind, world. simpl.
  destruct (is_entry_point w); [| reflexivity].
  destruct (TARGET_ORG w) as [[| c s] |]; reflexivity.
Qed.

Lemma Part000_main_eq w :
  Part000.main w boot
  = if is_entry_point w then
      match TARGET_ORG w with
      | None | Some EmptyString => (Throw (Error TARGET_ORG_required), boot)
      | Some target =>
          Part000.run
            (Part000.mk target (parse_source_orgs (SOURCE_ORGS w))
                        (negb (includes (argv w) "--execute"))
                        (log_file_name (now w 0)))
            w (constructed 1)
      end
    else (Normal tt, boot).
Proof.
  unfold Part000.main, Part000.constructor, bind, world. simpl.
  destruct (is_entry_point w); [| reflexivity].
  destruct (TARGET_ORG w) as [[| c s] |]; reflexivity.
Qed.

Lemma dry_step_constructed n : dry_step boot (constructed n).
Proof. apply dry_step_same_results; reflexivity. Qed.

(** C1: with [dryRun] set, [transferRepository] returns
    [{success: true, dryRun: true}] after pushing one entry with
    [dryRun: true] on [successful] and issuing no request; and over a whole
    run ([run] from any state, and the program from its start without
    [--execute]) no transfer request is issued, nothing is pushed on [failed]
    or [skipped], and every entry pushed on [successful] has [dryRun: true]
    (src/migrate-repos.js and src/unnamed/part_000). *)
Theorem dry_run_never_transfers :
  (forall (this : MigrateRepos.RepositoryMigrator) (w : World) (st : State),
      MigrateRepos.dryRun this = true ->
      (forall repo sourceOrg,
          MigrateRepos.transferRepository this repo sourceOrg w st
          = (Normal DryRunResult,
             simulated_transfer w (MigrateRepos.targetOrg this) sourceOrg
                                repo st))
      /\ dry_step st (snd (MigrateRepos.run this w st)))
  /\ (forall (this : Part000.RepositoryMigrator) (w : World) (st : State),
      Part000.dryRun this = true ->
      (forall repo sourceOrg,
          Part000.transferRepository this repo sourceOrg w st
          = (Normal DryRunResult,
             simulated_transfer w (Part000.targetOrg this) sourceOrg repo st))
      /\ dry_step st (snd (Part000.run this w st)))
  /\ (forall w : World,
      includes (argv w) "--execute" = false ->
      dry_step boot (snd (MigrateRepos.main w boot))
      /\ dry_step boot (snd (Part000.main w boot))).
Proof.
  split; [| split].
  - intros this w st H. split.
    + intros. apply MigrateRepos_transferRepository_dry; assumption.
    + apply MigrateRepos_dry_run; assumption.
  - intros this w st H. split.
    + intros. apply Part000_transferRepository_dry; assumption.
    + apply Part000_dry_run; assumption.
  - intros w H. split.
    + rewrite MigrateRepos_main_eq.
      destruct (is_entry_point w); [| reflexivity].
      destruct (TARGET_ORG w) as [[| c s] |]; simpl; try reflexivity.
      etransitivity; [apply (dry_step_constructed 0) |].
      apply MigrateRepos_dry_run. simpl. rewrite H. reflexivity.
    + rewrite Part000_main_eq.
      destruct (is_entry_point w); [| reflexivity].
      destruct (TARGET_ORG w) as [[| c s] |]; simpl; try reflexivity.
      etransitivity; [apply (dry_step_constructed 1) |].
      apply Part000_dry_run. simpl. rewrite H. reflexivity.
Qed.

(** The dry-run scenario of the specification satisfies the hypothesis of C1;
    its two conclusions for the whole program follow. *)
Lemma dry_run_never_transfers_witness :
  includes (argv scenario_dry) "--execute" = false
  /\ dry_step boot (snd (MigrateRepos.main scenario_dry boot))
  /\ dry_step boot (snd (Part000.main scenario_dry boot)).
Proof.
  split; [reflexivity |].
  apply (proj2 (proj2 dry_run_never_transfers) scenario_dry).
  reflexivity.
Defined.

(** The scenario, evaluated: two simulated transfers to [T/r1] and [T/r2],
    nothing failed or skipped, a success rate of 100 and no transfer
    request. *)
Example scenario_dry_report :
  let st := snd (Part000.main scenario_dry boot) in
  fst (Part000.main scenario_dry boot) = Normal tt
  /\ map entry_target (successful (results st)) = [Some "T/r1"; Some "T/r2"]
  /\ map entry_dryRun (successful (results st)) = [Some true; Some true]
  /\ failed (results st) = []
  /\ skipped (results st) = []
  /\ option_map Summary.successRate (summary (results st)) = Some 100%float
  /\ transfer_requests (requests st) = [].
Proof. vm_compute. repeat split. Qed.

(** * Validation *)

Arguments includes : simpl never.

Lemma after_validation_eq st rs lines results' requests' stderr' :
  results' = results st ->
  requests' = requests st ++ rs ->
  stderr' = stderr st ++ lines ->
  mkState results' requests' stderr' (files st) (clock_reads st) (slept st)
  = after_validation st rs lines.
Proof. intros -> -> ->. reflexivity. Qed.

Ltac validation_cases :=
  unfold validation_table, membership_step, auth_response, org_response,
    login_response, membership_response;
  run_js;
  repeat match goal with
    | |- context [includes ?xs ?x] => destruct (includes xs x); simpl
    end;
  f_equal; apply after_validation_eq;
  rewrite <- ?app_assoc, ?app_nil_r; reflexivity.

Lemma Part000_validateSetup_table this w st :
  Part000.validateSetup this w st
  = validation_table (fun msg => [permission_warning msg]) w st
                     (Part000.targetOrg this).
Proof. unfold Part000.validateSetup. validation_cases. Qed.

Lemma ExportUsers_validateSetup_table this w st :
  ExportUsers.validateSetup this w st
  = validation_table (fun _ => []) w st (ExportUsers.targetOrg this).
Proof. unfold ExportUsers.validateSetup. validation_cases. Qed.

Lemma validation_table_unverified warnings w st target u o e rs :
  auth_response w st = inr u ->
  org_response w st target = inr o ->
  membership_unverified w st target e rs ->
  validation_table warnings w st target
  = (Normal tt, after_validation st rs (warnings (message e))).
Proof.
  intros Ha Ho Hm. unfold validation_table, membership_step.
  rewrite Ha, Ho.
  destruct Hm as [[Hl ->] | (login & Hl & Hr & ->)]; rewrite Hl; auto.
  rewrite Hr. reflexivity.
Qed.

Lemma validation_table_passes warnings w st target u o :
  auth_response w st = inr u ->
  org_response w st target = inr o ->
  fst (validation_table warnings w st target) = Normal tt.
Proof.
  intros Ha Ho. unfold validation_table, membership_step. rewrite Ha, Ho.
  destruct (login_response w st target) as [e | login]; auto.
  destruct (membership_response w st target login) as [e | role]; auto.
  destruct (includes _ role); auto.
Qed.

(** C8: in src/unnamed/part_000, when authentication and the lookup of the
    target organization succeed, a failure of the membership step (of its
    [GET /user] or of the membership query) makes [validateSetup] print one
    warning and return normally, with [this.results] untouched; whatever the
    membership step does, [validateSetup] returns normally; and it throws
    exactly when authentication fails or the target organization cannot be
    resolved. *)
Theorem validateSetup_permission_check_is_best_effort :
  forall (this : Part000.RepositoryMigrator) (w : World) (st : State),
    let target := Part000.targetOrg this in
    let outcome := Part000.validateSetup this w st in
    (forall u o e rs,
        auth_response w st = inr u ->
        org_response w st target = inr o ->
        membership_unverified w st target e rs ->
        outcome
        = (Normal tt,
           after_validation st rs [permission_warning (message e)]))
    /\ (forall u o,
        auth_response w st = inr u ->
        org_response w st target = inr o ->
        fst outcome = Normal tt)
    /\ (forall e,
        auth_response w st = inl e ->
        fst outcome
        = Throw (Error ("Authentication failed: " ++ message e)%string))
    /\ (forall u e,
        auth_response w st = inr u ->
        org_response w st target = inl e ->
        fst outcome
        = Throw (Error ("Target organization '" ++ target
                        ++ "' not found or no access")%string))
    /\ ((exists err, fst outcome = Throw err)
        <-> (exists e, auth_response w st = inl e)
            \/ (exists u e, auth_response w st = inr u
                            /\ org_response w st target = inl e)).
Proof.
  intros this w st target outcome. subst outcome target.
  rewrite Part000_validateSetup_table.
  split; [| split; [| split; [| split]]].
  - intros u o e rs. apply validation_table_unverified.
  - intros u o. apply validation_table_passes.
  - intros e Ha. unfold validation_table. rewrite Ha. reflexivity.
  - intros u e Ha Ho. unfold validation_table. rewrite Ha, Ho. reflexivity.
  - split.
    + intros [err H].
      destruct (auth_response w st) as [e | u] eqn:Ha; [left; eauto |].
      destruct (org_response w st (Part000.targetOrg this)) as [e | o] eqn:Ho;
        [right; eauto |].
      rewrite (validation_table_passes _ _ _ _ Ha Ho) in H. discriminate.
    + unfold validation_table.
      intros [[e Ha] | (u & e & Ha & Ho)]; rewrite Ha; [| rewrite Ho];
        simpl; eauto.
Qed.

(** A token that may not read memberships: the membership query fails with
    status 403, one warning is printed and validation returns normally. *)
Lemma validateSetup_permission_check_witness :
  let w := world_with_membership (inl forbidden) in
  let st := constructed 1 in
  let rs := [GET_user; GET_orgs "T"; GET_user;
             GET_orgs_memberships "T" "octocat"] in
  auth_response w st = inr "octocat"
  /\ org_response w st "T" = inr tt
  /\ membership_unverified w st "T" forbidden rs
  /\ Part000.validateSetup part000_migrator w st
     = (Normal tt,
        after_validation st rs [permission_warning (message forbidden)]).
Proof.
  intros w st rs.
  assert (Ha : auth_response w st = inr "octocat") by reflexivity.
  assert (Ho : org_response w st "T" = inr tt) by reflexivity.
  assert (Hm : membership_unverified w st "T" forbidden rs).
  { right. exists "octocat". repeat split. }
  split; [exact Ha | split; [exact Ho | split; [exact Hm |]]].
  exact (proj1 (validateSetup_permission_check_is_best_effort
                  part000_migrator w st) _ _ _ _ Ha Ho Hm).
Defined.

(** C9, as amended: when the membership query succeeds with a role that is
    neither [admin] nor [owner], [validateSetup] still returns normally.  The
    error it raises is caught by the handler that catches a failed query: in
    src/unnamed/part_000 the handler prints it as a warning, in
    src/export-users.js the handler is empty and nothing is printed.  In
    both, the outcome is the outcome of a run in which the query itself
    failed (in part_000: failed with the same message). *)
Theorem validateSetup_denied_role_is_not_fatal :
  forall (w : World) (st : State) (target login role : string) u o,
    auth_response w st = inr u ->
    org_response w st target = inr o ->
    login_response w st target = inr login ->
    membership_response w st target login = inr role ->
    includes ["admin"; "owner"] role = false ->
    let rs := [GET_user; GET_orgs target; GET_user;
               GET_orgs_memberships target login] in
    (forall this,
        Part000.targetOrg this = target ->
        Part000.validateSetup this w st
        = (Normal tt,
           after_validation st rs
             [permission_warning (insufficient_permissions role)])
        /\ forall w' u' o' e',
            auth_response w' st = inr u' ->
            org_response w' st target = inr o' ->
            login_response w' st target = inr login ->
            membership_response w' st target login = inl e' ->
            message e' = insufficient_permissions role ->
            Part000.validateSetup this w' st
            = Part000.validateSetup this w st)
    /\ (forall this,
        ExportUsers.targetOrg this = target ->
        ExportUsers.validateSetup this w st
        = (Normal tt, after_validation st rs [])
        /\ forall w' u' o' e',
            auth_response w' st = inr u' ->
            org_response w' st target = inr o' ->
            login_response w' st target = inr login ->
            membership_response w' st target login = inl e' ->
            ExportUsers.validateSetup this w' st
            = ExportUsers.validateSetup this w st).
Proof.
  intros w st target login role u o Ha Ho Hl Hr Hrole rs.
  assert (T : forall warnings,
             validation_table warnings w st target
             = (Normal tt,
                after_validation st rs
                  (warnings (insufficient_permissions role)))).
  { intros warnings. unfold validation_table, membership_step.
    rewrite Ha, Ho, Hl, Hr, Hrole. reflexivity. }
  split; intros this <-.
  - rewrite !Part000_validateSetup_table. split; [apply T |].
    intros w' u' o' e' Ha' Ho' Hl' Hr' Hmsg.
    rewrite Part000_validateSetup_table, T.
    erewrite validation_table_unverified; eauto.
    + rewrite Hmsg. reflexivity.
    + right. eauto.
  - rewrite !ExportUsers_validateSetup_table. split; [apply T |].
    intros w' u' o' e' Ha' Ho' Hl' Hr'.
    rewrite ExportUsers_validateSetup_table, T.
    erewrite validation_table_unverified; eauto.
    right. eauto.
Qed.

(** A credential that is a plain member of the target organization. *)
Lemma validateSetup_denied_role_witness :
  let w := world_with_membership (inr "member") in
  let st := constructed 1 in
  let rs := [GET_user; GET_orgs "T"; GET_user;
             GET_orgs_memberships "T" "octocat"] in
  includes ["admin"; "owner"] "member" = false
  /\ Part000.validateSetup part000_migrator w st
     = (Normal tt,
        after_validation st rs
          [permission_warning (insufficient_permissions "member")])
  /\ ExportUsers.validateSetup export_users_migrator w st
     = (Normal tt, after_validation st rs []).
Proof.
  intros w st rs.
  pose proof (@validateSetup_denied_role_is_not_fatal
                w st "T" "octocat" "member" "octocat" tt
                eq_refl eq_refl eq_refl eq_refl eq_refl) as [H1 H2].
  split; [reflexivity | split].
  - exact (proj1 (H1 part000_migrator eq_refl)).
  - exact (proj1 (H2 export_users_migrator eq_refl)).
Defined.

(** C9, as stated, fails on src/export-users.js: for a credential that is a
    plain member, [validateSetup] returns normally, but the error is not
    turned into a warning: nothing at all is written to the console. *)
Lemma denied_role_prints_no_warning :
  let w := world_with_membership (inr "member") in
  let r := ExportUsers.validateSetup export_users_migrator w (constructed 1) in
  membership_response w (constructed 1) "T" "octocat" = inr "member"
  /\ includes ["admin"; "owner"] "member" = false
  /\ fst r = Normal tt
  /\ ~ exists line, In (level_warn, line) (stderr (snd r)).
Proof.
  cbv zeta. repeat (split; [reflexivity |]).
  intros [line H]. vm_compute in H. exact H.
Qed.

(** * Termination of the process *)

Lemma never_exits_ret A (a : A) : never_exits (ret a).
Proof. intros w st code. discriminate. Qed.

Lemma never_exits_throw A e : never_exits (@throw A e).
Proof. intros w st code. discriminate. Qed.

Lemma never_exits_bind A B (m : Js A) (k : A -> Js B) :
  never_exits m -> (forall a, never_exits (k a)) -> never_exits (bind m k).
Proof.
  intros Hm Hk w st code. unfold bind. specialize (Hm w st).
  destruct (m w st) as [[a | e | c] st1]; simpl in *.
  - apply Hk.
  - discriminate.
  - destruct (Hm c). reflexivity.
Qed.

Lemma never_exits_try_catch A (body : Js A) handler :
  never_exits body -> (forall e, never_exits (handler e)) ->
  never_exits (try_catch body handler).
Proof.
  intros Hb Hh w st code. unfold try_catch. specialize (Hb w st).
  destruct (body w st) as [[a | e | c] st1]; simpl in *.
  - discriminate.
  - apply Hh.
  - apply Hb.
Qed.

Lemma never_exits_for_of A (xs : list A) body :
  (forall x, never_exits (body x)) -> never_exits (for_of xs body).
Proof.
  intros Hb. induction xs as [| x xs IH]; simpl.
  - apply never_exits_ret.
  - apply never_exits_bind; auto.
Qed.

Lemma never_exits_octokit_request r : never_exits (octokit_request r).
Proof.
  intros w st code. unfold octokit_request.
  destruct (github w (requests st) r); discriminate.
Qed.

Lemma never_exits_normal A (m : Js A) :
  (forall w st, exists a, fst (m w st) = Normal a) -> never_exits m.
Proof. intros H w st code. destruct (H w st) as [a ->]. discriminate. Qed.

Ltac never_exits_auto :=
  repeat first
    [ apply never_exits_ret | apply never_exits_throw
    | apply never_exits_octokit_request
    | apply never_exits_bind | apply never_exits_try_catch
    | apply never_exits_for_of
    | solve [apply never_exits_normal; intros; eexists; reflexivity]
    | match goal with |- forall _, _ => intro end
    | match goal with
      | |- never_exits (if ?b then _ else _) => destruct b
      | |- never_exits (match ?x with _ => _ end) => destruct x
      end ].

Lemma ExportUsers_migration_never_exits this :
  never_exits
    (ExportUsers.validateSetup this ;;
     (if (0 <? length (ExportUsers.sourceOrgs this))%nat then
        ExportUsers.migrateFromOrganizations this (ExportUsers.sourceOrgs this)
      else throw (Error "No source organizations specified"))).
Proof.
  unfold ExportUsers.validateSetup, ExportUsers.migrateFromOrganizations,
    ExportUsers.listRepositories, ExportUsers.transferRepository.
  never_exits_auto.
Qed.

Lemma ExportUsers_generateReport_eq this w st :
  ExportUsers.generateReport this w st
  = (write_completion w (files st) (ExportUsers.logFile this),
     let r := mkResults (successful (results st)) (failed (results st))
                (skipped (results st))
                (Some (summarize (results st) (now w (clock_reads st))
                                 (ExportUsers.dryRun this))) in
     mkState r (requests st) (stderr st)
             (files st ++ [(ExportUsers.logFile this, r)])
             (S (clock_reads st)) (slept st)).
Proof. reflexivity. Qed.

Lemma Part000_generateReport_eq this w st :
  Part000.generateReport this w st
  = (write_completion w (files st) (Part000.logFile this),
     let r := mkResults (successful (results st)) (failed (results st))
                (skipped (results st))
                (Some (summarize (results st) (now w (clock_reads st))
                                 (Part000.dryRun this))) in
     mkState r (requests st) (stderr st)
             (files st ++ [(Part000.logFile this, r)])
             (S (clock_reads st)) (slept st)).
Proof. reflexivity. Qed.

(** In src/export-users.js every path through [run] ends with
    [generateReport]: the last call of [writeFileSync] carries the final
    [this.results], summary included, and the run ends as that call allows. *)
Lemma ExportUsers_run_always_persists this w st c st' :
  ExportUsers.run this w st = (c, st') ->
  ends_with_report w (ExportUsers.logFile this) c st'
  /\ exists s, summary (results st') = Some s.
Proof.
  pose proof (ExportUsers_migration_never_exits this w st) as NE.
  assert (Hcatch : forall e st2 c st',
             (console_error ("❌ Migration failed: " ++ message e)%string ;;
              ExportUsers.generateReport this ;;
              process_exit 1) w st2 = (c, st') ->
             ends_with_report w (ExportUsers.logFile this) c st'
             /\ exists s, summary (results st') = Some s).
  { intros e st2 c0 st0. unfold bind at 1. unfold console_error, console.
    unfold bind. rewrite ExportUsers_generateReport_eq.
    unfold write_completion, process_exit. cbn [files].
    destruct (write_error w (files st2) (ExportUsers.logFile this)) as [e2 |]
      eqn:E; intros [= <- <-]; (split; [| eexists; reflexivity]);
      exists (files st2); cbn [files results]; rewrite E; auto. }
  unfold ExportUsers.run, try_catch. unfold bind at 1. unfold bind at 1.
  unfold bind in NE.
  destruct (ExportUsers.validateSetup this w st) as [[[] | e | code] st1];
    simpl in NE.
  - destruct ((if (0 <? length (ExportUsers.sourceOrgs this))%nat
               then ExportUsers.migrateFromOrganizations this
                      (ExportUsers.sourceOrgs this)
               else throw (Error "No source organizations specified")) w st1)
      as [[[] | e | code] st2]; simpl in NE.
    + rewrite ExportUsers_generateReport_eq. unfold write_completion.
      destruct (write_error w (files st2) (ExportUsers.logFile this))
        as [e1 |] eqn:E.
      * apply Hcatch.
      * intros [= <- <-]. split; [| eexists; reflexivity].
        exists (files st2). cbn [files results]. rewrite E. auto.
    + apply Hcatch.
    + destruct (NE code). reflexivity.
  - apply Hcatch.
  - destruct (NE code). reflexivity.
Qed.

(** In src/unnamed/part_000 a failed authentication ends [run] with
    [process.exit(1)] after one line on standard error: nothing is written to
    disk and [this.results] is left as it was. *)
Lemma Part000_run_authentication_failure this w st e :
  auth_response w st = inl e ->
  Part000.run this w st
  = (Exit 1,
     after_validation st [GET_user]
       [(level_error,
         ("💥 Migration failed: Authentication failed: " ++ message e)%string)]).
Proof.
  intros Ha. unfold Part000.run, try_catch. unfold bind at 1.
  rewrite Part000_validateSetup_table. unfold validation_table.
  rewrite Ha. simpl.
  unfold bind, console_error, console, process_exit, after_validation.
  simpl. rewrite app_nil_r. reflexivity.
Qed.

(** C3 (the code of src/unnamed/part_000 departs from the claim): with a
    rejected credential the program of part_000 exits with status 1 having
    written no report and computed no summary, whereas the program of
    src/export-users.js, on the same input, writes the report before it exits
    with status 1. *)
Theorem part000_exits_without_report :
  let part000 := Part000.main world_unauthenticated boot in
  let export_users := ExportUsers.main world_unauthenticated boot in
  fst part000 = Exit 1
  /\ exit_status (fst part000) = 1%Z
  /\ files (snd part000) = []
  /\ summary (results (snd part000)) = None
  /\ fst export_users = Exit 1
  /\ files (snd export_users)
     = [("migration-log-2025-01-24.json", results (snd export_users))]
  /\ option_map Summary.total (summary (results (snd export_users))) = Some 0.
Proof. vm_compute. repeat split. Qed.

(** * The report *)

(** The rate is a percentage for all small counts with a transfer attempted
    (checked by evaluation for counts below 40), and 100 exactly when
    nothing failed. *)
Example success_rate_small_counts :
  forallb (fun p => match p with
                    | (0, 0) => PrimFloat.is_nan (success_rate 0 0)
                    | (s, 0) => PrimFloat.eqb (success_rate s 0) 100
                    | (s, f) => is_percentage (success_rate s f)
                    end)
          (count_pairs 40) = true.
Proof. vm_compute. reflexivity. Qed.

(** C6: the [successRate] that [generateReport] of src/unnamed/part_000
    assigns and persists is the double [s / (s + f) * 100] of the bucket
    sizes [s] and [f]; it is 100 for 2 successful and 0 failed, and whenever
    [s + f] is zero it is the one value NaN. *)
Theorem generateReport_success_rate :
  forall (this : Part000.RepositoryMigrator) (w : World) (st : State),
    let s := length (successful (results st)) in
    let f := length (failed (results st)) in
    let st' := snd (Part000.generateReport this w st) in
    exists report,
      summary (results st') = Some report
      /\ persisted_last (Part000.logFile this) (results st') st'
      /\ Summary.successRate report
         = (Number_of_length s / (Number_of_length s + Number_of_length f)
            * 100)%float
      /\ (s = 2 -> f = 0 -> Summary.successRate report = 100%float)
      /\ (s + f = 0 -> Summary.successRate report = nan).
Proof.
  intros this w st s f st'. subst st'.
  rewrite Part000_generateReport_eq. simpl.
  eexists. split; [reflexivity |]. split; [eexists; reflexivity |].
  simpl. fold s f. unfold success_rate. split; [reflexivity |]. split.
  - intros -> ->. reflexivity.
  - intros H. assert (s = 0) as -> by lia. assert (f = 0) as -> by lia.
    reflexivity.
Qed.

(** A run that found nothing to transfer: both buckets are empty and the
    rate is NaN. *)
Lemma generateReport_success_rate_witness :
  let st := constructed 1 in
  length (successful (results st)) + length (failed (results st)) = 0
  /\ exists report,
      summary (results (snd (Part000.generateReport part000_migrator
                               scenario_dry st))) = Some report
      /\ Summary.successRate report = nan.
Proof.
  intros st. split; [reflexivity |].
  destruct (generateReport_success_rate part000_migrator scenario_dry st)
    as (report & Hs & _ & _ & _ & Hnan).
  exists report. split; [exact Hs | apply Hnan; reflexivity].
Defined.

(** ** The skipped bucket *)

#[local] Instance keeps_skipped_preorder : PreOrder keeps_skipped.
Proof.
  split; unfold keeps_skipped; [intros st | intros a b c]; congruence.
Qed.

Lemma keeps_skipped_octokit_request r :
  steps keeps_skipped (octokit_request r).
Proof.
  intros w st. unfold octokit_request.
  destruct (github w (requests st) r); reflexivity.
Qed.

Lemma keeps_skipped_direct A (m : Js A) :
  (forall w st, skipped (results (snd (m w st))) = skipped (results st)) ->
  steps keeps_skipped m.
Proof. intros H w st. apply H. Qed.

Ltac keeps_skipped_auto :=
  steps_structure; try exact _;
  first [ apply keeps_skipped_octokit_request
        | apply keeps_skipped_direct; reflexivity ].

Lemma Part000_keeps_skipped this :
  steps keeps_skipped (Part000.run this)
  /\ (forall repo sourceOrg,
         steps keeps_skipped (Part000.transferRepository this repo sourceOrg))
  /\ (forall path, steps keeps_skipped (Part000.migrateFromFile this path))
  /\ (forall orgs,
         steps keeps_skipped (Part000.migrateFromOrganizations this orgs))
  /\ steps keeps_skipped (Part000.validateSetup this)
  /\ steps keeps_skipped (Part000.generateReport this).
Proof.
  unfold Part000.run, Part000.validateSetup, Part000.existsSync,
    Part000.migrateFromFile, Part000.migrateFromOrganizations,
    Part000.listRepositories, Part000.generateReport, Part000.read_repos,
    Part000.orgMatch, Part000.transferRepository.
  repeat split; keeps_skipped_auto.
Qed.

Lemma Part000_skip_run this : steps skip_step (Part000.run this).
Proof.
  unfold Part000.run, Part000.validateSetup, Part000.existsSync,
    Part000.migrateFromFile, Part000.migrateFromOrganizations,
    Part000.listRepositories, Part000.generateReport, Part000.read_repos,
    Part000.orgMatch, Part000.transferRepository.
  steps_auto.
Qed.

Lemma skip_free_constructed n : skip_free (constructed n).
Proof. repeat split; simpl; auto. discriminate. Qed.

Lemma skip_free_boot : skip_free boot.
Proof. apply (skip_free_constructed 0). Qed.

Lemma Part000_main_skip_free w : skip_free (snd (Part000.main w boot)).
Proof.
  rewrite Part000_main_eq.
  destruct (is_entry_point w); [| apply skip_free_boot].
  destruct (TARGET_ORG w) as [[| c s] |]; simpl; try apply skip_free_boot.
  apply Part000_skip_run. apply skip_free_constructed.
Qed.

Lemma with_lines_nil st : with_lines st [] = st.
Proof. destruct st. unfold with_lines. simpl. rewrite app_nil_r. auto. Qed.

Lemma with_lines_app st l1 l2 :
  with_lines (with_lines st l1) l2 = with_lines st (l1 ++ l2).
Proof. unfold with_lines. simpl. rewrite app_assoc. reflexivity. Qed.

Lemma Part000_orgMatch_no_owner repo w st :
  no_owner repo -> Part000.orgMatch repo w st = (Normal None, st).
Proof.
  intros (u & s & Hu & Hs & Mu & Ms).
  unfold Part000.orgMatch, String_match, bind. rewrite Hu, Hs. simpl.
  rewrite Mu. simpl. rewrite Ms. reflexivity.
Qed.

Lemma Part000_file_loop_no_owner this repos w st :
  Forall no_owner repos ->
  for_of repos
    (fun repo =>
       m <- Part000.orgMatch repo ;;
       match m with
       | None =>
           console_warn ("⚠️  Could not determine organization for "
                         ++ name repo)%string
       | Some sourceOrg =>
           _ <- Part000.transferRepository this repo sourceOrg ;;
           setTimeout 1000
       end) w st
  = (Normal tt, with_lines st (map could_not_determine repos)).
Proof.
  intros H. revert st. induction H as [| repo repos Hr _ IH]; intros st.
  - simpl. rewrite with_lines_nil. reflexivity.
  - cbn [for_of]. unfold bind at 1. unfold bind at 1.
    rewrite (Part000_orgMatch_no_owner w st Hr).
    unfold console_warn, console. rewrite IH.
    unfold could_not_determine. cbn [map].
    change (?x :: ?l) with ([x] ++ l) at 2.
    rewrite <- with_lines_app. reflexivity.
Qed.

Lemma Part000_migrateFromFile_no_owner this path repos w st :
  disk w path = RepoArray repos ->
  Forall no_owner repos ->
  Part000.migrateFromFile this path w st
  = (Normal tt, with_lines st (map could_not_determine repos)).
Proof.
  intros Hd Hn. unfold Part000.migrateFromFile, try_catch.
  unfold bind at 1. unfold Part000.read_repos.
  unfold bind at 1. unfold world. cbv beta iota. rewrite Hd.
  unfold ret at 1. cbv beta iota.
  rewrite (Part000_file_loop_no_owner this w st Hn). reflexivity.
Qed.

(** C10: nothing is ever pushed on [skipped].  Every method of
    src/unnamed/part_000 leaves the bucket as it found it; at the end of the
    program the bucket in [this.results] and in every report written to disk
    is empty and the summary, when there is one, counts 0 skipped; and file
    entries from which no owner can be extracted change nothing but standard
    error, where each gets a warning. *)
Theorem skipped_bucket_stays_empty :
  (forall w : World, skip_free (snd (Part000.main w boot)))
  /\ (forall (this : Part000.RepositoryMigrator),
        steps keeps_skipped (Part000.run this)
        /\ (forall repo sourceOrg,
               steps keeps_skipped
                     (Part000.transferRepository this repo sourceOrg))
        /\ (forall path,
               steps keeps_skipped (Part000.migrateFromFile this path))
        /\ (forall orgs,
               steps keeps_skipped
                     (Part000.migrateFromOrganizations this orgs))
        /\ steps keeps_skipped (Part000.validateSetup this)
        /\ steps keeps_skipped (Part000.generateReport this))
  /\ (forall (this : Part000.RepositoryMigrator) path repos w st,
        disk w path = RepoArray repos ->
        Forall no_owner repos ->
        Part000.migrateFromFile this path w st
        = (Normal tt, with_lines st (map could_not_determine repos))).
Proof.
  split; [exact Part000_main_skip_free |].
  split; [exact Part000_keeps_skipped |].
  intros. apply Part000_migrateFromFile_no_owner; assumption.
Qed.

(** A file whose only entry is hosted elsewhere: one warning, no outcome. *)
Lemma skipped_bucket_stays_empty_witness :
  let w := world_with_file [foreign_repo] in
  disk w "test-repos.json" = RepoArray [foreign_repo]
  /\ Forall no_owner [foreign_repo]
  /\ Part000.migrateFromFile part000_migrator "test-repos.json" w
                             (constructed 1)
     = (Normal tt,
        with_lines (constructed 1) [could_not_determine foreign_repo]).
Proof.
  intros w.
  assert (Hn : Forall no_owner [foreign_repo]).
  { constructor; [| constructor]. do 2 eexists. repeat split. }
  split; [reflexivity | split; [exact Hn |]].
  exact (proj2 (proj2 skipped_bucket_stays_empty)
               part000_migrator "test-repos.json" [foreign_repo] w
               (constructed 1) eq_refl Hn).
Defined.

(** * Visiting repositories in discovery order *)

Lemma extends_refl st : extends st st [] [] [].
Proof. unfold extends. rewrite !app_nil_r. auto. Qed.

Lemma extends_trans st st1 st2 rs1 rs2 ok1 ok2 bad1 bad2 :
  extends st st1 rs1 ok1 bad1 ->
  extends st1 st2 rs2 ok2 bad2 ->
  extends st st2 (rs1 ++ rs2) (ok1 ++ ok2) (bad1 ++ bad2).
Proof.
  intros (R1 & S1 & F1 & K1) (R2 & S2 & F2 & K2). unfold extends.
  rewrite R2, R1, S2, S1, F2, F1, K2, K1, !app_assoc. auto.
Qed.

Lemma visited_nil w live target st : visited w live target st st [] [].
Proof.
  exists [], []. split; [apply extends_refl |]. simpl. auto.
Qed.

Lemma visited_app w live target st st1 st2 rs1 rs2 ds1 ds2 :
  visited w live target st st1 rs1 ds1 ->
  visited w live target st1 st2 rs2 ds2 ->
  visited w live target st st2 (rs1 ++ rs2) (ds1 ++ ds2).
Proof.
  intros (ok1 & bad1 & E1 & N1 & B1 & S1 & F1)
         (ok2 & bad2 & E2 & N2 & B2 & S2 & F2).
  exists (ok1 ++ ok2), (bad1 ++ bad2).
  split; [eapply extends_trans; eauto |].
  rewrite !filter_app, !map_app, N1, N2, B1, B2.
  repeat split; auto; apply Forall_app; auto.
Qed.

(** One call of [transferRepository] of src/unnamed/part_000 followed by the
    pause is one visit. *)
Lemma Part000_visit_spec this sourceOrg repo w st :
  let live := negb (Part000.dryRun this) in
  exists st',
    Part000_visit this sourceOrg repo w st = (Normal tt, st')
    /\ visited w live (Part000.targetOrg this) st st'
         (visit_requests live (Part000.targetOrg this) sourceOrg [repo])
         [mkAttempt sourceOrg repo (requests st)].
Proof.
  unfold Part000_visit, Part000.transferRepository, visited, extends,
    attempt_succeeds, attempt_response, visit_requests, transfer_request.
  destruct (Part000.dryRun this); run_js.
  - eexists. split; [reflexivity |]. eexists [_], []. simpl.
    rewrite !app_nil_r.
    repeat split; try reflexivity; repeat constructor.
  - eexists. split; [reflexivity |]. eexists [], [_]. simpl.
    rewrite !app_nil_r.
    repeat split; try reflexivity; repeat constructor.
  - eexists. split; [reflexivity |]. eexists [_], []. simpl.
    rewrite !app_nil_r.
    repeat split; try reflexivity; repeat constructor.
Qed.

Lemma Part000_listRepositories_eq this org w st :
  Part000.listRepositories this org w st
  = match github w (requests st) (GET_orgs_repos org) with
    | inr data => (Normal data, after_validation st [GET_orgs_repos org] [])
    | inl e =>
        (Normal [],
         after_validation st [GET_orgs_repos org] [listing_error org e])
    end.
Proof.
  unfold Part000.listRepositories, after_validation. run_js.
  - reflexivity.
  - rewrite app_nil_r. reflexivity.
Qed.

Lemma MigrateRepos_listRepositories_eq this org w st :
  MigrateRepos.listRepositories this org w st
  = match github w (requests st) (GET_orgs_repos org) with
    | inr data => (Normal data, after_validation st [GET_orgs_repos org] [])
    | inl e =>
        (Normal [],
         after_validation st [GET_orgs_repos org] [listing_error org e])
    end.
Proof.
  unfold MigrateRepos.listRepositories, after_validation. run_js.
  - reflexivity.
  - rewrite app_nil_r. reflexivity.
Qed.

(** A listing is a request that touches no bucket and yields [listed]. *)
Lemma listing_spec (list_repos : Js (list Repo)) org w st :
  list_repos w st
  = match github w (requests st) (GET_orgs_repos org) with
    | inr data => (Normal data, after_validation st [GET_orgs_repos org] [])
    | inl e =>
        (Normal [],
         after_validation st [GET_orgs_repos org] [listing_error org e])
    end ->
  exists st1,
    list_repos w st = (Normal (listed w (requests st) org), st1)
    /\ requests st1 = requests st ++ [GET_orgs_repos org]
    /\ results st1 = results st.
Proof.
  intros ->. unfold listed.
  destruct (github w (requests st) (GET_orgs_repos org));
    eexists; repeat split.
Qed.

Lemma visit_requests_cons live target org repo rest :
  visit_requests live target org (repo :: rest)
  = visit_requests live target org [repo]
    ++ visit_requests live target org rest.
Proof. destruct live; reflexivity. Qed.

Lemma visited_requests w live target st st' rs ds :
  visited w live target st st' rs ds -> requests st' = requests st ++ rs.
Proof. intros (ok & bad & (R & _) & _). exact R. Qed.

Lemma Part000_visits this org repos w st :
  let live := negb (Part000.dryRun this) in
  let target := Part000.targetOrg this in
  exists st',
    for_of repos (Part000_visit this org) w st = (Normal tt, st')
    /\ visited w live target st st'
         (visit_requests live target org repos)
         (visits live target org (requests st) repos).
Proof.
  intros live target. subst live target. revert st.
  induction repos as [| repo rest IH]; intros st; cbn [for_of].
  - exists st. split; [reflexivity |].
    destruct (negb (Part000.dryRun this)); apply visited_nil.
  - unfold bind.
    destruct (Part000_visit_spec this org repo w st) as (st1 & -> & Hv).
    destruct (IH st1) as (st2 & -> & Hv').
    exists st2. split; [reflexivity |].
    rewrite visit_requests_cons. cbn [visits].
    change (?a :: ?l) with ([a] ++ l).
    eapply visited_app; [exact Hv |].
    rewrite <- (visited_requests Hv). exact Hv'.
Qed.

Lemma visited_listing w live target st st1 org :
  requests st1 = requests st ++ [GET_orgs_repos org] ->
  results st1 = results st ->
  visited w live target st st1 [GET_orgs_repos org] [].
Proof.
  intros Hr Hs. exists [], []. unfold extends.
  rewrite Hr, Hs, !app_nil_r. simpl. auto.
Qed.

Lemma Part000_migrate_visits this orgs w st :
  let live := negb (Part000.dryRun this) in
  let target := Part000.targetOrg this in
  exists st',
    Part000.migrateFromOrganizations this orgs w st = (Normal tt, st')
    /\ visited w live target st st'
         (discovery_requests w live target (requests st) orgs)
         (discovery w live target (requests st) orgs).
Proof.
  intros live target. subst live target.
  unfold Part000.migrateFromOrganizations.
  change (fun repo : Repo =>
            _ <- Part000.transferRepository this repo ?o ;; setTimeout 1000)
    with (Part000_visit this o).
  revert st. induction orgs as [| org rest IH]; intros st; cbn [for_of].
  - exists st. split; [reflexivity |]. apply visited_nil.
  - unfold bind at 1. unfold bind at 1.
    destruct (listing_spec (Part000.listRepositories this org) org w st
                (Part000_listRepositories_eq this org w st))
      as (st1 & -> & Hr1 & Hs1).
    destruct (Part000_visits this org (listed w (requests st) org) w st1)
      as (st2 & -> & Hv).
    destruct (IH st2) as (st3 & -> & Hv').
    exists st3. split; [reflexivity |].
    cbn [discovery_requests discovery].
    pose proof (visited_app (@visited_listing w _ _ _ _ _ Hr1 Hs1) Hv) as H2.
    rewrite Hr1 in H2. simpl app in H2.
    eapply visited_app; [exact H2 |].
    rewrite <- (visited_requests H2). exact Hv'.
Qed.

Lemma for_of_app A (xs ys : list A) body w st :
  for_of (xs ++ ys) body w st = (for_of xs body ;; for_of ys body) w st.
Proof.
  revert st. induction xs as [| x xs IH]; intros st; simpl.
  - reflexivity.
  - unfold bind. destruct (body x w st) as [[[] | e | c] st1]; auto.
Qed.

Lemma discovery_app w live target h l1 l2 :
  discovery w live target h (l1 ++ l2)
  = discovery w live target h l1
    ++ discovery w live target
         (h ++ discovery_requests w live target h l1) l2.
Proof.
  revert h. induction l1 as [| org l1 IH]; intros h; simpl.
  - rewrite app_nil_r. reflexivity.
  - rewrite IH, <- !app_assoc. reflexivity.
Qed.

Lemma visits_In live target org h repos repo :
  In repo repos ->
  exists h', In (mkAttempt org repo h') (visits live target org h repos).
Proof.
  revert h. induction repos as [| r rest IH]; intros h; simpl.
  - intros [].
  - intros [-> | H].
    + exists h. left. reflexivity.
    + edestruct IH as [h' H']; [exact H |]. exists h'. right. exact H'.
Qed.

(** Every attempt visited has an entry under its name. *)
Lemma visited_recorded w live target st st' rs ds a :
  visited w live target st st' rs ds ->
  In a ds ->
  exists e, recorded_between st st' e /\ entry_repo e = attempt_name a.
Proof.
  intros (ok & bad & (_ & S & F & _) & N & B & _) Ha.
  assert (H : In (attempt_name a) (map entry_repo (ok ++ bad))).
  { rewrite map_app, N, B, in_app_iff, !in_map_iff.
    destruct (attempt_succeeds w live target a) eqn:E.
    - left. exists a. split; auto. apply filter_In. auto.
    - right. exists a. split; auto. apply filter_In. rewrite E. auto. }
  apply in_map_iff in H. destruct H as (e & He & Hin).
  exists e. split; [| exact He]. exists ok, bad. auto.
Qed.

(** C4: in src/unnamed/part_000 a failed listing makes [listRepositories]
    print one line and return the empty array; [migrateFromOrganizations]
    always returns normally, having visited the repositories of the
    organizations in discovery order, each recorded under its name on
    [successful] or [failed]; and when the listing of an organization
    succeeds at its turn, whatever happened to the organizations before it,
    every repository it lists has its entry when the run is over. *)
Theorem listing_failure_does_not_stop_the_run :
  forall (this : Part000.RepositoryMigrator) (w : World) (st : State),
    let live := negb (Part000.dryRun this) in
    let target := Part000.targetOrg this in
    (forall org e,
        github w (requests st) (GET_orgs_repos org) = inl e ->
        Part000.listRepositories this org w st
        = (Normal [],
           after_validation st [GET_orgs_repos org] [listing_error org e]))
    /\ (forall orgs,
        exists st',
          Part000.migrateFromOrganizations this orgs w st = (Normal tt, st')
          /\ visited w live target st st'
               (discovery_requests w live target (requests st) orgs)
               (discovery w live target (requests st) orgs))
    /\ (forall before org after st1 data,
        Part000.migrateFromOrganizations this before w st = (Normal tt, st1) ->
        github w (requests st1) (GET_orgs_repos org) = inr data ->
        exists st',
          Part000.migrateFromOrganizations this (before ++ org :: after) w st
          = (Normal tt, st')
          /\ forall repo,
              In repo data ->
              exists e,
                recorded_between st st' e
                /\ entry_repo e = full_name org repo).
Proof.
  intros this w st live target. subst live target.
  split; [| split].
  - intros org e H. rewrite Part000_listRepositories_eq, H. reflexivity.
  - intros orgs. apply Part000_migrate_visits.
  - intros before org after st1 data Hb Hd.
    destruct (Part000_migrate_visits this before w st) as (st1' & Hb' & Hv1).
    rewrite Hb in Hb'. injection Hb' as <-.
    destruct (Part000_migrate_visits this (before ++ org :: after) w st)
      as (st' & Hrun & Hv).
    exists st'. split; [exact Hrun |].
    intros repo Hin.
    rewrite discovery_app, <- (visited_requests Hv1) in Hv.
    cbn [discovery] in Hv. unfold listed in Hv at 1. rewrite Hd in Hv.
    destruct (@visits_In (negb (Part000.dryRun this))
                (Part000.targetOrg this) org
                (requests st1 ++ [GET_orgs_repos org]) data repo Hin)
      as [h' Hh'].
    apply (visited_recorded (mkAttempt org repo h') Hv).
    apply in_or_app. right. apply in_or_app. left. exact Hh'.
Qed.

(** The degraded-listing scenario of the specification: the listing of
    ["A"] fails, ["B"] lists three repositories. *)
Lemma listing_failure_witness :
  let st := constructed 1 in
  github world_listing_degraded (requests st) (GET_orgs_repos "A")
  = inl server_error
  /\ Part000.listRepositories part000_migrator "A" world_listing_degraded st
     = (Normal [],
        after_validation st [GET_orgs_repos "A"]
                         [listing_error "A" server_error]).
Proof.
  intros st. split; [reflexivity |].
  exact (proj1 (listing_failure_does_not_stop_the_run
                  part000_migrator world_listing_degraded st)
               "A" server_error eq_refl).
Defined.

(** The scenario, evaluated on the whole program: three outcomes, all from
    ["B"], none from ["A"], and the run ends normally. *)
Example listing_degraded_report :
  let st := snd (Part000.main world_listing_degraded boot) in
  fst (Part000.main world_listing_degraded boot) = Normal tt
  /\ map entry_repo (outcomes (results st)) = ["B/r1"; "B/r2"; "B/r3"]
  /\ option_map Summary.total (summary (results st)) = Some 3
  /\ filter (fun l => match fst l with level_error => true | _ => false end)
            (stderr st)
     = [listing_error "A" server_error].
Proof. vm_compute. repeat split. Qed.

(** * Stopping at the first failure (src/migrate-repos.js) *)

Lemma app_eq_app_cons A (l1 l2 pre post : list A) (a : A) :
  l1 ++ l2 = pre ++ a :: post ->
  (exists post1, l1 = pre ++ a :: post1 /\ post = post1 ++ l2)
  \/ (exists pre2, pre = l1 ++ pre2 /\ l2 = pre2 ++ a :: post).
Proof.
  revert pre. induction l1 as [| x l1 IH]; intros pre H; simpl in H.
  - right. exists pre. auto.
  - destruct pre as [| y pre]; simpl in H; injection H as -> H.
    + left. exists l1. subst. auto.
    + destruct (IH _ H) as [(post1 & -> & ->) | (pre2 & -> & ->)].
      * left. exists post1. auto.
      * right. exists pre2. auto.
Qed.

Lemma filter_all A (f : A -> bool) (l : list A) :
  Forall (fun x => f x = true) l ->
  filter f l = l /\ filter (fun x => negb (f x)) l = [].
Proof.
  induction 1 as [| x l Hx _ [IH1 IH2]]; simpl; auto.
  rewrite Hx. simpl. rewrite IH1, IH2. auto.
Qed.

Lemma visited_then_stopped w target st st1 st2 rs ds pre a :
  visited w true target st st1 rs ds ->
  Forall (fun b => attempt_succeeds w true target b = true) ds ->
  stopped_at target st1 st2 pre a ->
  stopped_at target st st2 (ds ++ pre) a.
Proof.
  intros (ok1 & bad1 & (R1 & S1 & F1 & K1) & N1 & B1 & O1 & _) Hall
         (ok & bad & S2 & F2 & K2 & N2 & Nb & O2 & Ob & R2).
  destruct (filter_all _ Hall) as [Hf1 Hf2]. rewrite Hf1 in N1.
  rewrite Hf2 in B1. apply map_eq_nil in B1. subst bad1.
  exists (ok1 ++ ok), bad.
  rewrite S2, S1, F2, F1, K2, K1, !map_app, N1, N2, app_nil_r, app_assoc.
  repeat split; auto. apply Forall_app. auto.
Qed.

Lemma MigrateRepos_visit_spec this sourceOrg repo w st :
  MigrateRepos.dryRun this = false ->
  let target := MigrateRepos.targetOrg this in
  let a := mkAttempt sourceOrg repo (requests st) in
  if attempt_succeeds w true target a then
    exists st',
      MigrateRepos_visit this sourceOrg repo w st = (Normal tt, st')
      /\ visited w true target st st'
           (visit_requests true target sourceOrg [repo]) [a]
  else
    exists err st',
      MigrateRepos_visit this sourceOrg repo w st = (Throw err, st')
      /\ stopped_at target st st' [] a.
Proof.
  intros Hdry.
  unfold MigrateRepos_visit, MigrateRepos.transferRepository, visited,
    stopped_at, extends, attempt_succeeds, attempt_response, visit_requests,
    transfer_request.
  rewrite Hdry. run_js.
  - destruct (MigrateRepos.stopOnFailure this); simpl;
      do 2 eexists; (split; [reflexivity |]);
      eexists [], _; simpl; rewrite !app_nil_r;
      repeat split; try reflexivity; repeat constructor.
  - eexists. split; [reflexivity |]. eexists [_], []. simpl.
    rewrite !app_nil_r.
    repeat split; try reflexivity; repeat constructor.
Qed.

Lemma MigrateRepos_visits_ok this org repos w st :
  MigrateRepos.dryRun this = false ->
  let target := MigrateRepos.targetOrg this in
  Forall (fun b => attempt_succeeds w true target b = true)
         (visits true target org (requests st) repos) ->
  exists st',
    for_of repos (MigrateRepos_visit this org) w st = (Normal tt, st')
    /\ visited w true target st st'
         (visit_requests true target org repos)
         (visits true target org (requests st) repos).
Proof.
  intros Hdry target. subst target. revert st.
  induction repos as [| repo rest IH]; intros st Hall; cbn [for_of].
  - exists st. split; [reflexivity |]. apply visited_nil.
  - cbn [visits] in Hall. apply Forall_cons_iff in Hall.
    destruct Hall as [Hb Hrest].
    pose proof (MigrateRepos_visit_spec this org repo w st Hdry) as Hspec.
    cbv zeta in Hspec. rewrite Hb in Hspec.
    destruct Hspec as (st1 & Heq & Hv). unfold bind. rewrite Heq.
    rewrite <- (visited_requests Hv) in Hrest.
    destruct (IH st1 Hrest) as (st2 & -> & Hv').
    exists st2. split; [reflexivity |].
    rewrite visit_requests_cons. cbn [visits].
    change (?a :: ?l) with ([a] ++ l).
    eapply visited_app; [exact Hv |].
    rewrite <- (visited_requests Hv). exact Hv'.
Qed.

Lemma MigrateRepos_visits_stop this org repos w st pre a post :
  MigrateRepos.dryRun this = false ->
  let target := MigrateRepos.targetOrg this in
  visits true target org (requests st) repos = pre ++ a :: post ->
  Forall (fun b => attempt_succeeds w true target b = true) pre ->
  attempt_succeeds w true target a = false ->
  exists err st',
    for_of repos (MigrateRepos_visit this org) w st = (Throw err, st')
    /\ stopped_at target st st' pre a.
Proof.
  intros Hdry target. subst target. revert st pre.
  induction repos as [| repo rest IH]; intros st pre Hv Hpre Ha;
    cbn [visits] in Hv.
  - destruct pre; discriminate.
  - pose proof (MigrateRepos_visit_spec this org repo w st Hdry) as Hspec.
    cbv zeta in Hspec. cbn [for_of]. unfold bind.
    destruct pre as [| b pre]; cbn [app] in Hv; injection Hv as Hhd Htl.
    + subst a. rewrite Ha in Hspec.
      destruct Hspec as (err & st1 & -> & Hs). eauto.
    + subst b. apply Forall_cons_iff in Hpre. destruct Hpre as [Hb Hrest].
      rewrite Hb in Hspec. destruct Hspec as (st1 & -> & Hv1).
      pose proof (visited_requests Hv1) as Hq.
      cbn [visit_requests map] in Hq. rewrite <- Hq in Htl.
      destruct (IH st1 pre Htl Hrest Ha) as (err & st2 & -> & Hs).
      exists err, st2. split; [reflexivity |].
      change (?x :: pre) with ([x] ++ pre).
      eapply visited_then_stopped; eauto.
Qed.

Lemma stopped_at_same_start target st st1 st2 pre a :
  results st1 = results st ->
  stopped_at target st1 st2 pre a ->
  stopped_at target st st2 pre a.
Proof.
  intros Hr (ok & bad & H). exists ok, bad. rewrite <- Hr. exact H.
Qed.

Lemma MigrateRepos_migrate_stops this orgs w st pre a post :
  MigrateRepos.dryRun this = false ->
  let target := MigrateRepos.targetOrg this in
  discovery w true target (requests st) orgs = pre ++ a :: post ->
  Forall (fun b => attempt_succeeds w true target b = true) pre ->
  attempt_succeeds w true target a = false ->
  exists err st',
    MigrateRepos.migrateFromOrganizations this orgs w st = (Throw err, st')
    /\ stopped_at target st st' pre a.
Proof.
  intros Hdry target. subst target.
  unfold MigrateRepos.migrateFromOrganizations.
  change (fun repo : Repo =>
            result <- MigrateRepos.transferRepository this repo ?o ;;
            if negb (success result) && negb (MigrateRepos.dryRun this)
            then throw (Error "Migration stopped due to failure")
            else setTimeout 1000)
    with (MigrateRepos_visit this o).
  revert st pre.
  induction orgs as [| org rest IH]; intros st pre Hd Hpre Ha;
    cbn [discovery] in Hd.
  - destruct pre; discriminate.
  - cbn [for_of]. unfold bind at 1. unfold bind at 1.
    destruct (listing_spec (MigrateRepos.listRepositories this org) org w st
                (MigrateRepos_listRepositories_eq this org w st))
      as (st1 & -> & Hr1 & Hs1).
    rewrite <- Hr1 in Hd.
    apply app_eq_app_cons in Hd.
    destruct Hd as [(post1 & Hv & _) | (pre2 & -> & Hd)].
    + edestruct MigrateRepos_visits_stop as (err & st2 & -> & Hs);
        [exact Hdry | exact Hv | exact Hpre | exact Ha |].
      exists err, st2. split; [reflexivity |].
      eapply stopped_at_same_start; eauto.
    + apply Forall_app in Hpre. destruct Hpre as [Hl1 Hpre2].
      edestruct MigrateRepos_visits_ok as (st2 & -> & Hv);
        [exact Hdry | exact Hl1 |].
      assert (Hq : requests st2
                   = requests st
                     ++ GET_orgs_repos org
                        :: visit_requests true (MigrateRepos.targetOrg this)
                             org (listed w (requests st) org)).
      { rewrite (visited_requests Hv), Hr1, <- app_assoc. reflexivity. }
      rewrite <- Hq in Hd.
      destruct (IH st2 pre2 Hd Hpre2 Ha) as (err & st3 & -> & Hs).
      exists err, st3. split; [reflexivity |].
      eapply stopped_at_same_start; [exact Hs1 |].
      eapply visited_then_stopped; eauto.
Qed.

Lemma stopped_at_length target st st' pre a :
  stopped_at target st st' pre a ->
  length (outcomes (results st'))
  = length (outcomes (results st)) + length pre + 1.
Proof.
  intros (ok & bad & S & F & K & N & _).
  rewrite !outcomes_length, S, F, K, !length_app.
  rewrite <- (length_map attempt_name pre), <- N, length_map. simpl. lia.
Qed.

(** C2: in a live run of src/migrate-repos.js, let the repositories in
    discovery order be [pre], then [a], then [post], with the transfers of
    [pre] accepted and the transfer of [a] refused.  Then
    [migrateFromOrganizations] throws; the entries recorded are those of [pre]
    on [successful], in order, and the one of [a] on [failed]; they are
    [length pre + 1] in number; the refused transfer is the last request
    issued, so nothing of [post] is listed or transferred; and [run] ends the
    process with status 1 on these results.  ([stopOnFailure] is [true] in
    every object the constructor builds; the statement holds for both of its
    values.) *)
Theorem fail_fast_stops_at_first_failure :
  forall (this : MigrateRepos.RepositoryMigrator) (w : World) (st : State)
         (pre : list Attempt) (a : Attempt) (post : list Attempt),
    MigrateRepos.dryRun this = false ->
    let target := MigrateRepos.targetOrg this in
    let orgs := MigrateRepos.sourceOrgs this in
    discovery w true target (requests st) orgs = pre ++ a :: post ->
    Forall (fun b => attempt_succeeds w true target b = true) pre ->
    attempt_succeeds w true target a = false ->
    exists err st',
      MigrateRepos.migrateFromOrganizations this orgs w st = (Throw err, st')
      /\ stopped_at target st st' pre a
      /\ length (outcomes (results st'))
         = length (outcomes (results st)) + length pre + 1
      /\ exists st'',
          MigrateRepos.run this w st = (Exit 1, st'')
          /\ results st'' = results st'
          /\ requests st'' = requests st'.
Proof.
  intros this w st pre a post Hdry target orgs Hd Hpre Ha.
  subst target orgs.
  destruct (MigrateRepos_migrate_stops this _ w st _ _ Hdry Hd Hpre Ha)
    as (err & st' & Hrun & Hs).
  exists err, st'. split; [exact Hrun |]. split; [exact Hs |].
  split; [eapply stopped_at_length; eauto |].
  unfold MigrateRepos.run, try_catch.
  destruct (MigrateRepos.sourceOrgs this) as [| org rest] eqn:Horgs.
  - destruct pre; discriminate.
  - cbn [length Nat.ltb Nat.leb]. rewrite Hrun.
    eexists. split; [reflexivity |]. split; reflexivity.
Qed.

(** The live scenario of the specification: [r1] is transferred, the
    transfer of [r2] is refused, and organization ["B"] is never listed. *)
Lemma fail_fast_witness :
  let this := migrate_repos_migrator in
  let w := scenario_live in
  let pre := [mkAttempt "A" (repo_named "r1") [GET_orgs_repos "A"]] in
  let a := mkAttempt "A" (repo_named "r2")
                     [GET_orgs_repos "A"; POST_repos_transfer "A" "r1" "T"] in
  MigrateRepos.dryRun this = false
  /\ discovery w true "T" (requests boot) ["A"; "B"] = pre ++ a :: []
  /\ Forall (fun b => attempt_succeeds w true "T" b = true) pre
  /\ attempt_succeeds w true "T" a = false
  /\ exists err st',
      MigrateRepos.migrateFromOrganizations this ["A"; "B"] w boot
      = (Throw err, st')
      /\ stopped_at "T" boot st' pre a
      /\ length (outcomes (results st')) = 2.
Proof.
  intros this w pre a.
  assert (Hd : discovery w true "T" (requests boot) ["A"; "B"]
               = pre ++ a :: []) by reflexivity.
  assert (Hp : Forall (fun b => attempt_succeeds w true "T" b = true) pre).
  { constructor; [reflexivity | constructor]. }
  assert (Ha : attempt_succeeds w true "T" a = false) by reflexivity.
  split; [reflexivity |]. split; [exact Hd |]. split; [exact Hp |].
  split; [exact Ha |].
  destruct (@fail_fast_stops_at_first_failure this w boot pre a []
              eq_refl Hd Hp Ha) as (err & st' & Hrun & Hs & Hlen & _).
  exists err, st'. split; [exact Hrun |]. split; [exact Hs | exact Hlen].
Defined.

(** The scenario, evaluated on the whole program: exit status 1, [A/r1]
    successful, [A/r2] failed, and two requests after the listing of ["A"]:
    the two transfers. *)
Example scenario_live_stops :
  let st := snd (MigrateRepos.main scenario_live boot) in
  fst (MigrateRepos.main scenario_live boot) = Exit 1
  /\ map entry_repo (successful (results st)) = ["A/r1"]
  /\ map entry_repo (failed (results st)) = ["A/r2"]
  /\ skipped (results st) = []
  /\ requests st
     = [GET_orgs_repos "A"; POST_repos_transfer "A" "r1" "T";
        POST_repos_transfer "A" "r2" "T"].
Proof. vm_compute. repeat split. Qed.

(** * Totals and buckets of the report *)

#[local] Instance unsummarized_step_preorder : PreOrder unsummarized_step.
Proof. split; unfold unsummarized_step; [intros st | intros a b c]; auto. Qed.

Lemma unsummarized_same st st' :
  summary (results st') = summary (results st) ->
  files st' = files st ->
  unsummarized_step st st'.
Proof. intros Hs Hf [H1 H2]. split; [rewrite Hs | rewrite Hf]; auto. Qed.

Lemma unsummarized_direct A (m : Js A) :
  (forall w st,
      summary (results (snd (m w st))) = summary (results st)
      /\ files (snd (m w st)) = files st) ->
  steps unsummarized_step m.
Proof. intros H w st. apply unsummarized_same; apply H. Qed.

Lemma unsummarized_octokit_request r :
  steps unsummarized_step (octokit_request r).
Proof.
  intros w st. unfold octokit_request.
  destruct (github w (requests st) r); apply unsummarized_same; auto.
Qed.

Ltac unsummarized_auto :=
  steps_structure; try exact _;
  first [ apply unsummarized_octokit_request
        | apply unsummarized_direct; intros; split; reflexivity ].

Lemma unsummarized_counts st :
  unsummarized st ->
  summary_counts (results st)
  /\ Forall (fun f => summary_counts (snd f)) (files st).
Proof. intros [H1 H2]. split; auto. intros s Hs. congruence. Qed.

Lemma summarize_counts r timestamp dryRun :
  summary_counts
    (mkResults (successful r) (failed r) (skipped r)
               (Some (summarize r timestamp dryRun))).
Proof. intros s [= <-]. simpl. auto. Qed.

Lemma Part000_generateReport_counts this w st :
  Forall (fun f => summary_counts (snd f)) (files st) ->
  let st' := snd (Part000.generateReport this w st) in
  summary_counts (results st')
  /\ Forall (fun f => summary_counts (snd f)) (files st').
Proof.
  intros Hf. rewrite Part000_generateReport_eq. simpl.
  split; [apply summarize_counts |].
  apply Forall_app. split; [exact Hf |].
  constructor; [apply summarize_counts | constructor].
Qed.

(** [run] is [Part000_migration] followed by the report or, on an error of
    either, by one line on standard error and [process.exit(1)]. *)
Lemma Part000_run_eq this w st :
  Part000.run this w st
  = match Part000_migration this w st with
    | (Normal _, st2) =>
        match Part000.generateReport this w st2 with
        | (Throw e, st3) =>
            (Exit 1,
             with_lines st3
               [(level_error, ("💥 Migration failed: " ++ message e)%string)])
        | r => r
        end
    | (Throw e, st2) =>
        (Exit 1,
         with_lines st2
           [(level_error, ("💥 Migration failed: " ++ message e)%string)])
    | (Exit c, st2) => (Exit c, st2)
    end.
Proof.
  unfold Part000.run, Part000_migration, try_catch, bind.
  destruct (Part000.validateSetup this w st) as [[[] | e | c] st1];
    try reflexivity.
  destruct (Part000.existsSync "test-repos.json" w st1)
    as [[found | e | c] st1']; try reflexivity.
  destruct ((if found
             then Part000.migrateFromFile this "test-repos.json"
             else if (0 <? length (Part000.sourceOrgs this))%nat
                  then Part000.migrateFromOrganizations this
                         (Part000.sourceOrgs this)
                  else throw (Error "No source organizations specified and no repos file found"))
              w st1') as [[[] | e | c] st2]; try reflexivity.
Qed.

Lemma Part000_migration_unsummarized this :
  steps unsummarized_step (Part000_migration this).
Proof.
  unfold Part000_migration. steps_structure; try exact _;
    try unfold Part000.transferRepository; unsummarized_auto.
Qed.

Lemma Part000_run_counts this w st :
  unsummarized st ->
  let st' := snd (Part000.run this w st) in
  summary_counts (results st')
  /\ Forall (fun f => summary_counts (snd f)) (files st').
Proof.
  intros H0. rewrite Part000_run_eq.
  pose proof (Part000_migration_unsummarized this) as H1.
  specialize (H1 w st H0).
  destruct (Part000_migration this w st) as [[[] | e | c] st2]; simpl in H1.
  - pose proof (@Part000_generateReport_counts this w st2 (proj2 H1)) as G.
    cbv zeta in G.
    destruct (Part000.generateReport this w st2) as [[[] | e | c] st3];
      exact G.
  - apply unsummarized_counts.
    apply (unsummarized_same (st := st2)); auto.
  - apply unsummarized_counts. exact H1.
Qed.

Lemma unsummarized_constructed n : unsummarized (constructed n).
Proof. split; simpl; auto. Qed.

Lemma Part000_main_counts w :
  let st := snd (Part000.main w boot) in
  summary_counts (results st)
  /\ Forall (fun f => summary_counts (snd f)) (files st).
Proof.
  rewrite Part000_main_eq.
  destruct (is_entry_point w);
    [| apply unsummarized_counts; apply (unsummarized_constructed 0)].
  destruct (TARGET_ORG w) as [[| c s] |];
    try (apply unsummarized_counts; apply (unsummarized_constructed 0)).
  apply Part000_run_counts. apply unsummarized_constructed.
Qed.

(** Names that are all different on [l] are different across the two halves
    of a partition of [l]. *)
Lemma NoDup_partition_names A B (f : A -> B) (p : A -> bool) (l : list A) :
  NoDup (map f l) ->
  forall x y,
    In x (filter p l) -> In y (filter (fun a => negb (p a)) l) -> f x <> f y.
Proof.
  induction l as [| a l IH]; simpl; intros Hnd x y Hx Hy; [destruct Hx |].
  apply NoDup_cons_iff in Hnd. destruct Hnd as [Hnotin Hnd].
  assert (Hin : forall q z, In z (filter q l) -> In (f z) (map f l)).
  { intros q z Hz. apply in_map. apply filter_In in Hz. tauto. }
  destruct (p a); simpl in Hx, Hy.
  - destruct Hx as [<- | Hx]; [| eauto].
    intros Heq. apply Hnotin. rewrite Heq. eauto.
  - destruct Hy as [<- | Hy]; [| eauto].
    intros Heq. apply Hnotin. rewrite <- Heq. eauto.
Qed.

Lemma visited_disjoint w live target st st' rs ds :
  visited w live target st st' rs ds ->
  outcomes (results st) = [] ->
  NoDup (map attempt_name ds) ->
  buckets_disjoint (results st').
Proof.
  intros (ok & bad & (_ & S & F & K) & N & B & _) Hempty Hnd.
  unfold outcomes in Hempty.
  apply app_eq_nil in Hempty. destruct Hempty as [Hs Hrest].
  apply app_eq_nil in Hrest. destruct Hrest as [Hf Hk].
  rewrite Hs in S. rewrite Hf in F. rewrite Hk in K. simpl in S, F.
  unfold buckets_disjoint, disjoint_names. rewrite S, F, K.
  split; [| split; intros e1 e2 _ []].
  intros e1 e2 H1 H2.
  apply (in_map entry_repo) in H1, H2. rewrite N in H1. rewrite B in H2.
  apply in_map_iff in H1, H2.
  destruct H1 as (x & <- & Hx). destruct H2 as (y & <- & Hy).
  eapply NoDup_partition_names; eauto.
Qed.

(** ** The attempts of a whole run *)

Lemma visited_quiet w live target st st' rs :
  requests st' = requests st ++ rs ->
  successful (results st') = successful (results st) ->
  failed (results st') = failed (results st) ->
  skipped (results st') = skipped (results st) ->
  visited w live target st st' rs [].
Proof.
  intros R S F K. exists [], []. unfold extends.
  rewrite R, S, F, K, !app_nil_r. simpl. auto.
Qed.

Lemma visited_then_quiet w live target st st1 st2 rs ds :
  visited w live target st st1 rs ds ->
  requests st2 = requests st1 ->
  successful (results st2) = successful (results st1) ->
  failed (results st2) = failed (results st1) ->
  skipped (results st2) = skipped (results st1) ->
  visited w live target st st2 rs ds.
Proof.
  intros V R S F K.
  assert (Q : visited w live target st1 st2 [] []).
  { apply visited_quiet; auto. rewrite app_nil_r. exact R. }
  pose proof (visited_app V Q) as H. rewrite !app_nil_r in H. exact H.
Qed.

Lemma Part000_orgMatch_file_owner repo w st :
  Part000.orgMatch repo w st
  = (match file_owner repo with
     | Owned owner => Normal (Some owner)
     | Unowned => Normal None
     | Broken =>
         Throw (Error "Cannot read properties of undefined (reading 'match')")
     end, st).
Proof.
  unfold Part000.orgMatch, String_match, file_owner, bind.
  destruct (url repo) as [u |]; [| reflexivity]. cbn [ret].
  destruct (owner_match "github.com/" u); [reflexivity |].
  destruct (sshUrl repo) as [s |]; [| reflexivity]. cbn [ret].
  destruct (owner_match "github.com:" s); reflexivity.
Qed.

(** The loop of [migrateFromFile] makes the attempts of the file, and ends
    normally or with the [TypeError] of a broken entry. *)
Lemma Part000_file_visits this repos w st :
  let live := negb (Part000.dryRun this) in
  let target := Part000.targetOrg this in
  exists c st',
    for_of repos (Part000_import this) w st = (c, st')
    /\ (c = Normal tt \/ exists e, c = Throw e)
    /\ visited w live target st st'
         (file_requests live target repos)
         (file_attempts live target (requests st) repos).
Proof.
  intros live target. subst live target. revert st.
  induction repos as [| repo rest IH]; intros st;
    cbn [for_of file_requests file_attempts].
  - exists (Normal tt), st. split; [reflexivity |]. split; [auto |].
    apply visited_nil.
  - unfold bind at 1. unfold Part000_import at 1. unfold bind at 1.
    rewrite Part000_orgMatch_file_owner.
    destruct (file_owner repo) as [owner | |].
    + change (_ <- Part000.transferRepository this repo owner ;;
              setTimeout 1000)
        with (Part000_visit this owner repo).
      destruct (Part000_visit_spec this owner repo w st) as (st1 & -> & Hv).
      destruct (IH st1) as (c & st2 & -> & Hc & Hv').
      exists c, st2. split; [reflexivity |]. split; [exact Hc |].
      change (?a :: ?l) with ([a] ++ l).
      eapply visited_app; [exact Hv |].
      rewrite <- (visited_requests Hv). exact Hv'.
    + unfold console_warn, console.
      destruct (IH (mkState (results st) (requests st)
                            (stderr st
                             ++ [(level_warn,
                                  ("⚠️  Could not determine organization for "
                                   ++ name repo)%string)])
                            (files st) (clock_reads st) (slept st)))
        as (c & st2 & -> & Hc & Hv').
      exists c, st2. split; [reflexivity |]. split; [exact Hc |].
      destruct Hv' as (ok & bad & (R & S & F & K) & N).
      exists ok, bad. split; [| exact N]. repeat split; assumption.
    + exists (Throw (Error "Cannot read properties of undefined (reading 'match')")),
        st.
      split; [reflexivity |]. split; [eauto |]. apply visited_nil.
Qed.

Lemma Part000_migrateFromFile_visits this path w st :
  let live := negb (Part000.dryRun this) in
  let target := Part000.targetOrg this in
  exists rs st',
    Part000.migrateFromFile this path w st = (Normal tt, st')
    /\ visited w live target st st' rs
         match disk w path with
         | RepoArray repos => file_attempts live target (requests st) repos
         | _ => []
         end.
Proof.
  intros live target. subst live target.
  unfold Part000.migrateFromFile, try_catch.
  change (fun repo : Repo =>
            m <- Part000.orgMatch repo ;;
            match m with
            | Some sourceOrg =>
                _ <- Part000.transferRepository this repo sourceOrg ;;
                setTimeout 1000
            | None =>
                console_warn ("⚠️  Could not determine organization for "
                              ++ name repo)%string
            end)
    with (Part000_import this).
  unfold bind at 1. unfold Part000.read_repos. unfold bind at 1.
  unfold world. cbv beta iota.
  destruct (disk w path) as [msg | msg | repos].
  - exists []. eexists. split; [reflexivity |].
    apply visited_quiet; try reflexivity. simpl. rewrite app_nil_r.
    reflexivity.
  - exists []. eexists. split; [reflexivity |].
    apply visited_quiet; try reflexivity. simpl. rewrite app_nil_r.
    reflexivity.
  - unfold ret at 1. cbv beta iota.
    destruct (Part000_file_visits this repos w st)
      as (c & st1 & -> & [-> | [e ->]] & Hv).
    + eexists. exists st1. split; [reflexivity | exact Hv].
    + eexists. eexists. split; [reflexivity |].
      eapply visited_then_quiet; [exact Hv | | | |]; reflexivity.
Qed.

Lemma validation_table_quiet warnings w st target :
  exists rs,
    requests (snd (validation_table warnings w st target))
    = requests st ++ rs
    /\ results (snd (validation_table warnings w st target)) = results st.
Proof.
  unfold validation_table, membership_step.
  destruct (auth_response w st); [eexists; split; reflexivity |].
  destruct (org_response w st target); [eexists; split; reflexivity |].
  destruct (login_response w st target) as [e | login];
    [eexists; split; reflexivity |].
  destruct (membership_response w st target login) as [e | role];
    [eexists; split; reflexivity |].
  destruct (includes _ role); eexists; split; reflexivity.
Qed.

(** What [run] does before the report makes the attempts of the run. *)
Lemma Part000_migration_visits this w st :
  let live := negb (Part000.dryRun this) in
  let target := Part000.targetOrg this in
  exists rs,
    visited w live target st (snd (Part000_migration this w st)) rs
            (Part000_attempts this w st).
Proof.
  intros live target. subst live target.
  unfold Part000_migration, Part000_attempts. unfold bind at 1.
  destruct (validation_table_quiet
              (fun msg => [permission_warning msg]) w st
              (Part000.targetOrg this)) as (rs0 & R0 & S0).
  rewrite <- Part000_validateSetup_table in R0, S0.
  destruct (Part000.validateSetup this w st) as [[[] | e | c] st1];
    cbn [snd] in R0, S0.
  2, 3: exists rs0; apply visited_quiet; cbn [snd]; rewrite ?S0; auto.
  assert (V0 : visited w (negb (Part000.dryRun this)) (Part000.targetOrg this)
                       st st1 rs0 []).
  { apply visited_quiet; rewrite ?S0; auto. }
  unfold bind at 1. unfold Part000.existsSync, bind at 1, world.
  cbv beta iota.
  destruct (disk w "test-repos.json") as [msg | msg | repos] eqn:Hd;
    unfold ret at 1; cbv beta iota.
  - destruct (Part000.sourceOrgs this) as [| org rest] eqn:Horgs.
    + exists rs0. cbn. exact V0.
    + cbn [length Nat.ltb Nat.leb].
      destruct (Part000_migrate_visits this (org :: rest) w st1)
        as (st2 & -> & Hv).
      eexists. apply (visited_app V0 Hv).
  - destruct (Part000_migrateFromFile_visits this "test-repos.json" w st1)
      as (rs & st2 & -> & Hv).
    rewrite Hd in Hv. eexists. apply (visited_app V0 Hv).
  - destruct (Part000_migrateFromFile_visits this "test-repos.json" w st1)
      as (rs & st2 & -> & Hv).
    rewrite Hd in Hv. eexists. apply (visited_app V0 Hv).
Qed.

Lemma Part000_run_visits this w st :
  let live := negb (Part000.dryRun this) in
  let target := Part000.targetOrg this in
  exists rs,
    visited w live target st (snd (Part000.run this w st)) rs
            (Part000_attempts this w st).
Proof.
  intros live target. subst live target.
  destruct (Part000_migration_visits this w st) as (rs & Hv).
  exists rs. rewrite Part000_run_eq.
  destruct (Part000_migration this w st) as [[[] | e | c] st2];
    cbn [snd] in Hv.
  - rewrite Part000_generateReport_eq.
    destruct (write_completion w (files st2) (Part000.logFile this));
      (eapply visited_then_quiet; [exact Hv | | | |]; reflexivity).
  - eapply visited_then_quiet; [exact Hv | | | |]; reflexivity.
  - exact Hv.
Qed.

(** The target and the mode of the program. *)
Lemma Part000_main_visits w :
  let live := includes (argv w) "--execute" in
  let target := match TARGET_ORG w with
                | Some t => t
                | None => EmptyString
                end in
  exists rs,
    visited w live target boot (snd (Part000.main w boot)) rs
            (Part000_main_attempts w).
Proof.
  intros live target. subst live target.
  rewrite Part000_main_eq. unfold Part000_main_attempts.
  destruct (is_entry_point w); [| exists []; apply visited_nil].
  destruct (TARGET_ORG w) as [[| c s] |];
    try (exists []; apply visited_nil).
  destruct (Part000_run_visits (Part000_constructed w (String c s)) w
                               (constructed 1)) as (rs & Hv).
  cbn [Part000_constructed Part000.dryRun Part000.targetOrg] in Hv.
  rewrite negb_involutive in Hv.
  assert (Q : visited w (includes (argv w) "--execute") (String c s)
                      boot (constructed 1) [] []).
  { apply visited_quiet; reflexivity. }
  exists rs. exact (visited_app Q Hv).
Qed.

(** C5, as amended: [generateReport] of src/unnamed/part_000 leaves the
    buckets as they are and computes [total] as the sum of their sizes; at
    the end of the program the summary, and the summary of every report
    written, agree with their buckets; [run] records the repositories that
    it attempts (those of [test-repos.json] when it is read, otherwise those
    of the source organizations in discovery order), each under its identity
    on [successful] or on [failed]; and after [run], started on empty
    buckets, and at the end of the program, the buckets are pairwise
    disjoint by repository identity when the repositories attempted have
    pairwise different identities. *)
Theorem report_totals_and_buckets :
  (forall (this : Part000.RepositoryMigrator) (w : World) (st : State),
      let st' := snd (Part000.generateReport this w st) in
      successful (results st') = successful (results st)
      /\ failed (results st') = failed (results st)
      /\ skipped (results st') = skipped (results st)
      /\ (exists s, summary (results st') = Some s)
      /\ summary_counts (results st')
      /\ persisted_last (Part000.logFile this) (results st') st')
  /\ (forall w : World,
      let st := snd (Part000.main w boot) in
      summary_counts (results st)
      /\ Forall (fun f => summary_counts (snd f)) (files st))
  /\ (forall (this : Part000.RepositoryMigrator) (w : World) (st : State),
      exists rs,
        visited w (negb (Part000.dryRun this)) (Part000.targetOrg this)
                st (snd (Part000.run this w st)) rs
                (Part000_attempts this w st))
  /\ (forall (this : Part000.RepositoryMigrator) (w : World) (st : State),
      outcomes (results st) = [] ->
      NoDup (map attempt_name (Part000_attempts this w st)) ->
      buckets_disjoint (results (snd (Part000.run this w st))))
  /\ (forall w : World,
      NoDup (map attempt_name (Part000_main_attempts w)) ->
      buckets_disjoint (results (snd (Part000.main w boot)))).
Proof.
  split; [| split; [| split; [| split]]].
  - intros this w st st'. subst st'. rewrite Part000_generateReport_eq.
    simpl. split; [reflexivity |]. split; [reflexivity |].
    split; [reflexivity |]. split; [eexists; reflexivity |].
    split; [apply summarize_counts | eexists; reflexivity].
  - exact Part000_main_counts.
  - intros this w st. apply Part000_run_visits.
  - intros this w st Hempty Hnd.
    destruct (Part000_run_visits this w st) as (rs & Hv).
    eapply visited_disjoint; eauto.
  - intros w Hnd.
    destruct (Part000_main_visits w) as (rs & Hv).
    eapply visited_disjoint; eauto.
Qed.

(** The live scenario: [r1] is transferred and [r2] refused; they have
    different identities, and the buckets, neither of them empty, are
    disjoint. *)
Lemma report_totals_and_buckets_witness :
  let this := part000_live_migrator in
  let w := scenario_live in
  let st := constructed 1 in
  let st' := snd (Part000.run this w st) in
  outcomes (results st) = []
  /\ NoDup (map attempt_name (Part000_attempts this w st))
  /\ map entry_repo (successful (results st')) = ["A/r1"]
  /\ map entry_repo (failed (results st')) = ["A/r2"]
  /\ buckets_disjoint (results st').
Proof.
  intros this w st st'.
  assert (Hnd : NoDup (map attempt_name (Part000_attempts this w st))).
  { vm_compute. repeat constructor; simpl; intuition discriminate. }
  split; [reflexivity |]. split; [exact Hnd |].
  split; [vm_compute; reflexivity |]. split; [vm_compute; reflexivity |].
  exact (proj1 (proj2 (proj2 (proj2 report_totals_and_buckets))) this w st
               eq_refl Hnd).
Defined.

(** C5, as stated, fails: the buckets need not be disjoint by repository
    identity.  When ["A"] is named twice in [SOURCE_ORGS] and still lists
    [r1] after its transfer, or when [test-repos.json] has [r1] twice, the
    first transfer is accepted and the second refused: the run ends
    normally, the report is finalized with a total of 2, and [A/r1] is both
    in [successful] and in [failed]. *)
Lemma buckets_not_disjoint :
  (let run := Part000.main world_org_twice boot in
   fst run = Normal tt
   /\ option_map Summary.total (summary (results (snd run))) = Some 2
   /\ map entry_repo (successful (results (snd run))) = ["A/r1"]
   /\ map entry_repo (failed (results (snd run))) = ["A/r1"]
   /\ ~ buckets_disjoint (results (snd run)))
  /\ (let run := Part000.main world_file_twice boot in
      fst run = Normal tt
      /\ option_map Summary.total (summary (results (snd run))) = Some 2
      /\ map entry_repo (successful (results (snd run))) = ["A/r1"]
      /\ map entry_repo (failed (results (snd run))) = ["A/r1"]
      /\ ~ buckets_disjoint (results (snd run))).
Proof.
  split; cbv zeta.
  - repeat (split; [vm_compute; reflexivity |]).
    intros (H & _).
    remember (results (snd (Part000.main world_org_twice boot))) as r eqn:Hr.
    vm_compute in Hr. subst r.
    eapply H; simpl; eauto.
  - repeat (split; [vm_compute; reflexivity |]).
    intros (H & _).
    remember (results (snd (Part000.main world_file_twice boot))) as r eqn:Hr.
    vm_compute in Hr. subst r.
    eapply H; simpl; eauto.
Qed.

(** * Further properties *)

Lemma Part000_kind_run this : steps kind_step (Part000.run this).
Proof.
  unfold Part000.run. steps_structure; try exact _;
    try unfold Part000.transferRepository; steps_auto.
Qed.

(** In src/unnamed/part_000, at the end of the program, [successful] holds
    the entries of exactly the attempts that the remote accepted (in a dry
    run, of all attempts), in the order of the attempts, and [failed] those
    of the attempts it refused; the entries of [successful] report a
    transfer as done or simulated, those of [failed] as refused, and
    [skipped] holds nothing: no entry is in a bucket of the wrong kind. *)
Theorem buckets_sorted_by_kind :
  forall w : World,
    let live := includes (argv w) "--execute" in
    let target := match TARGET_ORG w with
                  | Some t => t
                  | None => EmptyString
                  end in
    let attempts := Part000_main_attempts w in
    let r := results (snd (Part000.main w boot)) in
    sorted_by_kind r
    /\ map entry_repo (successful r)
       = map attempt_name (filter (attempt_succeeds w live target) attempts)
    /\ map entry_repo (failed r)
       = map attempt_name
           (filter (fun a => negb (attempt_succeeds w live target a))
                   attempts).
Proof.
  intros w live target attempts r. subst live target attempts r.
  destruct (Part000_main_visits w)
    as (rs & ok & bad & (_ & S & F & K) & N & B & Hok & Hbad).
  cbn [boot results successful failed skipped empty_results] in S, F, K.
  simpl app in S, F.
  unfold sorted_by_kind. rewrite S, F, K. auto.
Qed.

(** In src/export-users.js every path through [run] ends with a call of
    [generateReport]: the last call of [writeFileSync] carries the final
    [this.results], summary included.  When the file system accepts that
    call, [run] ends normally or with [process.exit(1)]; when it throws, the
    error escapes [run], whose handler calls [generateReport] before
    [process.exit(1)]. *)
Theorem export_users_run_persists_report :
  forall (this : ExportUsers.RepositoryMigrator) (w : World) (st : State),
    let r := ExportUsers.run this w st in
    ends_with_report w (ExportUsers.logFile this) (fst r) (snd r)
    /\ persisted_last (ExportUsers.logFile this) (results (snd r)) (snd r)
    /\ exists s, summary (results (snd r)) = Some s.
Proof.
  intros this w st r. subst r.
  destruct (ExportUsers.run this w st) as [c st'] eqn:E.
  destruct (ExportUsers_run_always_persists this w st E) as [H1 H2].
  split; [exact H1 |]. split; [| exact H2].
  destruct H1 as (earlier & Hf & _). exists earlier. exact Hf.
Qed.

(** * Splitting strings *)

Lemma split_not_nil sep s : split sep s <> [].
Proof.
  destruct s as [| c s]; simpl; [discriminate |].
  destruct (Ascii.eqb c sep); [discriminate |].
  destruct (split sep s); discriminate.
Qed.

Lemma split_without_separator sep s :
  contains sep s = false -> split sep s = [s].
Proof.
  induction s as [| c s IH]; simpl; [reflexivity |].
  intros H. apply orb_false_iff in H. destruct H as [Hc Hs].
  rewrite Hc, (IH Hs). reflexivity.
Qed.

Lemma split_app_separator sep p rest :
  contains sep p = false ->
  split sep (p ++ String sep rest)%string = p :: split sep rest.
Proof.
  induction p as [| c p IH]; simpl.
  - intros _. rewrite Ascii.eqb_refl. reflexivity.
  - intros H. apply orb_false_iff in H. destruct H as [Hc Hp].
    rewrite Hc, (IH Hp). reflexivity.
Qed.

(** [split] and [join] are inverse to each other: joining the pieces of a
    string gives the string back; the pieces are one more than the
    separators and contain none; and splitting a join of separator-free
    pieces, at least one, gives the pieces back.  In particular
    [SOURCE_ORGS.split(',')] is never the empty array. *)
Theorem split_join_round_trip :
  forall (sep : ascii),
    (forall s,
        join sep (split sep s) = s
        /\ length (split sep s) = S (occurrences sep s)
        /\ Forall (fun piece => contains sep piece = false) (split sep s))
    /\ (forall piece pieces,
          Forall (fun p => contains sep p = false) (piece :: pieces) ->
          split sep (join sep (piece :: pieces)) = piece :: pieces).
Proof.
  intros sep. split.
  - induction s as [| c s (IHj & IHl & IHf)]; simpl.
    + repeat split. repeat constructor.
    + pose proof (split_not_nil sep s) as Hne.
      destruct (Ascii.eqb c sep) eqn:Hc.
      * apply Ascii.eqb_eq in Hc. subst c.
        destruct (split sep s) as [| p ps] eqn:Hs; [contradiction |].
        unfold join in *. simpl in *.
        rewrite IHj, IHl. repeat split. constructor; auto.
      * destruct (split sep s) as [| p ps] eqn:Hs; [contradiction |].
        unfold join in *. simpl in *.
        apply Forall_cons_iff in IHf. destruct IHf as [Hp Hps].
        split; [| split; [exact IHl |]].
        -- destruct ps; simpl in *; subst; reflexivity.
        -- constructor; [simpl; rewrite Hc, Hp; reflexivity | exact Hps].
  - intros piece pieces. revert piece.
    induction pieces as [| q qs IH]; intros piece H;
      apply Forall_cons_iff in H; destruct H as [Hp Hrest].
    + unfold join. simpl. apply split_without_separator. exact Hp.
    + unfold join in *. cbn [String.concat].
      change (String sep EmptyString ++ ?x)%string with (String sep x).
      rewrite split_app_separator by exact Hp.
      f_equal. apply (IH q Hrest).
Qed.

(** The three organizations of the README, split and joined back. *)
Lemma split_join_round_trip_witness :
  Forall (fun p => contains "," p = false) ["senacor"; "org2"; "org3"]
  /\ split "," (join "," ["senacor"; "org2"; "org3"])
     = ["senacor"; "org2"; "org3"].
Proof.
  assert (H : Forall (fun p => contains "," p = false)
                     ["senacor"; "org2"; "org3"]).
  { repeat constructor. }
  split; [exact H |].
  exact (proj2 (split_join_round_trip ",") "senacor" ["org2"; "org3"] H).
Defined.

(** * Extracting the owner from a URL *)

Lemma drop_prefix_sound p s r : drop_prefix p s = Some r -> s = (p ++ r)%string.
Proof.
  revert s. induction p as [| a p IH]; intros s; simpl.
  - intros [= ->]. reflexivity.
  - destruct s as [| b s]; [discriminate |].
    destruct (Ascii.eqb a b) eqn:E; [| discriminate].
    apply Ascii.eqb_eq in E. subst b. intros H. rewrite (IH _ H). reflexivity.
Qed.

Lemma drop_prefix_app p r : drop_prefix p (p ++ r)%string = Some r.
Proof.
  induction p as [| a p IH]; simpl; [reflexivity |].
  rewrite Ascii.eqb_refl. exact IH.
Qed.

Lemma segment_sound s seg tail :
  segment s = (seg, tail) ->
  s = (seg ++ tail)%string
  /\ contains "/" seg = false
  /\ (tail = EmptyString \/ exists t, tail = String "/" t).
Proof.
  revert seg tail. induction s as [| c s IH]; simpl; intros seg tail.
  - intros [= <- <-]. auto.
  - destruct (Ascii.eqb c "/") eqn:E.
    + apply Ascii.eqb_eq in E. subst c. intros [= <- <-]. eauto.
    + destruct (segment s) as [seg' tail'].
      destruct (IH seg' tail' eq_refl) as (-> & Hc & Ht).
      intros [= <- <-]. simpl. rewrite E. auto.
Qed.

Lemma segment_app owner after :
  contains "/" owner = false ->
  segment (owner ++ String "/" after)%string = (owner, String "/" after).
Proof.
  induction owner as [| c o IH]; simpl; [reflexivity |].
  intros H. apply orb_false_iff in H. destruct H as [Hc Ho].
  rewrite Hc, (IH Ho). reflexivity.
Qed.

Lemma owner_at_sound literal s owner :
  owner_at literal s = Some owner -> frames_owner literal owner s.
Proof.
  unfold owner_at.
  destruct (drop_prefix literal s) as [rest |] eqn:Hd; [| discriminate].
  apply drop_prefix_sound in Hd.
  destruct (segment rest) as [seg tail] eqn:Hs.
  destruct (segment_sound _ Hs) as (Hrest & Hc & _).
  destruct seg as [| c seg]; [discriminate |].
  destruct tail as [| t tail]; [discriminate |].
  destruct (Ascii.eqb t "/") eqn:Ht.
  - apply Ascii.eqb_eq in Ht. subst t. intros [= <-].
    split; [discriminate | split; [exact Hc |]].
    exists EmptyString, tail. subst. reflexivity.
  - assert (t <> "/"%char) by (apply Ascii.eqb_neq; exact Ht).
    destruct t as [[] [] [] [] [] [] [] []]; try discriminate.
Qed.

Lemma owner_at_complete literal owner after :
  owner <> EmptyString ->
  contains "/" owner = false ->
  owner_at literal (literal ++ owner ++ String "/" after)%string = Some owner.
Proof.
  intros Hne Hc. unfold owner_at.
  rewrite drop_prefix_app, segment_app by exact Hc.
  destruct owner; [contradiction | reflexivity].
Qed.

Lemma owner_match_here literal s owner :
  owner_at literal s = Some owner -> owner_match literal s = Some owner.
Proof. intros H. destruct s; simpl; rewrite H; reflexivity. Qed.

Lemma owner_match_sound literal s owner :
  owner_match literal s = Some owner -> frames_owner literal owner s.
Proof.
  induction s as [| c s IH]; simpl.
  - destruct (owner_at literal EmptyString) eqn:E; [| discriminate].
    intros [= ->]. apply owner_at_sound. exact E.
  - destruct (owner_at literal (String c s)) eqn:E.
    + intros [= ->]. apply owner_at_sound. exact E.
    + intros H. destruct (IH H) as (Hne & Hc & before & after & ->).
      split; [exact Hne | split; [exact Hc |]].
      exists (String c before), after. reflexivity.
Qed.

Lemma owner_match_found literal owner before after :
  owner <> EmptyString ->
  contains "/" owner = false ->
  owner_match literal (before ++ literal ++ owner ++ String "/" after)%string
  <> None.
Proof.
  intros Hne Hc. induction before as [| c before IH].
  - simpl append. erewrite owner_match_here; [discriminate |].
    apply owner_at_complete; assumption.
  - cbn [append owner_match].
    destruct (owner_at literal _); [discriminate | exact IH].
Qed.

(** The regular expressions of [migrateFromFile], [literal([^\/]+)\/] with
    [literal] one of [github\.com\/] and [github\.com:], find an owner
    exactly when the string has [literal] followed by a non-empty run
    without slash and a slash; the owner they return is such a run, so it is
    never empty and never contains a slash. *)
Theorem owner_match_finds_framed_owner :
  forall literal s : string,
    (forall owner,
        owner_match literal s = Some owner -> frames_owner literal owner s)
    /\ (owner_match literal s = None
        <-> ~ exists owner, frames_owner literal owner s).
Proof.
  intros literal s. split; [intros owner; apply owner_match_sound |].
  split.
  - intros Hnone (owner & Hne & Hc & before & after & ->).
    exact (owner_match_found literal before after Hne Hc Hnone).
  - intros Hno. destruct (owner_match literal s) as [owner |] eqn:E; auto.
    destruct Hno. exists owner. apply owner_match_sound. exact E.
Qed.

Lemma owner_match_skip literal c s :
  owner_at literal (String c s) = None ->
  owner_match literal (String c s) = owner_match literal s.
Proof. intros H. cbn [owner_match]. rewrite H. reflexivity. Qed.

Lemma owner_match_https org repo :
  org <> EmptyString ->
  contains "/" org = false ->
  owner_match "github.com/" (https_url org repo) = Some org.
Proof.
  intros Hne Hc. unfold https_url. cbn [append].
  do 8 (rewrite owner_match_skip by reflexivity).
  apply owner_match_here.
  exact (owner_at_complete "github.com/" repo Hne Hc).
Qed.

Lemma owner_match_ssh org repo :
  org <> EmptyString ->
  contains "/" org = false ->
  owner_match "github.com:" (ssh_url org repo) = Some org.
Proof.
  intros Hne Hc. unfold ssh_url. cbn [append].
  do 4 (rewrite owner_match_skip by reflexivity).
  apply owner_match_here.
  exact (owner_at_complete "github.com:" (repo ++ ".git") Hne Hc).
Qed.

(** For an entry of [test-repos.json] as [gh repo list] writes it,
    [migrateFromFile] takes the organization from [url]; [sshUrl] is not
    looked at, so it may be missing.  When [url] is a string that does not
    match, the organization is taken from [sshUrl].  In both cases the
    organization found is the one in the URL. *)
Theorem orgMatch_prefers_url :
  forall (org : string) (repo : Repo) (w : World) (st : State),
    org <> EmptyString ->
    contains "/" org = false ->
    (url repo = Some (https_url org (name repo)) ->
     Part000.orgMatch repo w st = (Normal (Some org), st))
    /\ (forall u,
          url repo = Some u ->
          owner_match "github.com/" u = None ->
          sshUrl repo = Some (ssh_url org (name repo)) ->
          Part000.orgMatch repo w st = (Normal (Some org), st)).
Proof.
  intros org repo w st Hne Hc. split.
  - intros Hu. unfold Part000.orgMatch, String_match, bind. rewrite Hu.
    cbn [ret]. rewrite (owner_match_https (name repo) Hne Hc). reflexivity.
  - intros u Hu Hnone Hs.
    unfold Part000.orgMatch, String_match, bind. rewrite Hu, Hs.
    cbn [ret]. rewrite Hnone, (owner_match_ssh (name repo) Hne Hc).
    reflexivity.
Qed.

(** The README's example repository, with only its [url]. *)
Lemma orgMatch_prefers_url_witness :
  let repo := mkRepo "elasticsearch-evolution"
                     (Some (https_url "senacor" "elasticsearch-evolution"))
                     None in
  "senacor" <> EmptyString
  /\ contains "/" "senacor" = false
  /\ Part000.orgMatch repo scenario_dry boot = (Normal (Some "senacor"), boot).
Proof.
  intros repo.
  assert (Hne : "senacor" <> EmptyString) by discriminate.
  assert (Hc : contains "/" "senacor" = false) by reflexivity.
  split; [exact Hne | split; [exact Hc |]].
  exact (proj1 (@orgMatch_prefers_url "senacor" repo scenario_dry boot Hne Hc)
               eq_refl).
Defined.

(** * The name of the log file *)

(** The log file is named after the date part of the constructor's clock
    reading: for an ISO timestamp [date ++ "T" ++ time] it is
    [migration-log-date.json], whatever the time, so every run of a day
    writes to the same file. *)
Theorem log_file_name_is_the_date :
  forall date time : string,
    contains "T" date = false ->
    log_file_name (date ++ String "T" time)
    = ("migration-log-" ++ date ++ ".json")%string.
Proof.
  intros date time H. unfold log_file_name.
  rewrite split_app_separator by exact H. reflexivity.
Qed.

Lemma log_file_name_witness :
  contains "T" "2025-01-24" = false
  /\ log_file_name "2025-01-24T23:59:59.999Z"
     = "migration-log-2025-01-24.json".
Proof.
  split; [reflexivity |].
  exact (@log_file_name_is_the_date "2025-01-24" "23:59:59.999Z" eq_refl).
Defined.

(** * The scheduler, whatever the script *)

Section Scheduler.

Variables (w : World) (live : bool) (target : string).
Variable list_repos : string -> Js (list Repo).
Variable visit : string -> Repo -> Js unit.

Hypothesis list_repos_outcome :
  forall org st, list_repos org w st = listing_outcome w st org.
Hypothesis visit_spec :
  forall org repo st, visit_outcome w live target (visit org repo) org repo st.

Let succeeds (a : Attempt) : Prop := attempt_succeeds w live target a = true.

Lemma scheduler_visited_then_stopped st st1 st2 rs ds pre a :
  visited w live target st st1 rs ds ->
  Forall succeeds ds ->
  stopped_at target st1 st2 pre a ->
  stopped_at target st st2 (ds ++ pre) a.
Proof.
  intros (ok1 & bad1 & (R1 & S1 & F1 & K1) & N1 & B1 & O1 & _) Hall
         (ok & bad & S2 & F2 & K2 & N2 & Nb & O2 & Ob & R2).
  destruct (filter_all _ Hall) as [Hf1 Hf2]. rewrite Hf1 in N1.
  rewrite Hf2 in B1. apply map_eq_nil in B1. subst bad1.
  exists (ok1 ++ ok), bad.
  rewrite S2, S1, F2, F1, K2, K1, !map_app, N1, N2, app_nil_r, app_assoc.
  repeat split; auto. apply Forall_app. auto.
Qed.

Lemma scheduler_visits_ok org repos st :
  Forall succeeds (visits live target org (requests st) repos) ->
  exists st',
    for_of repos (visit org) w st = (Normal tt, st')
    /\ visited w live target st st'
         (visit_requests live target org repos)
         (visits live target org (requests st) repos).
Proof.
  revert st. induction repos as [| repo rest IH]; intros st Hall;
    cbn [for_of].
  - exists st. split; [reflexivity |]. destruct live; apply visited_nil.
  - cbn [visits] in Hall. apply Forall_cons_iff in Hall.
    destruct Hall as [Hb Hrest].
    pose proof (visit_spec org repo st) as Hspec.
    unfold visit_outcome in Hspec. cbv zeta in Hspec.
    unfold succeeds in Hb. rewrite Hb in Hspec.
    destruct Hspec as (st1 & Heq & Hv). unfold bind. rewrite Heq.
    rewrite <- (visited_requests Hv) in Hrest.
    destruct (IH st1 Hrest) as (st2 & -> & Hv').
    exists st2. split; [reflexivity |].
    rewrite visit_requests_cons. cbn [visits].
    change (?a :: ?l) with ([a] ++ l).
    eapply visited_app; [exact Hv |].
    rewrite <- (visited_requests Hv). exact Hv'.
Qed.

Lemma scheduler_visits_stop org repos st pre a post :
  visits live target org (requests st) repos = pre ++ a :: post ->
  Forall succeeds pre ->
  attempt_succeeds w live target a = false ->
  exists err st',
    for_of repos (visit org) w st = (Throw err, st')
    /\ stopped_at target st st' pre a.
Proof.
  revert st pre.
  induction repos as [| repo rest IH]; intros st pre Hv Hpre Ha;
    cbn [visits] in Hv.
  - destruct pre; discriminate.
  - pose proof (visit_spec org repo st) as Hspec.
    unfold visit_outcome in Hspec. cbv zeta in Hspec.
    cbn [for_of]. unfold bind.
    destruct pre as [| b pre]; cbn [app] in Hv; injection Hv as Hhd Htl.
    + subst a. rewrite Ha in Hspec.
      destruct Hspec as (err & st1 & -> & Hs). eauto.
    + subst b. apply Forall_cons_iff in Hpre. destruct Hpre as [Hb Hrest].
      unfold succeeds in Hb. rewrite Hb in Hspec.
      destruct Hspec as (st1 & -> & Hv1).
      pose proof (visited_requests Hv1) as Hq.
      assert (Htl' : visits live target org (requests st1) rest
                     = pre ++ a :: post).
      { rewrite Hq. exact Htl. }
      destruct (IH st1 pre Htl' Hrest Ha) as (err & st2 & -> & Hs).
      exists err, st2. split; [reflexivity |].
      change (?x :: pre) with ([x] ++ pre).
      eapply scheduler_visited_then_stopped; eauto.
Qed.

Let schedule (orgs : list string) : Js unit :=
  for_of orgs (fun sourceOrg =>
    repos <- list_repos sourceOrg ;;
    for_of repos (visit sourceOrg)).

Lemma scheduler_listing org st :
  exists st1,
    list_repos org w st = (Normal (listed w (requests st) org), st1)
    /\ requests st1 = requests st ++ [GET_orgs_repos org]
    /\ results st1 = results st.
Proof.
  rewrite list_repos_outcome. unfold listing_outcome, listed.
  destruct (github w (requests st) (GET_orgs_repos org));
    eexists; repeat split.
Qed.

Lemma scheduler_ok orgs st :
  Forall succeeds (discovery w live target (requests st) orgs) ->
  exists st',
    schedule orgs w st = (Normal tt, st')
    /\ visited w live target st st'
         (discovery_requests w live target (requests st) orgs)
         (discovery w live target (requests st) orgs).
Proof.
  unfold schedule. revert st.
  induction orgs as [| org rest IH]; intros st Hall; cbn [for_of].
  - exists st. split; [reflexivity |]. apply visited_nil.
  - cbn [discovery] in Hall. apply Forall_app in Hall.
    destruct Hall as [Hhere Hlater].
    unfold bind at 1. unfold bind at 1.
    destruct (scheduler_listing org st) as (st1 & -> & Hr1 & Hs1).
    rewrite <- Hr1 in Hhere.
    destruct (scheduler_visits_ok org _ st1 Hhere) as (st2 & -> & Hv).
    pose proof (visited_app (@visited_listing w live target _ _ _ Hr1 Hs1) Hv)
      as H2.
    rewrite Hr1 in H2. simpl app in H2.
    rewrite <- (visited_requests H2) in Hlater.
    destruct (IH st2 Hlater) as (st3 & -> & Hv').
    exists st3. split; [reflexivity |].
    cbn [discovery_requests discovery].
    eapply visited_app; [exact H2 |].
    rewrite <- (visited_requests H2). exact Hv'.
Qed.

Lemma scheduler_stop orgs st pre a post :
  discovery w live target (requests st) orgs = pre ++ a :: post ->
  Forall succeeds pre ->
  attempt_succeeds w live target a = false ->
  exists err st',
    schedule orgs w st = (Throw err, st')
    /\ stopped_at target st st' pre a.
Proof.
  unfold schedule. revert st pre.
  induction orgs as [| org rest IH]; intros st pre Hd Hpre Ha;
    cbn [discovery] in Hd.
  - destruct pre; discriminate.
  - cbn [for_of]. unfold bind at 1. unfold bind at 1.
    destruct (scheduler_listing org st) as (st1 & -> & Hr1 & Hs1).
    rewrite <- Hr1 in Hd. apply app_eq_app_cons in Hd.
    destruct Hd as [(post1 & Hv & _) | (pre2 & -> & Hd)].
    + destruct (scheduler_visits_stop org _ st1 _ _ Hv Hpre Ha)
        as (err & st2 & -> & Hs).
      exists err, st2. split; [reflexivity |].
      eapply stopped_at_same_start; eauto.
    + apply Forall_app in Hpre. destruct Hpre as [Hl1 Hpre2].
      destruct (scheduler_visits_ok org _ st1 Hl1) as (st2 & -> & Hv).
      assert (Hq : requests st2
                   = requests st
                     ++ GET_orgs_repos org
                        :: visit_requests live target org
                             (listed w (requests st) org)).
      { rewrite (visited_requests Hv), Hr1, <- app_assoc. reflexivity. }
      rewrite <- Hq in Hd.
      destruct (IH st2 pre2 Hd Hpre2 Ha) as (err & st3 & -> & Hs).
      exists err, st3. split; [reflexivity |].
      eapply stopped_at_same_start; [exact Hs1 |].
      eapply scheduler_visited_then_stopped; eauto.
Qed.

End Scheduler.

(** ** The scripts with stop-on-failure as instances *)

Lemma MigrateRepos_listing_outcome this org w st :
  MigrateRepos.listRepositories this org w st = listing_outcome w st org.
Proof. apply MigrateRepos_listRepositories_eq. Qed.

Lemma ExportUsers_listing_outcome this org w st :
  ExportUsers.listRepositories this org w st = listing_outcome w st org.
Proof.
  unfold ExportUsers.listRepositories, listing_outcome, after_validation.
  run_js.
  - reflexivity.
  - rewrite app_nil_r. reflexivity.
Qed.

Lemma MigrateRepos_visit_outcome this org repo w st :
  visit_outcome w (negb (MigrateRepos.dryRun this))
                (MigrateRepos.targetOrg this)
                (MigrateRepos_visit this org repo) org repo st.
Proof.
  unfold visit_outcome, MigrateRepos_visit, MigrateRepos.transferRepository,
    visited, stopped_at, extends, attempt_succeeds, attempt_response,
    visit_requests, transfer_request.
  destruct (MigrateRepos.dryRun this); run_js.
  - eexists. split; [reflexivity |]. eexists [_], []. simpl.
    rewrite !app_nil_r.
    repeat split; try reflexivity; repeat constructor.
  - destruct (MigrateRepos.stopOnFailure this); simpl;
      do 2 eexists; (split; [reflexivity |]);
      eexists [], _; simpl; rewrite !app_nil_r;
      repeat split; try reflexivity; repeat constructor.
  - eexists. split; [reflexivity |]. eexists [_], []. simpl.
    rewrite !app_nil_r.
    repeat split; try reflexivity; repeat constructor.
Qed.

Lemma ExportUsers_visit_outcome this org repo w st :
  visit_outcome w (negb (ExportUsers.dryRun this))
                (ExportUsers.targetOrg this)
                (ExportUsers_visit this org repo) org repo st.
Proof.
  unfold visit_outcome, ExportUsers_visit, ExportUsers.transferRepository,
    visited, stopped_at, extends, attempt_succeeds, attempt_response,
    visit_requests, transfer_request.
  destruct (ExportUsers.dryRun this); run_js.
  - eexists. split; [reflexivity |]. eexists [_], []. simpl.
    rewrite !app_nil_r.
    repeat split; try reflexivity; repeat constructor.
  - destruct (ExportUsers.stopOnFailure this); simpl;
      do 2 eexists; (split; [reflexivity |]);
      eexists [], _; simpl; rewrite !app_nil_r;
      repeat split; try reflexivity; repeat constructor.
  - eexists. split; [reflexivity |]. eexists [_], []. simpl.
    rewrite !app_nil_r.
    repeat split; try reflexivity; repeat constructor.
Qed.

Lemma dry_attempts_succeed w target ds :
  Forall (fun a => attempt_succeeds w false target a = true) ds.
Proof. apply Forall_forall. intros a _. reflexivity. Qed.

(** All attempts succeeded: the entries are on [successful], in order. *)
Lemma visited_all_succeed w live target st st' rs ds :
  visited w live target st st' rs ds ->
  Forall (fun a => attempt_succeeds w live target a = true) ds ->
  exists ok,
    extends st st' rs ok []
    /\ map entry_repo ok = map attempt_name ds
    /\ Forall (fun e => is_success e = true) ok.
Proof.
  intros (ok & bad & E & N & B & O & _) Hall.
  destruct (filter_all _ Hall) as [Hf1 Hf2]. rewrite Hf1 in N.
  rewrite Hf2 in B. apply map_eq_nil in B. subst bad.
  exists ok. auto.
Qed.

(** In src/migrate-repos.js and src/export-users.js a dry run of
    [migrateFromOrganizations] always returns normally, issues only the
    listing requests, and pushes on [successful], in discovery order, one
    entry for every repository listed; nothing goes to [failed]. *)
Theorem dry_run_previews_discovery :
  forall (w : World) (st : State) (orgs : list string),
    (forall this : MigrateRepos.RepositoryMigrator,
        MigrateRepos.dryRun this = true ->
        let target := MigrateRepos.targetOrg this in
        exists st' ok,
          MigrateRepos.migrateFromOrganizations this orgs w st
          = (Normal tt, st')
          /\ extends st st'
               (discovery_requests w false target (requests st) orgs) ok []
          /\ map entry_repo ok
             = map attempt_name (discovery w false target (requests st) orgs)
          /\ Forall (fun r => is_transfer r = false)
                    (discovery_requests w false target (requests st) orgs))
    /\ (forall this : ExportUsers.RepositoryMigrator,
        ExportUsers.dryRun this = true ->
        let target := ExportUsers.targetOrg this in
        exists st' ok,
          ExportUsers.migrateFromOrganizations this orgs w st
          = (Normal tt, st')
          /\ extends st st'
               (discovery_requests w false target (requests st) orgs) ok []
          /\ map entry_repo ok
             = map attempt_name (discovery w false target (requests st) orgs)
          /\ Forall (fun r => is_transfer r = false)
                    (discovery_requests w false target (requests st) orgs)).
Proof.
  intros w st orgs.
  assert (Hreq : forall target h,
             Forall (fun r => is_transfer r = false)
                    (discovery_requests w false target h orgs)).
  { intros target. induction orgs as [| org rest IH]; intros h; simpl.
    - constructor.
    - constructor; [reflexivity | apply IH]. }
  split; intros this Hdry target; subst target.
  - assert (Hvisit : forall org repo st0,
               visit_outcome w false (MigrateRepos.targetOrg this)
                             (MigrateRepos_visit this org repo) org repo st0).
    { intros org repo st0.
      pose proof (MigrateRepos_visit_outcome this org repo w st0) as H.
      rewrite Hdry in H. exact H. }
    destruct (@scheduler_ok w false (MigrateRepos.targetOrg this)
                (MigrateRepos.listRepositories this) (MigrateRepos_visit this)
                (fun org st0 => MigrateRepos_listing_outcome this org w st0) Hvisit
                orgs st
                (dry_attempts_succeed _ _ _)) as (st' & Hrun & Hv).
    destruct (visited_all_succeed Hv (dry_attempts_succeed _ _ _))
        as (ok & He & Hn & _).
      exists st', ok. split; [exact Hrun |]. auto.
  - assert (Hvisit : forall org repo st0,
               visit_outcome w false (ExportUsers.targetOrg this)
                             (ExportUsers_visit this org repo) org repo st0).
    { intros org repo st0.
      pose proof (ExportUsers_visit_outcome this org repo w st0) as H.
      rewrite Hdry in H. exact H. }
    destruct (@scheduler_ok w false (ExportUsers.targetOrg this)
                (ExportUsers.listRepositories this) (ExportUsers_visit this)
                (fun org st0 => ExportUsers_listing_outcome this org w st0) Hvisit
                orgs st
                (dry_attempts_succeed _ _ _)) as (st' & Hrun & Hv).
    destruct (visited_all_succeed Hv (dry_attempts_succeed _ _ _))
        as (ok & He & Hn & _).
      exists st', ok. split; [exact Hrun |]. auto.
Qed.

Lemma dry_run_previews_discovery_witness :
  MigrateRepos.dryRun migrate_repos_dry = true
  /\ exists st' ok,
      MigrateRepos.migrateFromOrganizations migrate_repos_dry ["A"]
                                            scenario_dry boot
      = (Normal tt, st')
      /\ extends boot st' [GET_orgs_repos "A"] ok []
      /\ map entry_repo ok = ["A/r1"; "A/r2"].
Proof.
  split; [reflexivity |].
  destruct (proj1 (dry_run_previews_discovery scenario_dry boot ["A"])
                  migrate_repos_dry eq_refl)
    as (st' & ok & Hrun & He & Hn & _).
  exists st', ok. split; [exact Hrun | split; [exact He | exact Hn]].
Defined.

(** * Stopping with a report (src/export-users.js) *)

Lemma validation_table_keeps warnings w st target :
  let st' := snd (validation_table warnings w st target) in
  results st' = results st
  /\ files st' = files st
  /\ clock_reads st' = clock_reads st
  /\ slept st' = slept st.
Proof.
  unfold validation_table, membership_step.
  destruct (auth_response w st); [repeat split |].
  destruct (org_response w st target); [repeat split |].
  destruct (login_response w st target) as [e | login]; [repeat split |].
  destruct (membership_response w st target login) as [e | role];
    [repeat split |].
  destruct (includes _ role); repeat split.
Qed.

(** In a live run of src/export-users.js that passed validation, let the
    repositories in discovery order be [pre], then [a], then [post], with the
    transfers of [pre] accepted and the transfer of [a] refused.  Then [run]
    calls [generateReport] and ends the process with status 1, or with the
    error of [writeFileSync] when the file system refuses the report: the
    report has the entries of [pre] on [successful] and the entry of [a] on
    [failed], its summary counts them, and the refused transfer is the last
    request issued. *)
Theorem export_users_stops_with_partial_report :
  forall (this : ExportUsers.RepositoryMigrator) (w : World) (st st1 : State)
         (pre : list Attempt) (a : Attempt) (post : list Attempt),
    ExportUsers.dryRun this = false ->
    ExportUsers.validateSetup this w st = (Normal tt, st1) ->
    let target := ExportUsers.targetOrg this in
    discovery w true target (requests st1) (ExportUsers.sourceOrgs this)
    = pre ++ a :: post ->
    Forall (fun b => attempt_succeeds w true target b = true) pre ->
    attempt_succeeds w true target a = false ->
    exists c st' report,
      ExportUsers.run this w st = (c, st')
      /\ exits_with_report w (ExportUsers.logFile this) c st'
      /\ stopped_at target st st' pre a
      /\ summary (results st') = Some report
      /\ Summary.successful report
         = length (successful (results st)) + length pre
      /\ Summary.failed report = length (failed (results st)) + 1
      /\ Summary.total report
         = length (outcomes (results st)) + length pre + 1.
Proof.
  intros this w st st1 pre a post Hdry Hval target Hd Hpre Ha. subst target.
  assert (Hvisit : forall org repo st0,
             visit_outcome w true (ExportUsers.targetOrg this)
                           (ExportUsers_visit this org repo) org repo st0).
  { intros org repo st0.
    pose proof (ExportUsers_visit_outcome this org repo w st0) as H.
    rewrite Hdry in H. exact H. }
  destruct (@scheduler_stop w true (ExportUsers.targetOrg this)
              (ExportUsers.listRepositories this) (ExportUsers_visit this)
              (fun org st0 => ExportUsers_listing_outcome this org w st0)
              Hvisit (ExportUsers.sourceOrgs this) st1 pre a post Hd Hpre Ha)
    as (err & st2 & Hmig & Hs).
  assert (Hres : results st1 = results st).
  { pose proof (validation_table_keeps (fun _ => []) w st
                  (ExportUsers.targetOrg this)) as H.
    rewrite <- ExportUsers_validateSetup_table, Hval in H. apply H. }
  apply (stopped_at_same_start _ Hres) in Hs.
  destruct Hs as (ok & bad & S & F & K & N & Nb & O & Ob & R).
  assert (Hok : length ok = length pre).
  { rewrite <- (length_map entry_repo), N, length_map. reflexivity. }
  unfold ExportUsers.run, try_catch, bind. rewrite Hval.
  destruct (ExportUsers.sourceOrgs this) as [| org rest] eqn:Horgs.
  { destruct pre; discriminate. }
  cbn [length Nat.ltb Nat.leb].
  change (for_of (org :: rest) _) with
    (ExportUsers.migrateFromOrganizations this (org :: rest)) in Hmig.
  rewrite Hmig. unfold console_error, console, process_exit.
  rewrite ExportUsers_generateReport_eq. cbv zeta.
  unfold write_completion. cbn [files].
  destruct (write_error w (files st2) (ExportUsers.logFile this)) as [e |]
    eqn:E;
    (eexists; eexists; eexists; split; [reflexivity |];
     split; [exists (files st2); cbn [files results]; rewrite E; auto |];
     split; [exists ok, bad; cbn; repeat split; auto |];
     split; [reflexivity |]; cbn;
     rewrite S, F, !length_app, Hok; cbn;
     rewrite outcomes_length;
     rewrite K; repeat split; lia).
Qed.

(** The live scenario on src/export-users.js: [r1] is transferred, [r2] is
    refused, and the report written before the exit counts one of each. *)
Lemma export_users_stops_witness :
  let this := export_users_live in
  let w := scenario_live in
  let h := requests validated ++ [GET_orgs_repos "A"] in
  let pre := [mkAttempt "A" (repo_named "r1") h] in
  let a := mkAttempt "A" (repo_named "r2")
                     (h ++ [POST_repos_transfer "A" "r1" "T"]) in
  ExportUsers.dryRun this = false
  /\ ExportUsers.validateSetup this w (constructed 1) = (Normal tt, validated)
  /\ discovery w true "T" (requests validated) ["A"; "B"] = pre ++ a :: []
  /\ Forall (fun b => attempt_succeeds w true "T" b = true) pre
  /\ attempt_succeeds w true "T" a = false
  /\ exists st' report,
      ExportUsers.run this w (constructed 1) = (Exit 1, st')
      /\ persisted_last (ExportUsers.logFile this) (results st') st'
      /\ summary (results st') = Some report
      /\ Summary.successful report = 1
      /\ Summary.failed report = 1
      /\ Summary.total report = 2.
Proof.
  intros this w h pre a.
  assert (Hval : ExportUsers.validateSetup this w (constructed 1)
                 = (Normal tt, validated)) by reflexivity.
  assert (Hd : discovery w true "T" (requests validated) ["A"; "B"]
               = pre ++ a :: []) by reflexivity.
  assert (Hp : Forall (fun b => attempt_succeeds w true "T" b = true) pre).
  { constructor; [reflexivity | constructor]. }
  assert (Ha : attempt_succeeds w true "T" a = false) by reflexivity.
  split; [reflexivity |]. split; [exact Hval |]. split; [exact Hd |].
  split; [exact Hp |]. split; [exact Ha |].
  destruct (@export_users_stops_with_partial_report this w (constructed 1)
              validated pre a [] eq_refl Hval Hd Hp Ha)
    as (c & st' & report & Hrun & (earlier & Hfiles & Hc) & _ & Hsum & Hs
        & Hf & Ht).
  exists st', report.
  split; [rewrite Hrun, Hc; reflexivity |].
  split; [exists earlier; exact Hfiles |]. split; [exact Hsum |].
  split; [exact Hs |]. split; [exact Hf | exact Ht].
Defined.

(** * Where repositories are sent *)

#[local] Instance aim_step_preorder target : PreOrder (aim_step target).
Proof. split; unfold aim_step; [intros st | intros a b c]; auto. Qed.

Lemma aim_same target st st' :
  requests st' = requests st ->
  outcomes (results st') = outcomes (results st) ->
  aim_step target st st'.
Proof. intros Hr Ho [H1 H2]. split; [rewrite Hr | rewrite Ho]; auto. Qed.

Lemma aim_direct target A (m : Js A) :
  (forall w st,
      requests (snd (m w st)) = requests st
      /\ outcomes (results (snd (m w st))) = outcomes (results st)) ->
  steps (aim_step target) m.
Proof. intros H w st. apply aim_same; apply H. Qed.

Lemma aim_octokit_request target r :
  aimed target r -> steps (aim_step target) (octokit_request r).
Proof.
  intros Hr w st [H1 H2]. unfold octokit_request.
  destruct (github w (requests st) r); split; simpl; auto;
    apply Forall_app; auto.
Qed.

Lemma aim_push_successful target e :
  destined target e -> steps (aim_step target) (push_successful e).
Proof.
  intros He w st [H1 H2]. split; simpl; auto.
  unfold outcomes in *. simpl. rewrite <- app_assoc.
  apply Forall_app in H2. destruct H2 as [Hs Hrest].
  apply Forall_app. split; [exact Hs |]. simpl. constructor; auto.
Qed.

Lemma aim_push_failed target e :
  destined target e -> steps (aim_step target) (push_failed e).
Proof.
  intros He w st [H1 H2]. split; simpl; auto.
  unfold outcomes in *. simpl.
  apply Forall_app in H2. destruct H2 as [Hs Hrest].
  apply Forall_app in Hrest. destruct Hrest as [Hf Hk].
  repeat (apply Forall_app; split); auto.
Qed.

Lemma destined_success target sourceOrg repo timestamp :
  destined target
           (Simulated sourceOrg (target ++ "/" ++ repo)%string timestamp).
Proof. intros t [= <-]. eexists. reflexivity. Qed.

Lemma destined_transferred target sourceOrg repo timestamp response :
  destined target
           (Transferred sourceOrg (target ++ "/" ++ repo)%string timestamp
                        response).
Proof. intros t [= <-]. eexists. reflexivity. Qed.

Lemma destined_rejected target repo error status timestamp :
  destined target (Rejected repo error status timestamp).
Proof. intros t H. discriminate. Qed.

Ltac aim_auto :=
  steps_structure; try exact _;
  first [ apply aim_octokit_request; simpl; auto
        | apply aim_push_successful;
          first [apply destined_success | apply destined_transferred]
        | apply aim_push_failed; apply destined_rejected
        | apply aim_direct; intros; split; reflexivity ].

Lemma Part000_aim this :
  steps (aim_step (Part000.targetOrg this)) (Part000.run this).
Proof.
  unfold Part000.run. steps_structure; try exact _;
    try unfold Part000.transferRepository; aim_auto.
Qed.

Lemma MigrateRepos_aim this :
  steps (aim_step (MigrateRepos.targetOrg this)) (MigrateRepos.run this).
Proof.
  unfold MigrateRepos.run. steps_structure; try exact _;
    try unfold MigrateRepos.transferRepository; aim_auto.
Qed.

Lemma ExportUsers_aim this :
  steps (aim_step (ExportUsers.targetOrg this)) (ExportUsers.run this).
Proof.
  unfold ExportUsers.run. steps_structure; try exact _;
    try unfold ExportUsers.transferRepository; aim_auto.
Qed.

Lemma ExportUsers_main_unfolded w :
  ExportUsers.main w boot
  = if is_entry_point w then
      match TARGET_ORG w with
      | None | Some EmptyString => (Throw (Error TARGET_ORG_required), boot)
      | Some target =>
          ExportUsers.run
            (ExportUsers.mk target (parse_source_orgs (SOURCE_ORGS w))
                            (negb (includes (argv w) "--execute"))
                            (log_file_name (now w 0)) true)
            w (constructed 1)
      end
    else (Normal tt, boot).
Proof.
  unfold ExportUsers.main, ExportUsers.constructor, bind, world. simpl.
  destruct (is_entry_point w); [| reflexivity].
  destruct (TARGET_ORG w) as [[| c s] |]; reflexivity.
Qed.

Lemma targets_only_constructed target n : targets_only target (constructed n).
Proof. split; constructor. Qed.

(** Whatever the environment, the arguments, the file and the remote, every
    transfer that one of the three programs requests names
    [process.env.TARGET_ORG] as the new owner. *)
Theorem transfers_go_to_TARGET_ORG :
  forall (w : World) (owner repo new_owner : string),
    (In (POST_repos_transfer owner repo new_owner)
        (requests (snd (Part000.main w boot)))
     \/ In (POST_repos_transfer owner repo new_owner)
           (requests (snd (MigrateRepos.main w boot)))
     \/ In (POST_repos_transfer owner repo new_owner)
           (requests (snd (ExportUsers.main w boot)))) ->
    TARGET_ORG w = Some new_owner.
Proof.
  intros w owner repo new_owner H.
  assert (Haim : forall target st,
             targets_only target st ->
             In (POST_repos_transfer owner repo new_owner) (requests st) ->
             new_owner = target).
  { intros target st [Hr _] Hin.
    exact (proj1 (Forall_forall _ _) Hr _ Hin). }
  rewrite Part000_main_eq, MigrateRepos_main_eq, ExportUsers_main_unfolded
    in H.
  destruct (is_entry_point w); [| simpl in H; tauto].
  destruct (TARGET_ORG w) as [[| c s] |]; simpl in H; try tauto.
  f_equal. symmetry.
  destruct H as [H | [H | H]]; revert H; apply Haim.
  - apply (Part000_aim (Part000.mk _ _ _ _)), targets_only_constructed.
  - apply (MigrateRepos_aim (MigrateRepos.mk _ _ _ _)),
      targets_only_constructed.
  - apply (ExportUsers_aim (ExportUsers.mk _ _ _ _ _)),
      targets_only_constructed.
Qed.

(** The live scenario: the transfer of [r1] is requested for ["T"]. *)
Lemma transfers_go_to_TARGET_ORG_witness :
  In (POST_repos_transfer "A" "r1" "T")
     (requests (snd (MigrateRepos.main scenario_live boot)))
  /\ TARGET_ORG scenario_live = Some "T".
Proof.
  assert (Hin : In (POST_repos_transfer "A" "r1" "T")
                   (requests (snd (MigrateRepos.main scenario_live boot)))).
  { vm_compute. right. left. reflexivity. }
  split; [exact Hin |].
  exact (@transfers_go_to_TARGET_ORG scenario_live "A" "r1" "T"
           (or_intror (or_introl Hin))).
Defined.

(** * Pauses *)

#[local] Instance pause_step_preorder count : PreOrder (pause_step count).
Proof.
  split; unfold pause_step; [intros st | intros a b c H1 H2]; lia.
Qed.













(** * Importing from a file *)

Lemma Part000_orgMatch_broken repo w st :
  broken_entry repo ->
  Part000.orgMatch repo w st
  = (Throw (Error "Cannot read properties of undefined (reading 'match')"),
     st).
Proof.
  unfold Part000.orgMatch, String_match, bind.
  intros [Hu | (u & Hu & Hm & Hs)]; rewrite Hu; [reflexivity |].
  cbn [ret]. rewrite Hm, Hs. reflexivity.
Qed.

Lemma Part000_orgMatch_decidable repo w st :
  decidable_entry repo ->
  exists m, Part000.orgMatch repo w st = (Normal m, st).
Proof.
  unfold Part000.orgMatch, String_match, bind.
  intros (u & Hu & H). rewrite Hu. cbn [ret].
  destruct (owner_match "github.com/" u) as [owner |];
    [eexists; reflexivity |].
  destruct H as [H | H]; [destruct H; reflexivity |].
  destruct (sshUrl repo) as [s |]; [| destruct H; reflexivity].
  eexists; reflexivity.
Qed.

Lemma Part000_transferRepository_returns this repo sourceOrg w st :
  exists result st',
    Part000.transferRepository this repo sourceOrg w st = (Normal result, st')
    /\ length (outcomes (results st')) = S (length (outcomes (results st))).
Proof.
  unfold Part000.transferRepository.
  destruct (Part000.dryRun this); run_js; do 2 eexists;
    (split; [reflexivity |]); rewrite !outcomes_length; simpl;
    rewrite !length_app; simpl; lia.
Qed.

Lemma Part000_import_decidable this repo w st :
  decidable_entry repo ->
  exists st',
    Part000_import this repo w st = (Normal tt, st')
    /\ length (outcomes (results st'))
       <= S (length (outcomes (results st))).
Proof.
  intros H. unfold Part000_import, bind at 1.
  destruct (Part000_orgMatch_decidable w st H) as [m ->].
  destruct m as [sourceOrg |].
  - unfold bind.
    destruct (Part000_transferRepository_returns this repo sourceOrg w st)
      as (result & st1 & -> & Hlen).
    eexists. split; [reflexivity |]. simpl. lia.
  - eexists. split; [reflexivity |]. simpl. lia.
Qed.

Lemma Part000_import_all this repos w st :
  Forall decidable_entry repos ->
  exists st',
    for_of repos (Part000_import this) w st = (Normal tt, st')
    /\ length (outcomes (results st'))
       <= length (outcomes (results st)) + length repos.
Proof.
  intros H. revert st. induction H as [| repo repos Hr _ IH]; intros st.
  - exists st. split; [reflexivity |]. simpl. lia.
  - cbn [for_of]. unfold bind.
    destruct (Part000_import_decidable this w st Hr) as (st1 & -> & H1).
    destruct (IH st1) as (st2 & -> & H2).
    exists st2. split; [reflexivity |]. simpl. lia.
Qed.

(** An entry of [test-repos.json] with a missing field ends the import: when
    the entries before it are well formed, they are processed in order, the
    [TypeError] raised on the entry is caught and reported as an error in
    reading the file, [migrateFromFile] returns normally, and neither the
    entry nor any entry after it is processed. *)
Theorem broken_entry_ends_the_import :
  forall (this : Part000.RepositoryMigrator) (path : string) (w : World)
         (st : State) (before : list Repo) (entry : Repo) (after : list Repo),
    disk w path = RepoArray (before ++ entry :: after) ->
    Forall decidable_entry before ->
    broken_entry entry ->
    exists st1,
      for_of before (Part000_import this) w st = (Normal tt, st1)
      /\ Part000.migrateFromFile this path w st
         = (Normal tt, with_lines st1 [import_aborted path])
      /\ length (outcomes (results st1))
         <= length (outcomes (results st)) + length before.
Proof.
  intros this path w st before entry after Hd Hbefore Hentry.
  destruct (Part000_import_all this w st Hbefore) as (st1 & Hloop & Hlen).
  exists st1. split; [exact Hloop |]. split; [| exact Hlen].
  unfold Part000.migrateFromFile, try_catch.
  unfold bind at 1. unfold Part000.read_repos.
  unfold bind at 1. unfold world. cbv beta iota. rewrite Hd.
  unfold ret at 1. cbv beta iota.
  change (fun repo : Repo =>
            m <- Part000.orgMatch repo ;;
            match m with
            | Some sourceOrg =>
                _ <- Part000.transferRepository this repo sourceOrg ;;
                setTimeout 1000
            | None =>
                console_warn ("⚠️  Could not determine organization for "
                              ++ name repo)%string
            end)
    with (Part000_import this).
  rewrite for_of_app. unfold bind at 1. rewrite Hloop.
  cbn [for_of]. unfold bind at 1. unfold Part000_import at 1.
  unfold bind at 1. rewrite (Part000_orgMatch_broken w st1 Hentry).
  reflexivity.
Qed.

(** Of three entries the second has no [url]: only [r1] is transferred. *)
Lemma broken_entry_witness :
  let w := world_with_file file_with_gap in
  let r1 := mkRepo "r1" (Some (https_url "A" "r1")) (Some (ssh_url "A" "r1")) in
  let r2 := mkRepo "r2" None (Some (ssh_url "A" "r2")) in
  let r3 := mkRepo "r3" (Some (https_url "A" "r3")) (Some (ssh_url "A" "r3")) in
  disk w "test-repos.json" = RepoArray ([r1] ++ r2 :: [r3])
  /\ Forall decidable_entry [r1]
  /\ broken_entry r2
  /\ exists st1,
      Part000.migrateFromFile part000_live "test-repos.json" w (constructed 1)
      = (Normal tt, with_lines st1 [import_aborted "test-repos.json"])
      /\ length (outcomes (results st1)) <= 1.
Proof.
  intros w r1 r2 r3.
  assert (Hd : disk w "test-repos.json" = RepoArray ([r1] ++ r2 :: [r3]))
    by reflexivity.
  assert (H1 : Forall decidable_entry [r1]).
  { constructor; [| constructor]. eexists. split; [reflexivity |].
    right. discriminate. }
  assert (H2 : broken_entry r2) by (left; reflexivity).
  split; [exact Hd | split; [exact H1 | split; [exact H2 |]]].
  destruct (@broken_entry_ends_the_import part000_live "test-repos.json" w
              (constructed 1) [r1] r2 [r3] Hd H1 H2)
    as (st1 & _ & Hrun & Hlen).
  exists st1. split; [exact Hrun | exact Hlen].
Defined.

(** The same file on the whole program, as a dry run: [r1] alone is
    recorded, the import is reported as failed, and the run still ends
    normally with its report. *)
Example file_with_gap_run :
  let run := Part000.main (world_with_file file_with_gap) boot in
  fst run = Normal tt
  /\ map entry_repo (outcomes (results (snd run))) = ["A/r1"]
  /\ option_map Summary.total (summary (results (snd run))) = Some 1
  /\ In (import_aborted "test-repos.json") (stderr (snd run)).
Proof. vm_compute. repeat split. auto. Qed.

(** * What src/migrate-repos.js leaves behind *)

#[local] Instance unreported_preorder : PreOrder unreported.
Proof.
  split; unfold unreported; [intros st | intros a b c [H1 H2] [H3 H4]];
    split; congruence.
Qed.

Lemma unreported_direct A (m : Js A) :
  (forall w st,
      files (snd (m w st)) = files st
      /\ summary (results (snd (m w st))) = summary (results st)) ->
  steps unreported m.
Proof. intros H w st. apply H. Qed.

Lemma unreported_octokit_request r : steps unreported (octokit_request r).
Proof.
  intros w st. unfold octokit_request.
  destruct (github w (requests st) r); split; reflexivity.
Qed.

Lemma MigrateRepos_run_unreported this :
  steps unreported (MigrateRepos.run this).
Proof.
  unfold MigrateRepos.run. steps_structure; try exact _;
    try unfold MigrateRepos.transferRepository;
    steps_structure; try exact _;
    first [ apply unreported_octokit_request
          | apply unreported_direct; intros; split; reflexivity ].
Qed.

Lemma Part000_migration_unreported this :
  steps unreported (Part000_migration this).
Proof.
  unfold Part000_migration. steps_structure; try exact _;
    try unfold Part000.transferRepository;
    steps_structure; try exact _;
    first [ apply unreported_octokit_request
          | apply unreported_direct; intros; split; reflexivity ].
Qed.

(** src/migrate-repos.js keeps no record of what it did: [run] writes no
    file and assigns no summary, however it ends, so the program ends with
    nothing on disk and with [this.results.summary] still the empty
    object. *)
Theorem migrate_repos_keeps_no_record :
  forall (w : World),
    (forall this st,
        files (snd (MigrateRepos.run this w st)) = files st
        /\ summary (results (snd (MigrateRepos.run this w st)))
           = summary (results st))
    /\ files (snd (MigrateRepos.main w boot)) = []
    /\ summary (results (snd (MigrateRepos.main w boot))) = None.
Proof.
  intros w. split.
  - intros this st. apply MigrateRepos_run_unreported.
  - rewrite MigrateRepos_main_eq.
    destruct (is_entry_point w); [| split; reflexivity].
    destruct (TARGET_ORG w) as [[| c s] |]; [split; reflexivity | |
                                             split; reflexivity].
    apply (MigrateRepos_run_unreported
             (MigrateRepos.mk (String c s) (parse_source_orgs (SOURCE_ORGS w))
                              (negb (includes (argv w) "--execute")) true)
             w (constructed 0)).
Qed.

(** * Which source is used, and how the run ends *)

#[local] Instance keeps_listings_preorder : PreOrder keeps_listings.
Proof.
  split; unfold keeps_listings; [intros st | intros a b c]; congruence.
Qed.

Lemma keeps_listings_direct A (m : Js A) :
  (forall w st, requests (snd (m w st)) = requests st) ->
  steps keeps_listings m.
Proof. intros H w st. unfold keeps_listings. rewrite H. reflexivity. Qed.

Lemma keeps_listings_octokit_request r :
  is_listing r = false -> steps keeps_listings (octokit_request r).
Proof.
  intros Hr w st. unfold octokit_request, keeps_listings.
  destruct (github w (requests st) r); simpl;
    rewrite filter_app; simpl; rewrite Hr; apply app_nil_r.
Qed.

Ltac keeps_listings_auto :=
  steps_structure; try exact _;
  first [ apply keeps_listings_octokit_request; reflexivity
        | apply keeps_listings_direct; reflexivity ].

Lemma Part000_file_path_keeps_listings this :
  steps keeps_listings
        (Part000.validateSetup this ;;
         Part000.migrateFromFile this "test-repos.json").
Proof.
  steps_structure; try exact _;
    try unfold Part000.transferRepository; keeps_listings_auto.
Qed.

Lemma Part000_migration_with_file this w st :
  file_found w ->
  Part000_migration this w st
  = (Part000.validateSetup this ;;
     Part000.migrateFromFile this "test-repos.json") w st.
Proof.
  intros Hf. unfold Part000_migration, bind.
  destruct (Part000.validateSetup this w st) as [[[] | e | c] st1];
    try reflexivity.
  unfold Part000.existsSync, bind, world.
  destruct (disk w "test-repos.json") as [msg | msg | repos] eqn:Hd;
    try reflexivity.
  destruct (Hf msg). exact Hd.
Qed.

Lemma Part000_migrateFromFile_returns this path w st :
  exists st', Part000.migrateFromFile this path w st = (Normal tt, st').
Proof.
  assert (NE : never_exits
                 (repos <- Part000.read_repos path ;;
                  for_of repos (Part000_import this))).
  { unfold Part000.read_repos, Part000_import, Part000.orgMatch,
      String_match, Part000.transferRepository.
    never_exits_auto. }
  unfold Part000.migrateFromFile, try_catch.
  change (fun repo : Repo =>
            m <- Part000.orgMatch repo ;;
            match m with
            | Some sourceOrg =>
                _ <- Part000.transferRepository this repo sourceOrg ;;
                setTimeout 1000
            | None =>
                console_warn ("⚠️  Could not determine organization for "
                              ++ name repo)%string
            end)
    with (Part000_import this).
  specialize (NE w st).
  destruct ((repos <- Part000.read_repos path ;;
             for_of repos (Part000_import this)) w st)
    as [[[] | e | c] st1]; simpl in NE.
  - eauto.
  - eexists. reflexivity.
  - destruct (NE c). reflexivity.
Qed.

(** When [test-repos.json] can be read, [run] of src/unnamed/part_000 takes
    its repositories from the file and lists no organization, whatever
    [SOURCE_ORGS] holds and even when the file is not valid JSON: no listing
    is requested, and when validation passes and the file parses, the
    attempts recorded are those of the entries of the file, each on
    [successful] or [failed] as the remote answered. *)
Theorem file_takes_precedence :
  forall (this : Part000.RepositoryMigrator) (w : World) (st : State),
    file_found w ->
    let live := negb (Part000.dryRun this) in
    let target := Part000.targetOrg this in
    let st' := snd (Part000.run this w st) in
    keeps_listings st st'
    /\ (forall st1 repos,
          Part000.validateSetup this w st = (Normal tt, st1) ->
          disk w "test-repos.json" = RepoArray repos ->
          exists rs,
            visited w live target st st' rs
                    (file_attempts live target (requests st1) repos)).
Proof.
  intros this w st Hf live target st'. subst live target st'. split.
  - rewrite Part000_run_eq.
    rewrite (Part000_migration_with_file this st Hf).
    pose proof (Part000_file_path_keeps_listings this) as H.
    specialize (H w st).
    destruct ((Part000.validateSetup this ;;
               Part000.migrateFromFile this "test-repos.json") w st)
      as [[[] | e | c] st2]; simpl in H; try exact H.
    rewrite Part000_generateReport_eq.
    destruct (write_completion w (files st2) (Part000.logFile this));
      exact H.
  - intros st1 repos Hval Hd.
    destruct (Part000_run_visits this w st) as (rs & Hv).
    unfold Part000_attempts in Hv. rewrite Hval, Hd in Hv.
    exists rs. exact Hv.
Qed.

(** What [run] does before the report ends normally or with an error, and
    normally exactly when validation passes and there is a source. *)
Lemma Part000_migration_ends this w st :
  let c := fst (Part000_migration this w st) in
  (c = Normal tt \/ exists e, c = Throw e)
  /\ (c = Normal tt
      <-> (exists u, auth_response w st = inr u)
          /\ (exists o, org_response w st (Part000.targetOrg this) = inr o)
          /\ (file_found w \/ Part000.sourceOrgs this <> [])).
Proof.
  intros c.
  assert (E : c = fst (Part000_migration this w st)) by reflexivity.
  clearbody c.
  unfold Part000_migration in E. unfold bind at 1 in E.
  rewrite Part000_validateSetup_table in E.
  pose proof (@validation_table_passes
                (fun msg => [permission_warning msg]) w st
                (Part000.targetOrg this)) as Hpass.
  unfold validation_table in *.
  destruct (auth_response w st) as [e | u].
  { simpl in E. subst c. split; [eauto |]. split; [discriminate |].
    intros ((u & H) & _). discriminate. }
  destruct (org_response w st (Part000.targetOrg this)) as [e | o].
  { simpl in E. subst c. split; [eauto |]. split; [discriminate |].
    intros (_ & (o & H) & _). discriminate. }
  specialize (Hpass u o eq_refl eq_refl).
  destruct (membership_step _ w st (Part000.targetOrg this)) as [c1 st1].
  simpl in Hpass. subst c1.
  unfold bind at 1 in E. unfold Part000.existsSync, bind at 1, world in E.
  destruct (disk w "test-repos.json") as [msg | msg | repos] eqn:Hd;
    cbv beta iota in E; unfold ret at 1 in E; cbv beta iota in E.
  - destruct (Part000.sourceOrgs this) as [| org rest] eqn:Horgs.
    + simpl in E. subst c. split; [eauto |]. split; [discriminate |].
      intros (_ & _ & [Hf | Hne]); [| contradiction].
      destruct (Hf msg). exact Hd.
    + cbn [length Nat.ltb Nat.leb] in E.
      destruct (Part000_migrate_visits this (org :: rest) w st1)
        as (st2 & Hm & _).
      rewrite Hm in E. simpl in E. subst c.
      split; [auto |]. split; [| reflexivity].
      intros _. repeat split; eauto. right. discriminate.
  - destruct (Part000_migrateFromFile_returns this "test-repos.json" w st1)
      as (st2 & Hm).
    rewrite Hm in E. simpl in E. subst c.
    split; [auto |]. split; [| reflexivity].
    intros _. repeat split; eauto. left. intros m. congruence.
  - destruct (Part000_migrateFromFile_returns this "test-repos.json" w st1)
      as (st2 & Hm).
    rewrite Hm in E. simpl in E. subst c.
    split; [auto |]. split; [| reflexivity].
    intros _. repeat split; eauto. left. intros m. congruence.
Qed.

(** [run] of src/unnamed/part_000 ends normally or with [process.exit(1)].
    It ends normally exactly when authentication and the lookup of the
    target organization succeed, there is a source (a readable
    [test-repos.json] or a non-empty [sourceOrgs]), and the file system
    accepts the report.  No failed listing, refused transfer or broken file
    changes how it ends. *)
Theorem part000_exit_status :
  forall (this : Part000.RepositoryMigrator) (w : World) (st : State),
    let c := fst (Part000.run this w st) in
    (c = Normal tt \/ c = Exit 1)
    /\ (c = Normal tt
        <-> (exists u, auth_response w st = inr u)
            /\ (exists o, org_response w st (Part000.targetOrg this) = inr o)
            /\ (file_found w \/ Part000.sourceOrgs this <> [])
            /\ write_error w (files st) (Part000.logFile this) = None).
Proof.
  intros this w st c. subst c. rewrite Part000_run_eq.
  destruct (Part000_migration_ends this w st) as [Hc Hiff].
  destruct (Part000_migration_unreported this w st) as [Hfiles _].
  destruct (Part000_migration this w st) as [c2 st2].
  cbn [fst snd] in Hc, Hiff, Hfiles.
  destruct Hc as [-> | [e ->]].
  - rewrite Part000_generateReport_eq. unfold write_completion.
    rewrite Hfiles.
    destruct (write_error w (files st) (Part000.logFile this)) as [e |];
      cbn [fst].
    + split; [auto |]. split; [discriminate |].
      intros (_ & _ & _ & H). discriminate.
    + split; [auto |]. split; [| reflexivity].
      intros _. destruct (proj1 Hiff eq_refl) as (A & B & C). auto.
  - cbn [fst]. split; [auto |]. split; [discriminate |].
    intros (A & B & C & _).
    pose proof (proj2 Hiff (conj A (conj B C))) as H. discriminate.
Qed.

(** [test-repos.json] is present and [SOURCE_ORGS] names organization [A]:
    no organization is listed, and the attempts are those of the file. *)
Lemma file_takes_precedence_witness :
  let this := part000_with_sources in
  let w := world_with_file file_with_gap in
  let st' := snd (Part000.run this w (constructed 1)) in
  file_found w
  /\ keeps_listings (constructed 1) st'
  /\ map attempt_name
         (file_attempts false "T" (requests validated) file_with_gap)
     = ["A/r1"]
  /\ exists rs,
      visited w false "T" (constructed 1) st' rs
              (file_attempts false "T" (requests validated) file_with_gap).
Proof.
  intros this w st'.
  assert (Hf : file_found w).
  { intros msg. discriminate. }
  destruct (@file_takes_precedence this w (constructed 1) Hf) as [H1 H2].
  split; [exact Hf |]. split; [exact H1 |]. split; [reflexivity |].
  exact (H2 validated file_with_gap eq_refl eq_refl).
Defined.

(** * Configuration and validation *)

Lemma MigrateRepos_run_ends this w st :
  fst (MigrateRepos.run this w st) = Normal tt
  \/ fst (MigrateRepos.run this w st) = Exit 1.
Proof.
  assert (NE : never_exits
                 (if (0 <? length (MigrateRepos.sourceOrgs this))%nat then
                    MigrateRepos.migrateFromOrganizations
                      this (MigrateRepos.sourceOrgs this)
                  else throw (Error "No source organizations specified"))).
  { unfold MigrateRepos.migrateFromOrganizations,
      MigrateRepos.listRepositories, MigrateRepos.transferRepository.
    never_exits_auto. }
  specialize (NE w st).
  unfold MigrateRepos.run, try_catch.
  destruct ((if (0 <? length (MigrateRepos.sourceOrgs this))%nat then
               MigrateRepos.migrateFromOrganizations
                 this (MigrateRepos.sourceOrgs this)
             else throw (Error "No source organizations specified")) w st)
    as [[[] | e | c] st1]; simpl in NE.
  - left. reflexivity.
  - right. reflexivity.
  - destruct (NE c). reflexivity.
Qed.

Lemma Part000_run_ends this w st :
  fst (Part000.run this w st) = Normal tt
  \/ fst (Part000.run this w st) = Exit 1.
Proof.
  rewrite Part000_run_eq.
  destruct (Part000_migration_ends this w st) as [Hc _].
  destruct (Part000_migration this w st) as [c2 st2]. cbn [fst] in Hc.
  destruct Hc as [-> | [e ->]]; [| right; reflexivity].
  rewrite Part000_generateReport_eq.
  unfold write_completion.
  destruct (write_error w (files st2) (Part000.logFile this)); auto.
Qed.

(** Each of the three programs, started as the entry point of the process,
    needs [TARGET_ORG]: when the variable is unset or empty the constructor
    throws before any request, output or file, and the error is not caught.
    With [TARGET_ORG] set, src/unnamed/part_000 and src/migrate-repos.js end
    normally or with [process.exit(1)] and let no error escape;
    src/export-users.js ends in the same way unless the file system refuses
    the last write of the report, whose error then escapes.  A file that is
    not the entry point does nothing. *)
Theorem TARGET_ORG_is_required :
  forall w : World,
    starts_as_configured Part000.main w ends_cleanly
    /\ starts_as_configured MigrateRepos.main w ends_cleanly
    /\ starts_as_configured ExportUsers.main w
         (ends_with_report w (log_file_name (now w 0))).
Proof.
  intros w. unfold starts_as_configured, ends_cleanly.
  rewrite Part000_main_eq, MigrateRepos_main_eq, ExportUsers_main_unfolded.
  destruct (is_entry_point w); [| split; [| split]; reflexivity].
  destruct (TARGET_ORG w) as [[| c s] |];
    [split; [| split]; reflexivity | | split; [| split]; reflexivity].
  split; [| split].
  - apply Part000_run_ends.
  - apply MigrateRepos_run_ends.
  - destruct (ExportUsers.run
                (ExportUsers.mk (String c s)
                                (parse_source_orgs (SOURCE_ORGS w))
                                (negb (includes (argv w) "--execute"))
                                (log_file_name (now w 0)) true)
                w (constructed 1)) as [c0 st'] eqn:E.
    exact (proj1 (ExportUsers_run_always_persists _ _ _ E)).
Qed.

(** When authentication or the lookup of the target organization fails,
    [run] of src/unnamed/part_000 and of src/export-users.js stops having
    sent only the requests of these checks: no organization is listed, no
    transfer is requested or recorded, and no pause is made.  The run of
    src/unnamed/part_000 ends with [process.exit(1)]; that of
    src/export-users.js writes its report first and ends with
    [process.exit(1)], or with the error of [writeFileSync] when the file
    system refuses the report. *)
Theorem failed_validation_blocks_the_migration :
  forall (w : World) (st : State) (target : string) (sourceOrgs : list string)
         (dryRun : bool) (logFile : string) (stopOnFailure : bool),
    validation_fails w st target ->
    let r1 := Part000.run (Part000.mk target sourceOrgs dryRun logFile) w st in
    let r2 := ExportUsers.run
                (ExportUsers.mk target sourceOrgs dryRun logFile stopOnFailure)
                w st in
    fst r1 = Exit 1 /\ stopped_by_validation target st (snd r1)
    /\ fst r2 = match write_error w (files st) logFile with
                | Some e => Throw e
                | None => Exit 1
                end
    /\ stopped_by_validation target st (snd r2)
    /\ persisted_last logFile (results (snd r2)) (snd r2).
Proof.
  intros w st target sourceOrgs dryRun logFile stopOnFailure Hv r1 r2.
  assert (E1 : r1 = Part000.run (Part000.mk target sourceOrgs dryRun logFile)
                                w st) by reflexivity.
  assert (E2 : r2 = ExportUsers.run
                      (ExportUsers.mk target sourceOrgs dryRun logFile
                                      stopOnFailure) w st) by reflexivity.
  clearbody r1 r2.
  rewrite Part000_run_eq in E1. unfold Part000_migration in E1.
  unfold bind at 1 in E1. rewrite Part000_validateSetup_table in E1.
  unfold ExportUsers.run, try_catch in E2. unfold bind at 1 in E2.
  rewrite ExportUsers_validateSetup_table in E2.
  unfold validation_table in E1, E2. cbn [Part000.targetOrg] in E1.
  cbn [ExportUsers.targetOrg] in E2.
  unfold stopped_by_validation, persisted_last.
  assert (Hcatch : forall e rs,
             r2 = (console_error ("❌ Migration failed: " ++ message e)%string ;;
                   ExportUsers.generateReport
                     (ExportUsers.mk target sourceOrgs dryRun logFile
                                     stopOnFailure) ;;
                   process_exit 1) w (after_validation st rs []) ->
             fst r2 = match write_error w (files st) logFile with
                      | Some e => Throw e
                      | None => Exit 1
                      end
             /\ requests (snd r2) = requests st ++ rs
             /\ successful (results (snd r2)) = successful (results st)
             /\ failed (results (snd r2)) = failed (results st)
             /\ skipped (results (snd r2)) = skipped (results st)
             /\ slept (snd r2) = slept st
             /\ exists earlier,
                 files (snd r2) = earlier ++ [(logFile, results (snd r2))]).
  { intros e rs ->. unfold bind at 1. unfold console_error, console.
    unfold bind. rewrite ExportUsers_generateReport_eq.
    unfold write_completion, process_exit, after_validation.
    cbn [files ExportUsers.logFile].
    destruct (write_error w (files st) logFile); cbn;
      repeat split; eexists; reflexivity. }
  destruct Hv as [[e Ha] | [e Ho]].
  - rewrite Ha in E1, E2. cbv beta iota in E1, E2.
    destruct (Hcatch _ _ E2) as (H1 & H2 & H3 & H4 & H5 & H6 & H7).
    subst r1. simpl. repeat split; auto.
  - destruct (auth_response w st) as [e0 | u].
    + cbv beta iota in E1, E2.
      destruct (Hcatch _ _ E2) as (H1 & H2 & H3 & H4 & H5 & H6 & H7).
      subst r1. simpl. repeat split; auto.
    + rewrite Ho in E1, E2. cbv beta iota in E1, E2.
      destruct (Hcatch _ _ E2) as (H1 & H2 & H3 & H4 & H5 & H6 & H7).
      subst r1. simpl. repeat split; auto.
Qed.

(** The rejected credential of [world_unauthenticated], whose file system
    accepts the report. *)
Lemma failed_validation_witness :
  let w := world_unauthenticated in
  validation_fails w (constructed 1) "T"
  /\ fst (Part000.run (Part000.mk "T" ["A"] false "log.json") w
                      (constructed 1)) = Exit 1
  /\ fst (ExportUsers.run (ExportUsers.mk "T" ["A"] false "log.json" true) w
                          (constructed 1)) = Exit 1.
Proof.
  intros w.
  assert (Hv : validation_fails w (constructed 1) "T").
  { left. exists bad_credentials. reflexivity. }
  split; [exact Hv |].
  destruct (@failed_validation_blocks_the_migration
              w (constructed 1) "T" ["A"] false "log.json" true Hv)
    as (H1 & _ & H2 & _).
  split; [exact H1 | exact H2].
Defined.

(** On a file system that refuses the report, the run of
    src/unnamed/part_000, which has simulated both transfers, ends with
    [process.exit(1)] and the line of its handler, and the run of
    src/export-users.js, which calls [writeFileSync] a second time in its
    handler, ends with the error of that call. *)
Example report_refused :
  let part000 := Part000.main world_unwritable boot in
  let export_users := ExportUsers.main world_unwritable boot in
  fst part000 = Exit 1
  /\ map entry_repo (successful (results (snd part000))) = ["A/r1"; "A/r2"]
  /\ map fst (files (snd part000)) = ["migration-log-2025-01-24.json"]
  /\ In (level_error, ("💥 Migration failed: " ++ message EISDIR)%string)
        (stderr (snd part000))
  /\ fst export_users = Throw EISDIR
  /\ map fst (files (snd export_users))
     = ["migration-log-2025-01-24.json"; "migration-log-2025-01-24.json"].
Proof. vm_compute. repeat split. auto. Qed.

(** A file that is not the entry point of the process does nothing. *)
Example imported_file_does_nothing :
  Part000.main world_imported boot = (Normal tt, boot)
  /\ MigrateRepos.main world_imported boot = (Normal tt, boot)
  /\ ExportUsers.main world_imported boot = (Normal tt, boot).
Proof. repeat split. Qed.

(** * The export of organization members *)

(** ** [trim] *)

Lemma list_ascii_of_string_app a b :
  list_ascii_of_string (a ++ b)%string
  = list_ascii_of_string a ++ list_ascii_of_string b.
Proof. induction a as [| c a IH]; simpl; [| rewrite IH]; reflexivity. Qed.

Lemma string_of_list_ascii_app a b :
  string_of_list_ascii (a ++ b)
  = (string_of_list_ascii a ++ string_of_list_ascii b)%string.
Proof. induction a as [| c a IH]; simpl; [| rewrite IH]; reflexivity. Qed.

Lemma reverse_involutive s : reverse (reverse s) = s.
Proof.
  unfold reverse. rewrite list_ascii_of_string_of_list_ascii, rev_involutive.
  apply string_of_list_ascii_of_string.
Qed.

Lemma reverse_app a b :
  reverse (a ++ b)%string = (reverse b ++ reverse a)%string.
Proof.
  unfold reverse.
  rewrite list_ascii_of_string_app, rev_app_distr.
  apply string_of_list_ascii_app.
Qed.

Lemma string_length_app a b :
  String.length (a ++ b)%string = String.length a + String.length b.
Proof. induction a as [| c a IH]; simpl; [| rewrite IH]; reflexivity. Qed.

Lemma reverse_length s : String.length (reverse s) = String.length s.
Proof.
  induction s as [| c s IH]; [reflexivity |].
  change (String c s) with (String c EmptyString ++ s)%string.
  rewrite reverse_app, !string_length_app, IH. simpl. lia.
Qed.

Lemma drop_any_sound marks s t :
  drop_any marks s = Some t ->
  exists mark, In mark marks /\ s = (mark ++ t)%string.
Proof.
  induction marks as [| mark rest IH]; simpl; [discriminate |].
  destruct (drop_prefix mark s) as [r |] eqn:E.
  - intros [= ->]. exists mark. split; [auto |].
    apply drop_prefix_sound. exact E.
  - intros H. destruct (IH H) as (m & Hm & ->). eauto.
Qed.

Lemma drop_any_found marks mark t :
  In mark marks -> drop_any marks (mark ++ t)%string <> None.
Proof.
  induction marks as [| m rest IH]; simpl; [contradiction |].
  intros [-> | H].
  - rewrite drop_prefix_app. discriminate.
  - destruct (drop_prefix m _); [discriminate | auto].
Qed.

(** What is not at the start of [a ++ b] is not at the start of [a]. *)
Lemma drop_any_prefix marks a b :
  drop_any marks (a ++ b)%string = None -> drop_any marks a = None.
Proof.
  intros H. destruct (drop_any marks a) as [t |] eqn:E; [| reflexivity].
  destruct (drop_any_sound _ _ E) as (mark & Hm & ->).
  destruct (@drop_any_found marks mark (t ++ b)%string Hm).
  rewrite <- H. f_equal.
  clear. induction mark as [| c m IH]; simpl; [| rewrite IH]; reflexivity.
Qed.

Lemma drop_while_fixed marks fuel s :
  drop_any marks s = None -> drop_while marks fuel s = s.
Proof. intros H. destruct fuel; simpl; [| rewrite H]; reflexivity. Qed.

Lemma drop_while_suffix marks fuel s :
  exists p, s = (p ++ drop_while marks fuel s)%string.
Proof.
  revert s. induction fuel as [| n IH]; intros s; simpl.
  - exists EmptyString. reflexivity.
  - destruct (drop_any marks s) as [t |] eqn:E.
    + destruct (drop_any_sound _ _ E) as (mark & _ & ->).
      destruct (IH t) as [p Hp]. exists (mark ++ p)%string.
      rewrite Hp at 1.
      clear. induction mark as [| c m IHm]; simpl; [| rewrite IHm];
        reflexivity.
    + exists EmptyString. reflexivity.
Qed.

(** The fuel is enough: nothing is left to drop. *)
Lemma drop_while_done marks fuel s :
  Forall (fun mark => mark <> EmptyString) marks ->
  String.length s <= fuel ->
  drop_any marks (drop_while marks fuel s) = None.
Proof.
  intros Hne. revert s. induction fuel as [| n IH]; intros s Hlen; simpl.
  - destruct s; [| simpl in Hlen; lia].
    clear Hlen. induction Hne as [| mark rest Hm _ IHm]; simpl; [reflexivity |].
    destruct mark; [contradiction | exact IHm].
  - destruct (drop_any marks s) as [t |] eqn:E; [| exact E].
    apply IH. destruct (drop_any_sound _ _ E) as (mark & Hm & ->).
    rewrite string_length_app in Hlen.
    rewrite Forall_forall in Hne. specialize (Hne mark Hm).
    destruct mark; [contradiction | simpl in Hlen; lia].
Qed.

Lemma white_space_not_empty :
  Forall (fun mark => mark <> EmptyString) white_space
  /\ Forall (fun mark => mark <> EmptyString) (map reverse white_space).
Proof. split; repeat (constructor; [discriminate |]); constructor. Qed.

Lemma trim_is_trimmed s : trimmed (trim s).
Proof.
  destruct white_space_not_empty as [H1 H2].
  unfold trim, trimEnd.
  set (t := trimStart s).
  assert (Ht : drop_any white_space t = None).
  { apply drop_while_done; [exact H1 | lia]. }
  set (u := drop_while (map reverse white_space) (String.length t)
                       (reverse t)).
  assert (Hu : drop_any (map reverse white_space) u = None).
  { apply drop_while_done; [exact H2 | rewrite reverse_length; lia]. }
  destruct (drop_while_suffix (map reverse white_space) (String.length t)
                              (reverse t)) as [p Hp].
  fold u in Hp. split.
  - apply (f_equal reverse) in Hp.
    rewrite reverse_involutive, reverse_app in Hp.
    rewrite Hp in Ht. exact (drop_any_prefix _ _ _ Ht).
  - rewrite reverse_involutive. exact Hu.
Qed.

Lemma trim_of_trimmed s : trimmed s -> trim s = s.
Proof.
  intros [H1 H2]. unfold trim, trimEnd, trimStart.
  rewrite (@drop_while_fixed _ _ _ H1), (@drop_while_fixed _ _ _ H2).
  apply reverse_involutive.
Qed.

Lemma trim_fixes_trimmed s : trim s = s <-> trimmed s.
Proof.
  split; [| apply trim_of_trimmed].
  intros H. rewrite <- H. apply trim_is_trimmed.
Qed.

Lemma map_trim_fixes_trimmed orgs :
  map trim orgs = orgs <-> Forall trimmed orgs.
Proof.
  induction orgs as [| org rest IH]; simpl.
  - split; auto.
  - rewrite Forall_cons_iff, <- IH, <- trim_fixes_trimmed.
    split; [intros [= H1 H2]; auto | intros [-> ->]; reflexivity].
Qed.

(** ** The loop *)

Lemma UserExport_loop remote orgs st :
  let st' := fold_left (UserExport.visit remote) orgs st in
  UserExport.asked st' = UserExport.asked st ++ map trim orgs
  /\ UserExport.allUsers st'
     = UserExport.allUsers st
       ++ UserExport.members_of remote (UserExport.asked st) orgs
  /\ UserExport.files st' = UserExport.files st.
Proof.
  revert st. induction orgs as [| org rest IH]; intros st; simpl.
  - rewrite !app_nil_r. auto.
  - destruct (IH (UserExport.visit remote st org)) as (Ha & Hu & Hf).
    rewrite Ha, Hu, Hf. unfold UserExport.visit.
    destruct (remote (UserExport.asked st) (trim org)) as [e | data]; simpl;
      rewrite <- !app_assoc; auto.
Qed.

Lemma members_of_exported remote orgs h u :
  In u (UserExport.members_of remote h orgs)
  <-> exists before org after data m,
        orgs = before ++ org :: after
        /\ remote (h ++ map trim before) (trim org) = inr data
        /\ In m data
        /\ u = UserExport.export_member org m.
Proof.
  revert h. induction orgs as [| org rest IH]; intros h; simpl.
  - split; [contradiction |].
    intros (before & o & after & _ & _ & E & _).
    destruct before; discriminate.
  - rewrite in_app_iff, IH. split.
    + intros [H | (before & o & after & data & m & -> & Hr & Hm & ->)].
      * destruct (remote h (trim org)) as [e | data] eqn:E; [contradiction |].
        apply in_map_iff in H. destruct H as (m & <- & Hm).
        exists [], org, rest, data, m. simpl. rewrite app_nil_r. auto.
      * exists (org :: before), o, after, data, m. simpl.
        rewrite <- app_assoc in Hr. auto.
    + intros (before & o & after & data & m & E & Hr & Hm & ->).
      destruct before as [| b before]; simpl in E; injection E as -> ->.
      * left. simpl in Hr. rewrite app_nil_r in Hr. rewrite Hr.
        apply in_map. exact Hm.
      * right. exists before, o, after, data, m. simpl in Hr.
        rewrite <- app_assoc. auto.
Qed.

(** The export of members is best effort.  The script asks for the members
    of every piece of [SOURCE_ORGS], trimmed, once and in order, whether the
    queries before it failed or not; [allUsers] holds, in that order, the
    members of the organizations whose query succeeded, each with the
    trimmed name of its organization, and nothing for the others; and
    [users.json] is written once, at the end, with [allUsers], also when
    every query failed or [SOURCE_ORGS] is not set. *)
Theorem user_export_is_best_effort :
  forall (w : World) (remote : UserExport.Remote),
    let orgs := parse_source_orgs (SOURCE_ORGS w) in
    let st := UserExport.main w remote in
    UserExport.asked st = map trim orgs
    /\ UserExport.allUsers st = UserExport.members_of remote [] orgs
    /\ (forall u, In u (UserExport.allUsers st)
                  <-> UserExport.exported_from remote orgs u)
    /\ UserExport.files st = [("users.json", UserExport.allUsers st)].
Proof.
  intros w remote orgs st. subst st. unfold UserExport.main. fold orgs.
  destruct (UserExport_loop remote orgs (UserExport.mkScript [] [] []))
    as (Ha & Hu & Hf).
  cbn [UserExport.asked UserExport.allUsers UserExport.files] in *.
  rewrite Hf. simpl in Ha, Hu. rewrite Ha, Hu.
  split; [reflexivity |]. split; [reflexivity |].
  split; [| reflexivity].
  intros u. apply (members_of_exported remote orgs [] u).
Qed.

Example user_export_of_two_organizations :
  let st := UserExport.main world_with_blanks UserExport.two_organizations in
  UserExport.asked st = ["A"; "X"; "B"]
  /\ map (fun u => (UserExport.organization u, UserExport.login u))
         (UserExport.allUsers st)
     = [("A", "ada"); ("B", "bob"); ("B", "bea")]
  /\ map fst (UserExport.files st) = ["users.json"].
Proof. vm_compute. repeat split. Qed.

Example trim_examples :
  trim "  acme " = "acme"
  /\ trim (utf8 [239; 187; 191; 9; 97; 32; 98; 194; 160; 226; 128; 169; 10])
     = "a b"
  /\ trim " " = ""
  /\ trim "a-b" = "a-b"
  /\ length white_space = 25.
Proof. vm_compute. repeat split. Qed.

(** ** The two halves of src/export-users.js read [SOURCE_ORGS] differently *)

Lemma discovery_requests_dry w target h orgs :
  discovery_requests w false target h orgs = map GET_orgs_repos orgs.
Proof.
  revert h. induction orgs as [| org rest IH]; intros h; simpl;
    [| rewrite IH]; reflexivity.
Qed.

Lemma ExportUsers_dry_migration_requests this orgs w st :
  ExportUsers.dryRun this = true ->
  requests (snd (ExportUsers.migrateFromOrganizations this orgs w st))
  = requests st ++ map GET_orgs_repos orgs.
Proof.
  intros Hdry.
  assert (Hvisit : forall org repo st0,
             visit_outcome w false (ExportUsers.targetOrg this)
                           (ExportUsers_visit this org repo) org repo st0).
  { intros org repo st0.
    pose proof (ExportUsers_visit_outcome this org repo w st0) as H.
    rewrite Hdry in H. exact H. }
  destruct (@scheduler_ok w false (ExportUsers.targetOrg this)
              (ExportUsers.listRepositories this) (ExportUsers_visit this)
              (fun org st0 => ExportUsers_listing_outcome this org w st0)
              Hvisit orgs st (dry_attempts_succeed _ _ _))
    as (st' & Hrun & Hv).
  destruct (visited_all_succeed Hv (dry_attempts_succeed _ _ _))
    as (ok & (Hr & _) & _).
  change (ExportUsers.migrateFromOrganizations this orgs w st)
    with (for_of orgs
            (fun sourceOrg =>
               repos <- ExportUsers.listRepositories this sourceOrg ;;
               for_of repos (ExportUsers_visit this sourceOrg)) w st).
  rewrite Hrun. simpl. rewrite Hr, discovery_requests_dry. reflexivity.
Qed.

(** The member export asks for [org.trim()], the migration lists [org] as
    it stands.  In a dry run, which lists every source organization, the
    organizations listed are those whose members the export asks for
    exactly when no piece of [SOURCE_ORGS] starts or ends with white
    space. *)
Theorem only_the_member_export_trims :
  forall (w : World) (remote : UserExport.Remote)
         (this : ExportUsers.RepositoryMigrator) (st : State),
    ExportUsers.dryRun this = true ->
    let orgs := parse_source_orgs (SOURCE_ORGS w) in
    exists listings,
      requests (snd (ExportUsers.migrateFromOrganizations this orgs w st))
      = requests st ++ listings
      /\ (listings
          = map GET_orgs_repos (UserExport.asked (UserExport.main w remote))
          <-> Forall trimmed orgs).
Proof.
  intros w remote this st Hdry orgs.
  exists (map GET_orgs_repos orgs).
  split; [apply ExportUsers_dry_migration_requests; exact Hdry |].
  unfold UserExport.main. fold orgs.
  destruct (UserExport_loop remote orgs (UserExport.mkScript [] [] []))
    as (Ha & _).
  cbn [UserExport.asked] in *. simpl in Ha. rewrite Ha.
  rewrite <- map_trim_fixes_trimmed. split.
  - intros H. clear Ha. induction orgs as [| org rest IH]; [reflexivity |].
    simpl in H. injection H as H1 H2. simpl. rewrite <- H1. f_equal. auto.
  - intros ->. reflexivity.
Qed.

(** With [SOURCE_ORGS="A, X ,B"] the export asks for [X] and the migration
    lists [" X "]. *)
Lemma only_the_member_export_trims_witness :
  ExportUsers.dryRun export_users_dry = true
  /\ requests
       (snd (ExportUsers.migrateFromOrganizations
               export_users_dry ["A"; " X "; "B"] world_with_blanks boot))
     <> map GET_orgs_repos
            (UserExport.asked
               (UserExport.main world_with_blanks
                                UserExport.two_organizations)).
Proof.
  split; [reflexivity |].
  destruct (@only_the_member_export_trims
              world_with_blanks UserExport.two_organizations export_users_dry
              boot eq_refl) as (listings & Hr & Hiff).
  change (parse_source_orgs (SOURCE_ORGS world_with_blanks))
    with ["A"; " X "; "B"] in Hr, Hiff.
  rewrite Hr. simpl. intros H. apply Hiff in H.
  apply Forall_cons_iff in H. destruct H as [_ H].
  apply Forall_cons_iff in H. destruct H as [[H _] _].
  discriminate H.
Defined.

(** * The claims about transfers, on src/export-users.js *)

Lemma ExportUsers_dry_transfer this repo sourceOrg :
  ExportUsers.dryRun this = true ->
  steps dry_step (ExportUsers.transferRepository this repo sourceOrg).
Proof.
  intros H. unfold ExportUsers.transferRepository. rewrite H. steps_auto.
Qed.

Lemma ExportUsers_dry_run this :
  ExportUsers.dryRun this = true -> steps dry_step (ExportUsers.run this).
Proof.
  intros H. pose proof (ExportUsers_dry_transfer this) as T.
  unfold ExportUsers.run, ExportUsers.validateSetup,
    ExportUsers.migrateFromOrganizations, ExportUsers.listRepositories,
    ExportUsers.generateReport.
  steps_auto.
Qed.

(** In src/export-users.js too a dry run transfers nothing: with [dryRun]
    set, [run] from any state, and the program started without [--execute],
    issue no transfer request, push nothing on [failed] or [skipped], and
    push only entries with [dryRun: true] on [successful]. *)
Theorem export_users_dry_run_never_transfers :
  forall w : World,
    (forall (this : ExportUsers.RepositoryMigrator) (st : State),
        ExportUsers.dryRun this = true ->
        dry_step st (snd (ExportUsers.run this w st)))
    /\ (includes (argv w) "--execute" = false ->
        dry_step boot (snd (ExportUsers.main w boot))).
Proof.
  intros w. split.
  - intros this st H. apply ExportUsers_dry_run. exact H.
  - intros H. rewrite ExportUsers_main_unfolded.
    destruct (is_entry_point w); [| reflexivity].
    destruct (TARGET_ORG w) as [[| c s] |];
      try (apply dry_step_same_results; reflexivity).
    transitivity (constructed 1); [apply dry_step_constructed |].
    apply ExportUsers_dry_run. simpl. rewrite H. reflexivity.
Qed.

(** The scenario of the specification, run by src/export-users.js. *)
Lemma export_users_dry_run_witness :
  includes (argv scenario_dry) "--execute" = false
  /\ dry_step boot (snd (ExportUsers.main scenario_dry boot)).
Proof.
  split; [reflexivity |].
  exact (proj2 (export_users_dry_run_never_transfers scenario_dry) eq_refl).
Defined.

(** In src/export-users.js too every call of [transferRepository] pushes
    exactly one entry, named after the repository, on exactly one bucket,
    also when the refusal is thrown again. *)
Theorem export_users_transfer_records_exactly_one :
  forall (this : ExportUsers.RepositoryMigrator) (w : World) (st : State)
         (repo : Repo) (sourceOrg : string),
    records_one_outcome sourceOrg repo st
      (snd (ExportUsers.transferRepository this repo sourceOrg w st)).
Proof.
  intros this w st repo sourceOrg.
  unfold ExportUsers.transferRepository.
  destruct (ExportUsers.dryRun this); run_js.
  - eapply records_one_intro; [| left; simpl; eauto]. reflexivity.
  - destruct (ExportUsers.stopOnFailure this); simpl;
      (eapply records_one_intro; [| right; left; simpl; eauto]);
      reflexivity.
  - eapply records_one_intro; [| left; simpl; eauto]. reflexivity.
Qed.
